(** * Income record API: a model of [server.js] and of the earlier server

    The development follows the Express application of [src/server.js]
    (the create, list and delete handlers, the error middleware and the
    catch-all handler) and, of the code kept in [src/README.md], the
    statistics, health and delete handlers and the paging numbers of the
    earlier server, and the paging of the client script.

    The handlers are thin: they hand the request to Mongoose and shape the
    answer.  The collection is therefore modelled as a list of documents in
    insertion order, and the Mongoose calls the handlers make ([create],
    [find], [sort], [skip], [limit], [countDocuments],
    [findByIdAndDelete], [aggregate]) as functions on that list, following
    the schema declared in the source.  What the source leaves to the
    JavaScript engine and to the libraries (date and identifier casts, the
    texts of library errors, the operators of a filter that the handler
    does not write itself, the rules on which the versions of Mongoose
    differ) is gathered in a record [Runtime], and the properties are shown
    for every runtime.

    A request enters the model as Express hands it to the router: the
    method, the path, the parsed query string and the parsed JSON body.
    The middleware in front of the router (CORS, helmet, logging, the rate
    limiter, the body parser) and the process handlers are not part of it.
    Numbers are exact rationals, with [NaN] and the two infinities beside
    them; a document holds no infinite amount. *)

From Stdlib Require Import List String Ascii Bool Arith ZArith QArith Qround Lia.
From Stdlib Require Import Permutation Sorted Lqa.
Import ListNotations.

Local Open Scope string_scope.
Local Open Scope list_scope.
Local Open Scope Z_scope.

#[local] Set Warnings "-register-all".

(* ================================================================== *)
(** ** JavaScript values

    Strings are strings of 8-bit codes. *)

(** A MongoDB object identifier, 12 bytes read as a number. *)
Definition ObjectId := N.

(** The values that travel through the handlers: parsed JSON bodies and the
    objects given to [res.json].  [undefined] is the [None] of
    [option value]. *)
Inductive value : Type :=
| VNull
| VBool (b : bool)
| VNum (q : Q)
| VStr (s : string)
| VDate (t : Z)
| VId (i : ObjectId)
| VArr (items : list value)
| VObj (fields : list (string * value)).

(** The result of a numeric coercion: [NaN], a number or one of the two
    infinities. *)
Inductive number : Type :=
| NaN
| Num (q : Q)
| Infinity (negative : bool).

Fixpoint assoc {A : Type} (k : string) (l : list (string * A)) : option A :=
  match l with
  | [] => None
  | (k', v) :: r => if String.eqb k k' then Some v else assoc k r
  end.

Fixpoint insert_by {A : Type} (le : A -> A -> bool) (x : A) (l : list A)
  : list A :=
  match l with
  | [] => [x]
  | y :: r => if le x y then x :: l else y :: insert_by le x r
  end.

(** Sorting by insertion: elements that the order does not separate keep
    the order they had. *)
Definition sort_by {A : Type} (le : A -> A -> bool) (l : list A) : list A :=
  fold_right (insert_by le) [] l.

(** Property read [o.k] (and the destructuring [const { k } = o]). *)
Definition prop (k : string) (o : value) : option value :=
  match o with
  | VObj fields => assoc k fields
  | _ => None
  end.

(** A string that may be [null]. *)
Definition json_string (s : option string) : value :=
  match s with
  | Some x => VStr x
  | None => VNull
  end.

(** Truthiness, as [||] and [if] test it. *)
Definition truthy (v : value) : bool :=
  match v with
  | VNull => false
  | VBool b => b
  | VNum q => negb (Qeq_bool q 0)
  | VStr s => negb (String.eqb s "")
  | _ => true
  end.

(* ------------------------------------------------------------------ *)
(** *** Characters and strings *)

Definition code (c : ascii) : nat := nat_of_ascii c.

(** The double quote. *)
Definition dquote : ascii := ascii_of_nat 34.

Definition is_digit (c : ascii) : bool :=
  (48 <=? code c)%nat && (code c <=? 57)%nat.

Definition is_alpha (c : ascii) : bool :=
  ((65 <=? code c)%nat && (code c <=? 90)%nat)
  || ((97 <=? code c)%nat && (code c <=? 122)%nat).

(** The class [\w] of a regular expression. *)
Definition is_word (c : ascii) : bool :=
  is_alpha c || is_digit c || (code c =? 95)%nat.

(** White space stripped by [trim] and by the string to number
    conversion: the part of it among the 8-bit codes, the no-break space
    included. *)
Definition is_space (c : ascii) : bool :=
  match code c with
  | 9%nat | 10%nat | 11%nat | 12%nat | 13%nat | 32%nat | 160%nat => true
  | _ => false
  end.

Fixpoint drop_while (p : ascii -> bool) (l : list ascii) : list ascii :=
  match l with
  | [] => []
  | c :: r => if p c then drop_while p r else l
  end.

Fixpoint take_while (p : ascii -> bool) (l : list ascii) : list ascii :=
  match l with
  | [] => []
  | c :: r => if p c then c :: take_while p r else []
  end.

Definition trim_chars (l : list ascii) : list ascii :=
  rev (drop_while is_space (rev (drop_while is_space l))).

(** [String.prototype.trim]. *)
Definition trim (s : string) : string :=
  string_of_list_ascii (trim_chars (list_ascii_of_string s)).

Fixpoint join (sep : string) (l : list string) : string :=
  match l with
  | [] => ""
  | [s] => s
  | s :: r => s ++ sep ++ join sep r
  end.

Fixpoint split_chars (sep : ascii) (cur : list ascii) (l : list ascii)
  : list string :=
  match l with
  | [] => [string_of_list_ascii (rev cur)]
  | c :: r =>
      if Ascii.eqb c sep
      then string_of_list_ascii (rev cur) :: split_chars sep [] r
      else split_chars sep (c :: cur) r
  end.

(** [s.split(sep)] for a one-character separator. *)
Definition split (sep : ascii) (s : string) : list string :=
  split_chars sep [] (list_ascii_of_string s).

(* ------------------------------------------------------------------ *)
(** *** String to number

    [Number(s)], also the coercion of [s * 1]: surrounding white space,
    then either a decimal literal (an optional sign, then [Infinity] or
    digits with an optional fraction and an optional exponent) or an
    unsigned integer in radix 16, 8 or 2 behind [0x], [0o] or [0b].  The
    empty string is 0; any other text is [NaN]. *)

Definition digit_val (c : ascii) : Z := Z.of_nat (code c - 48).

Definition digits_val (ds : list ascii) : Z :=
  fold_left (fun acc c => 10 * acc + digit_val c) ds 0.

Definition decimal (neg : bool) (ip fp : list ascii) : Q :=
  let m := digits_val (ip ++ fp) in
  Qmake (if neg then - m else m) (Z.to_pos (10 ^ Z.of_nat (List.length fp))).

(** The value of a digit in a radix up to 16, when it is one. *)
Definition radix_digit (radix : Z) (c : ascii) : option Z :=
  let n := code c in
  let v := if is_digit c then Some (Z.of_nat (n - 48))
           else if (97 <=? n)%nat && (n <=? 102)%nat
                then Some (Z.of_nat (n - 87))
                else if (65 <=? n)%nat && (n <=? 70)%nat
                     then Some (Z.of_nat (n - 55))
                     else None in
  match v with
  | Some d => if d <? radix then Some d else None
  | None => None
  end.

Fixpoint radix_val (radix : Z) (acc : Z) (ds : list ascii) : option Z :=
  match ds with
  | [] => Some acc
  | c :: r =>
      match radix_digit radix c with
      | Some d => radix_val radix (radix * acc + d) r
      | None => None
      end
  end.

(** The literals [0x...], [0o...] and [0b...]: no sign, at least one
    digit, nothing after the digits. *)
Definition radix_literal (l : list ascii) : option Z :=
  match l with
  | z :: p :: d :: ds =>
      if Ascii.eqb z "0"
      then if Ascii.eqb p "x" || Ascii.eqb p "X" then radix_val 16 0 (d :: ds)
           else if Ascii.eqb p "o" || Ascii.eqb p "O" then radix_val 8 0 (d :: ds)
           else if Ascii.eqb p "b" || Ascii.eqb p "B" then radix_val 2 0 (d :: ds)
           else None
      else None
  | _ => None
  end.

(** The exponent written after [e]: an optional sign and at least one
    digit. *)
Definition exponent (l : list ascii) : option Z :=
  let neg := match l with
             | c :: _ => Ascii.eqb c "-"
             | [] => false
             end in
  let ds := match l with
            | c :: r => if Ascii.eqb c "-" || Ascii.eqb c "+" then r else l
            | [] => l
            end in
  match ds with
  | [] => None
  | _ :: _ =>
      if forallb is_digit ds
      then Some (if neg then - digits_val ds else digits_val ds)
      else None
  end.

(** [q] times the [k]th power of ten. *)
Definition scale (q : Q) (k : Z) : Q :=
  if 0 <=? k then (q * inject_Z (10 ^ k))%Q
  else (q / inject_Z (10 ^ (- k)))%Q.

Definition StringToNumber (s : string) : number :=
  match trim_chars (list_ascii_of_string s) with
  | [] => Num 0
  | c :: r =>
      match radix_literal (c :: r) with
      | Some n => Num (inject_Z n)
      | None =>
          let neg := Ascii.eqb c "-" in
          let body := if neg || Ascii.eqb c "+" then r else c :: r in
          if String.eqb (string_of_list_ascii body) "Infinity"
          then Infinity neg
          else
            let ip := take_while is_digit body in
            let rest := drop_while is_digit body in
            let fp := match rest with
                      | "."%char :: r' => take_while is_digit r'
                      | _ => []
                      end in
            let tail := match rest with
                        | "."%char :: r' => drop_while is_digit r'
                        | _ => rest
                        end in
            match ip ++ fp with
            | [] => NaN
            | _ :: _ =>
                match tail with
                | [] => Num (decimal neg ip fp)
                | e :: t =>
                    if Ascii.eqb e "e" || Ascii.eqb e "E"
                    then match exponent t with
                         | Some k => Num (scale (decimal neg ip fp) k)
                         | None => NaN
                         end
                    else NaN
                end
            end
      end
  end.

(** Products and differences of numbers, as [*] and [-] compute them. *)
Definition num_mul (a b : number) : number :=
  match a, b with
  | Num x, Num y => Num (x * y)
  | Infinity m, Infinity n => Infinity (xorb m n)
  | Infinity m, Num y | Num y, Infinity m =>
      if Qeq_bool y 0 then NaN
      else Infinity (xorb m (negb (Qle_bool 0 y)))
  | _, _ => NaN
  end.

Definition num_sub (a b : number) : number :=
  match a, b with
  | Num x, Num y => Num (x - y)
  | Infinity m, Num _ => Infinity m
  | Num _, Infinity n => Infinity (negb n)
  | Infinity m, Infinity n => if Bool.eqb m n then NaN else Infinity m
  | _, _ => NaN
  end.

(** [a || d] on numbers: [NaN] and 0 are falsy. *)
Definition num_or (a : number) (d : number) : number :=
  match a with
  | NaN => d
  | Num q => if Qeq_bool q 0 then d else a
  | Infinity _ => a
  end.

(* ================================================================== *)
(** ** The query string object

    [req.query] as the [qs] parser of Express builds it: strings, arrays
    and nested objects ([amount[gte]=5] is [{ amount: { gte: "5" } }]). *)

Inductive qs : Type :=
| QStr (s : string)
| QArr (items : list qs)
| QObj (fields : list (string * qs)).

Definition ParsedQs := list (string * qs).

(** [String(v)]: arrays join their elements with a comma. *)
Fixpoint qs_toString (v : qs) : string :=
  match v with
  | QStr s => s
  | QArr items => join "," (map qs_toString items)
  | QObj _ => "[object Object]"
  end.

(** [v * 1] for a property of [req.query] that may be absent. *)
Definition ToNumber (v : option qs) : number :=
  match v with
  | None => NaN
  | Some q => StringToNumber (qs_toString q)
  end.

Definition qs_truthy (v : option qs) : bool :=
  match v with
  | None => false
  | Some (QStr s) => negb (String.eqb s "")
  | Some _ => true
  end.

(** [delete o[k]]. *)
Fixpoint delete_key {A : Type} (k : string) (o : list (string * A))
  : list (string * A) :=
  match o with
  | [] => []
  | (k', v) :: r =>
      if String.eqb k k' then delete_key k r else (k', v) :: delete_key k r
  end.

(* ------------------------------------------------------------------ *)
(** *** [JSON.stringify] on a query object *)

Definition hex_digit (n : nat) : ascii :=
  ascii_of_nat (if (n <? 10)%nat then 48 + n else 87 + n).

Definition escape_char (c : ascii) : list ascii :=
  match code c with
  | 34%nat => ["\"%char; dquote]
  | 92%nat => ["\"; "\"]%char
  | 8%nat => ["\"; "b"]%char
  | 9%nat => ["\"; "t"]%char
  | 10%nat => ["\"; "n"]%char
  | 12%nat => ["\"; "f"]%char
  | 13%nat => ["\"; "r"]%char
  | n =>
      if (n <? 32)%nat
      then ["\"; "u"; "0"; "0"; hex_digit (n / 16); hex_digit (n mod 16)]%char
      else [c]
  end.

Definition quote (s : string) : list ascii :=
  dquote :: flat_map escape_char (list_ascii_of_string s) ++ [dquote].

Fixpoint commas (l : list (list ascii)) : list ascii :=
  match l with
  | [] => []
  | [x] => x
  | x :: r => x ++ ","%char :: commas r
  end.

Fixpoint stringify_chars (v : qs) : list ascii :=
  match v with
  | QStr s => quote s
  | QArr items => "["%char :: commas (map stringify_chars items) ++ ["]"%char]
  | QObj fields =>
      "{"%char
        :: commas (map (fun kv => quote (fst kv) ++ ":"%char
                                     :: stringify_chars (snd kv)) fields)
        ++ ["}"%char]
  end.

Definition JSON_stringify (o : ParsedQs) : string :=
  string_of_list_ascii (stringify_chars (QObj o)).

(* ------------------------------------------------------------------ *)
(** *** The operator rewrite

    [queryStr.replace(/\b(gte|gt|lte|lt)\b/g, match => `$${match}`)].
    A match starts at a word boundary, so only where the previous character
    is not a word character; the alternatives are tried in the order
    written, each one followed by a word boundary. *)

Fixpoint prefix_of (p l : list ascii) : option (list ascii) :=
  match p, l with
  | [], _ => Some l
  | _ :: _, [] => None
  | a :: p', b :: l' => if Ascii.eqb a b then prefix_of p' l' else None
  end.

Definition boundary_after (rest : list ascii) : bool :=
  match rest with
  | [] => true
  | c :: _ => negb (is_word c)
  end.

Definition operators : list string := ["gte"; "gt"; "lte"; "lt"].

Definition operator_at (l : list ascii) : bool :=
  existsb (fun op => match prefix_of (list_ascii_of_string op) l with
                     | Some rest => boundary_after rest
                     | None => false
                     end) operators.

(** The scan keeps whether the previous character was a word character.
    Inside a match every character is a word character, so no second match
    starts there: writing the [$] and going on character by character is
    the same as copying the match and resuming after it. *)
Fixpoint replace_operators (prev_word : bool) (l : list ascii) : list ascii :=
  match l with
  | [] => []
  | c :: r =>
      let tail := c :: replace_operators (is_word c) r in
      if negb prev_word && operator_at l then "$"%char :: tail else tail
  end.

Definition replace_ops (s : string) : string :=
  string_of_list_ascii (replace_operators false (list_ascii_of_string s)).

(* ------------------------------------------------------------------ *)
(** *** [JSON.parse] on the rewritten text

    The text parsed is the rewritten output of [JSON_stringify]: string
    literals, arrays and objects.  Number, boolean and null literals do not
    occur in it and are not read; as any text that is not JSON they give
    [None], the [SyntaxError] of [JSON.parse]. *)

Definition hex_val (c : ascii) : option nat :=
  let n := code c in
  if is_digit c then Some (n - 48)%nat
  else if (97 <=? n)%nat && (n <=? 102)%nat then Some (n - 87)%nat
  else if (65 <=? n)%nat && (n <=? 70)%nat then Some (n - 55)%nat
  else None.

Definition unicode_escape (a b c d : ascii) : option ascii :=
  match hex_val a, hex_val b, hex_val c, hex_val d with
  | Some 0%nat, Some 0%nat, Some h, Some l => Some (ascii_of_nat (16 * h + l))
  | _, _, _, _ => None
  end.

(** The characters of a string literal after its opening quote. *)
Fixpoint parse_string (acc : list ascii) (l : list ascii)
  : option (string * list ascii) :=
  match l with
  | [] => None
  | c :: r =>
      if Ascii.eqb c dquote then Some (string_of_list_ascii (rev acc), r)
      else if Ascii.eqb c "\" then
        match r with
        | [] => None
        | e :: r' =>
            match code e with
            | 34%nat | 92%nat | 47%nat => parse_string (e :: acc) r'
            | 98%nat => parse_string (ascii_of_nat 8 :: acc) r'
            | 102%nat => parse_string (ascii_of_nat 12 :: acc) r'
            | 110%nat => parse_string (ascii_of_nat 10 :: acc) r'
            | 114%nat => parse_string (ascii_of_nat 13 :: acc) r'
            | 116%nat => parse_string (ascii_of_nat 9 :: acc) r'
            | 117%nat =>
                match r' with
                | h1 :: h2 :: h3 :: h4 :: r'' =>
                    match unicode_escape h1 h2 h3 h4 with
                    | Some u => parse_string (u :: acc) r''
                    | None => None
                    end
                | _ => None
                end
            | _ => None
            end
        end
      else if (code c <? 32)%nat then None
      else parse_string (c :: acc) r
  end.

Definition json_space (c : ascii) : bool :=
  match code c with
  | 9%nat | 10%nat | 13%nat | 32%nat => true
  | _ => false
  end.

Fixpoint parse_value (fuel : nat) (l : list ascii) : option (qs * list ascii) :=
  match fuel with
  | O => None
  | S fuel' =>
      match drop_while json_space l with
      | c :: r =>
          if Ascii.eqb c dquote then
            match parse_string [] r with
            | Some (s, r') => Some (QStr s, r')
            | None => None
            end
          else if Ascii.eqb c "[" then
            match drop_while json_space r with
            | d :: r' =>
                if Ascii.eqb d "]" then Some (QArr [], r')
                else parse_elements fuel' [] r
            | [] => None
            end
          else if Ascii.eqb c "{" then
            match drop_while json_space r with
            | d :: r' =>
                if Ascii.eqb d "}" then Some (QObj [], r')
                else parse_members fuel' [] r
            | [] => None
            end
          else None
      | [] => None
      end
  end
with parse_elements (fuel : nat) (acc : list qs) (l : list ascii)
  : option (qs * list ascii) :=
  match fuel with
  | O => None
  | S fuel' =>
      match parse_value fuel' l with
      | Some (v, r) =>
          match drop_while json_space r with
          | c :: r' =>
              if Ascii.eqb c "," then parse_elements fuel' (v :: acc) r'
              else if Ascii.eqb c "]" then Some (QArr (rev (v :: acc)), r')
              else None
          | [] => None
          end
      | None => None
      end
  end
with parse_members (fuel : nat) (acc : list (string * qs)) (l : list ascii)
  : option (qs * list ascii) :=
  match fuel with
  | O => None
  | S fuel' =>
      match drop_while json_space l with
      | q :: r =>
          if Ascii.eqb q dquote then
            match parse_string [] r with
            | Some (k, r1) =>
                match drop_while json_space r1 with
                | c :: r2 =>
                    if Ascii.eqb c ":" then
                      match parse_value fuel' r2 with
                      | Some (v, r3) =>
                          match drop_while json_space r3 with
                          | d :: r4 =>
                              if Ascii.eqb d ","
                              then parse_members fuel' ((k, v) :: acc) r4
                              else if Ascii.eqb d "}"
                              then Some (QObj (rev ((k, v) :: acc)), r4)
                              else None
                          | [] => None
                          end
                      | None => None
                      end
                    else None
                | [] => None
                end
            | None => None
            end
          else None
      | [] => None
      end
  end.

(** Every call of the parser reads at least one character, so the length
    of the text bounds the depth of the calls. *)
Definition JSON_parse (s : string) : option qs :=
  let l := list_ascii_of_string s in
  match parse_value (S (List.length l)) l with
  | Some (v, rest) =>
      match drop_while json_space rest with
      | [] => Some v
      | _ :: _ => None
      end
  | None => None
  end.

(* ------------------------------------------------------------------ *)
(** *** The rewritten text, value by value

    What the proofs about the rewrite and the parser are stated with. *)

(** A character that starts no operator and is no word character. *)
Definition inert (c : ascii) : bool :=
  negb (is_word c) && negb (Ascii.eqb c "g") && negb (Ascii.eqb c "l").

(** A character that a string literal holds as it is. *)
Definition verbatim (c : ascii) : bool :=
  negb (code c <? 32)%nat && negb (Ascii.eqb c dquote) && negb (Ascii.eqb c "\").

(** Induction on a query value, through its lists. *)
Section QsInduction.

Variable P : qs -> Prop.
Hypothesis HStr : forall s, P (QStr s).
Hypothesis HArr : forall items, Forall P items -> P (QArr items).
Hypothesis HObj :
  forall fields, Forall (fun kv => P (snd kv)) fields -> P (QObj fields).

Fixpoint qs_induction (v : qs) : P v :=
  match v with
  | QStr s => HStr s
  | QArr items =>
      HArr items
        ((fix all (l : list qs) : Forall P l :=
            match l with
            | [] => Forall_nil P
            | x :: r => Forall_cons x (qs_induction x) (all r)
            end) items)
  | QObj fields =>
      HObj fields
        ((fix all (l : list (string * qs))
            : Forall (fun kv => P (snd kv)) l :=
            match l with
            | [] => Forall_nil _
            | kv :: r => Forall_cons kv (qs_induction (snd kv)) (all r)
            end) fields)
  end.

End QsInduction.

(** The text after the rewrite, value by value. *)
Definition literal (s : string) : list ascii :=
  dquote :: replace_operators false
              (flat_map escape_char (list_ascii_of_string s)) ++ [dquote].

Fixpoint rewritten (v : qs) : list ascii :=
  match v with
  | QStr s => literal s
  | QArr items => "["%char :: commas (map rewritten items) ++ ["]"%char]
  | QObj fields =>
      "{"%char
        :: commas (map (fun kv => literal (fst kv) ++ ":"%char
                                     :: rewritten (snd kv)) fields)
        ++ ["}"%char]
  end.

(** The number of calls the parser makes on a value. *)
Fixpoint qs_size (v : qs) : nat :=
  match v with
  | QStr _ => 1
  | QArr items => S (fold_right (fun x n => S (qs_size x + n)) 0 items)%nat
  | QObj fields =>
      S (fold_right (fun kv n => S (qs_size (snd kv) + n)) 0 fields)%nat
  end.

(** The first character of a rendered value. *)
Definition opening (c : ascii) : bool :=
  Ascii.eqb c dquote || Ascii.eqb c "[" || Ascii.eqb c "{".

Definition elements_size (items : list qs) : nat :=
  fold_right (fun x n => S (qs_size x + n)) 0%nat items.

Definition members_size (fields : list (string * qs)) : nat :=
  fold_right (fun kv n => S (qs_size (snd kv) + n)) 0%nat fields.

(** A value that the parser reads back from its rendering, given the
    calls it needs. *)
Definition reads_back (v : qs) : Prop :=
  exists v', forall fuel rest,
      (qs_size v <= fuel)%nat ->
      parse_value fuel (rewritten v ++ rest) = Some (v', rest).

(* ================================================================== *)
(** ** What the runtime and the libraries provide

    The texts and conversions that come from the JavaScript engine, from
    Mongoose and from the MongoDB server, and that [server.js] only passes
    on.  The model is stated for any such runtime. *)

(** The failures raised below the handlers. *)
Inductive failure : Type :=
| CastFailure (type : string) (v : value) (path : string)
| EnumFailure (v : option string) (path : string)
| QueryCastFailure (type : string) (v : qs) (path : string)
| ObjectIdFailure (raw : string)
| UnknownOperator (op : string)
| NegativeSkip (n : Q)
| InfiniteOption (which : string)
| SortFailure (spec : string)
| DuplicateKey (i : ObjectId)
| NotAFunction (callee : string)
| JsonSyntax.

(** The documents of the collection, as the schema of [server.js] shapes
    them. *)
Record IncomeRecord : Type := {
  _id : ObjectId;
  description : string;
  amount : Q;
  date : Z;
  (** [None] is [null] *)
  category : option string;
  createdAt : Z;
  updatedAt : Z
}.

(** The four paths given to [IncomeRecord.create]. *)
Record CreateInput : Type := {
  in_description : option value;
  in_amount : option value;
  in_date : value;
  in_category : option value
}.

Record Runtime : Type := {
  (** Mongoose's cast to [Date]; [None] when the cast fails. *)
  castDate : value -> option Z;
  (** Mongoose's cast of a string to [ObjectId]; [None] when it fails. *)
  castObjectId : string -> option ObjectId;
  (** [Number.prototype.toString]. *)
  Number_toString : Q -> string;
  (** [Date.prototype.toISOString]. *)
  toISOString : Z -> string;
  (** [ObjectId.prototype.toString], the [id] virtual. *)
  ObjectId_toString : ObjectId -> string;
  (** The message text of a library error. *)
  failure_message : failure -> string;
  (** Whether the [enum] validator of a string path lets [null] pass;
      the versions of Mongoose differ. *)
  enum_accepts_null : bool;
  (** The [strictQuery] option, whose default differs between the versions
      of Mongoose: when set, a filter path outside the schema is dropped. *)
  strictQuery : bool;
  (** The order in which Mongoose reports the failed paths of a create,
      which depends on the paths the input sets: whether the first of two
      paths is reported before the second. *)
  reported_before : CreateInput -> string -> string -> bool;
  (** A condition under an operator other than the four the handler
      writes ([$ne], [$in], [$exists], ...), on a path (the empty path
      for a key at the top of the filter): the documents it selects, or
      [None] when Mongoose or the server knows no such operator or refuses
      its operand. *)
  other_condition : string -> string -> qs -> option (IncomeRecord -> bool);
  (** A sort whose string does not name its fields one by one (an empty
      field name, white space besides single spaces, a name that is no
      plain word): the order it gives, or [None] when it is refused; the
      versions of Mongoose differ. *)
  odd_sort : string -> option (list IncomeRecord -> list IncomeRecord)
}.

(** An error object with the properties the error middleware reads. *)
Record Error : Type := {
  name : string;
  statusCode : option nat;
  status : option string;
  message : string
}.

(** An error with neither [statusCode] nor [status], as the errors of the
    engine, of Mongoose and of the driver are. *)
Definition plain (e : Error) : Prop :=
  statusCode e = None /\ status e = None.

(** What an asynchronous call settles to. *)
Inductive outcome (A : Type) : Type :=
| Ok (a : A)
| Throw (e : Error).
Arguments Ok {A} a.
Arguments Throw {A} e.

Definition bind {A B : Type} (m : outcome A) (k : A -> outcome B) : outcome B :=
  match m with
  | Ok a => k a
  | Throw e => Throw e
  end.

Notation "x <- m ;; k" := (bind m (fun x => k))
  (at level 61, m at next level, right associativity).

(* ================================================================== *)
(** ** The schema of [server.js] *)

(** The collection, in insertion order. *)
Definition collection := list IncomeRecord.

(** [enum] of the [category] path. *)
Definition categories : list string :=
  ["Salary"; "Freelance"; "Investment"; "Bonus"; "Other"].

Definition in_enum (s : string) : bool :=
  existsb (String.eqb s) categories.

(** The result of casting one path of a new document. *)
Inductive casted (A : Type) : Type :=
| Absent
| Cast (a : A)
| CastFailed.
Arguments Absent {A}.
Arguments Cast {A} a.
Arguments CastFailed {A}.

Section Model.

Variable rt : Runtime.

(** A library error: no [statusCode] and no [status] property. *)
Definition library_error (n : string) (f : failure) : Error :=
  {| name := n; statusCode := None; status := None;
     message := failure_message rt f |}.

(** Mongoose's cast to [String]: a string as it is, a number or a boolean
    through [toString], an object with a string [_id] as that string;
    arrays and other objects fail.  Dates and identifiers do not occur in
    a parsed body. *)
Definition castString (v : option value) : casted string :=
  match v with
  | None | Some VNull => Absent
  | Some (VStr s) => Cast s
  | Some (VNum q) => Cast (Number_toString rt q)
  | Some (VBool b) => Cast (if b then "true" else "false")
  | Some (VObj fields) =>
      match assoc "_id" fields with
      | Some (VStr s) => if String.eqb s "" then CastFailed else Cast s
      | _ => CastFailed
      end
  | Some _ => CastFailed
  end.

(** Mongoose's cast to [Number]: the empty string is [null], other strings
    and booleans go through [Number]; arrays and objects fail.  A string
    that reads as an infinity, which Mongoose takes, has no place in a
    document of the model and is left with the failed casts. *)
Definition castNumber (v : option value) : casted Q :=
  match v with
  | None | Some VNull => Absent
  | Some (VNum q) => Cast q
  | Some (VBool b) => Cast (if b then 1%Q else 0%Q)
  | Some (VStr s) =>
      if String.eqb s "" then Absent
      else match StringToNumber s with
           | Num q => Cast q
           | NaN | Infinity _ => CastFailed
           end
  | Some _ => CastFailed
  end.

(** One failed path of a validation: the path and its message. *)
Definition fieldError := (string * string)%type.

(** [description]: required, trimmed, at most 100 characters. *)
Definition validate_description (v : option value)
  : string + fieldError :=
  match castString v with
  | Absent => inr ("description", "Description is required")
  | CastFailed =>
      inr ("description",
           failure_message rt
             (CastFailure "string" (match v with Some x => x | None => VNull end)
                          "description"))
  | Cast s =>
      let s' := trim s in
      if String.eqb s' "" then inr ("description", "Description is required")
      else if (100 <? String.length s')%nat
           then inr ("description", "Description cannot exceed 100 characters")
           else inl s'
  end.

(** [amount]: required, at least 0. *)
Definition validate_amount (v : option value) : Q + fieldError :=
  match castNumber v with
  | Absent => inr ("amount", "Amount is required")
  | CastFailed =>
      inr ("amount",
           failure_message rt
             (CastFailure "Number" (match v with Some x => x | None => VNull end)
                          "amount"))
  | Cast q =>
      if Qle_bool 0 q then inl q else inr ("amount", "Amount must be positive")
  end.

(** [date]: the handler passes a truthy value or [new Date()], never
    [null], so the [required] validator cannot fail.  A [Date] object is
    kept as it is. *)
Definition validate_date (v : value) : Z + fieldError :=
  match v with
  | VDate t => inl t
  | _ =>
      match castDate rt v with
      | Some t => inl t
      | None => inr ("date", failure_message rt (CastFailure "date" v "date"))
      end
  end.

(** [category]: the default for [undefined]; the [enum] validator on a
    string; [null] as the runtime has it. *)
Definition validate_category (v : option value)
  : option string + fieldError :=
  match v with
  | None => inl (Some "Other")
  | Some x =>
      match castString v with
      | Cast s =>
          if in_enum s then inl (Some s)
          else inr ("category", failure_message rt (EnumFailure (Some s) "category"))
      | Absent =>
          if enum_accepts_null rt then inl None
          else inr ("category", failure_message rt (EnumFailure None "category"))
      | CastFailed =>
          inr ("category", failure_message rt (CastFailure "string" x "category"))
      end
  end.

Definition errors_of {A : Type} (r : A + fieldError) : list fieldError :=
  match r with
  | inl _ => []
  | inr e => [e]
  end.

(** The message of a Mongoose [ValidationError]: the failed paths with
    their messages. *)
Definition validation_message (errs : list fieldError) : string :=
  "IncomeRecord validation failed: "
    ++ join ", " (map (fun e => (fst e ++ ": " ++ snd e)%string) errs).

Definition ValidationError (errs : list fieldError) : Error :=
  {| name := "ValidationError"; statusCode := None; status := None;
     message := validation_message errs |}.

(** The failed paths in the order Mongoose reports them. *)
Definition reported (i : CreateInput) (errs : list fieldError)
  : list fieldError :=
  sort_by (fun a b => reported_before rt i (fst a) (fst b)) errs.

(** What the request brings besides its own content: the clock read by
    [new Date()], the identifier Mongoose generates for a new document,
    and the clock read for the [timestamps]. *)
Record Env : Type := {
  now : Z;
  fresh : ObjectId;
  stamp : Z
}.

(** The paths a create sets. *)
Definition paths : list string := ["description"; "amount"; "date"; "category"].

(** The document of a create whose four paths pass: its identifier and its
    timestamps come from Mongoose. *)
Definition document (env : Env) (d : string) (a : Q) (t : Z)
  (c : option string) : IncomeRecord :=
  {| _id := fresh env; description := d; amount := a; date := t;
     category := c; createdAt := stamp env; updatedAt := stamp env |}.

(** The failures of the four paths of a create, in the order of the
    schema. *)
Definition path_failures (i : CreateInput) : list fieldError :=
  errors_of (validate_description (in_description i))
  ++ errors_of (validate_amount (in_amount i))
  ++ errors_of (validate_date (in_date i))
  ++ errors_of (validate_category (in_category i)).

(** Building and validating the document. *)
Definition new_document (env : Env) (i : CreateInput)
  : outcome IncomeRecord :=
  let d := validate_description (in_description i) in
  let a := validate_amount (in_amount i) in
  let t := validate_date (in_date i) in
  let c := validate_category (in_category i) in
  match d, a, t, c with
  | inl d', inl a', inl t', inl c' => Ok (document env d' a' t' c')
  | _, _, _, _ =>
      Throw (ValidationError
               (reported i
                  (errors_of d ++ errors_of a ++ errors_of t ++ errors_of c)))
  end.

(** The inputs a create must refuse, each with the path that fails and
    the message of that path: a description that is missing, empty or too
    long, an amount that is missing, not a number (a string that reads as
    [NaN], an array, an object) or negative, a category that is a string
    outside the enumeration. *)
Definition not_a_number (v : option value) : Prop :=
  castNumber v = CastFailed /\
  forall s, v = Some (VStr s) -> StringToNumber s = NaN.

Definition invalid_path (i : CreateInput) (fe : fieldError) : Prop :=
  (in_description i = None /\
   fe = ("description", "Description is required")) \/
  (exists s, in_description i = Some (VStr s) /\ trim s = "" /\
             fe = ("description", "Description is required")) \/
  (exists s, in_description i = Some (VStr s) /\
             (100 < String.length (trim s))%nat /\
             fe = ("description", "Description cannot exceed 100 characters")) \/
  (in_amount i = None /\ fe = ("amount", "Amount is required")) \/
  (exists v, in_amount i = Some v /\ not_a_number (Some v) /\
             fe = ("amount",
                   failure_message rt (CastFailure "Number" v "amount"))) \/
  (exists q, castNumber (in_amount i) = Cast q /\ (q < 0)%Q /\
             fe = ("amount", "Amount must be positive")) \/
  (exists s, in_category i = Some (VStr s) /\ ~ In s categories /\
             fe = ("category",
                   failure_message rt (EnumFailure (Some s) "category"))).

Definition invalid_input (i : CreateInput) : Prop :=
  exists fe, invalid_path i fe.

(** An amount that is no string reading as an infinity: such a string is
    a number to Mongoose and none to the documents followed here. *)
Definition finite_amount (v : option value) : Prop :=
  forall s n, v = Some (VStr s) -> StringToNumber s <> Infinity n.

Definition has_id (i : ObjectId) (r : IncomeRecord) : bool := N.eqb (_id r) i.

(** The insert: [_id] carries a unique index. *)
Definition insertOne (r : IncomeRecord) (coll : collection)
  : outcome collection :=
  if existsb (has_id (_id r)) coll
  then Throw (library_error "MongoError" (DuplicateKey (_id r)))
  else Ok (coll ++ [r]).

(** [IncomeRecord.create(doc)]. *)
Definition Model_create (env : Env) (i : CreateInput) (coll : collection)
  : outcome (IncomeRecord * collection) :=
  r <- new_document env i ;;
  coll' <- insertOne r coll ;;
  Ok (r, coll').

Fixpoint remove_first (i : ObjectId) (coll : collection) : collection :=
  match coll with
  | [] => []
  | r :: rest => if has_id i r then rest else r :: remove_first i rest
  end.

(** [IncomeRecord.findByIdAndDelete(id)]: the removed document, or [null]
    when no document has that identifier. *)
Definition Model_findByIdAndDelete (raw : string) (coll : collection)
  : outcome (option IncomeRecord * collection) :=
  match castObjectId rt raw with
  | None => Throw (library_error "CastError" (ObjectIdFailure raw))
  | Some i =>
      match find (has_id i) coll with
      | Some r => Ok (Some r, remove_first i coll)
      | None => Ok (None, coll)
      end
  end.

(** The document as [res.json] serialises it ([toJSON] with virtuals). *)
Definition toJSON (r : IncomeRecord) : value :=
  VObj [ ("_id", VId (_id r));
         ("description", VStr (description r));
         ("amount", VNum (amount r));
         ("date", VDate (date r));
         ("category", json_string (category r));
         ("createdAt", VDate (createdAt r));
         ("updatedAt", VDate (updatedAt r));
         ("__v", VNum 0);
         ("id", VStr (ObjectId_toString rt (_id r))) ].

(* ================================================================== *)
(** ** Queries

    [IncomeRecord.find(filter)] builds a query; [sort], [skip] and [limit]
    set its options; awaiting it runs it.  Mongoose casts the filter
    against the schema: a value of a path to the type of the path, an
    array of values to an [$in], the operands of an object of operators one
    by one.  The four comparison operators the handler writes are followed
    here; what another operator selects is the runtime's. *)

Inductive ftype : Type := TString | TNumber | TDate | TObjectId.

Definition schema_path (k : string) : option ftype :=
  if String.eqb k "_id" then Some TObjectId
  else if String.eqb k "description" || String.eqb k "category" then Some TString
  else if String.eqb k "amount" || String.eqb k "__v" then Some TNumber
  else if String.eqb k "date" || String.eqb k "createdAt"
          || String.eqb k "updatedAt" then Some TDate
  else None.

(** A value of a path, in a document or cast from the query string; an
    infinity only as the operand of a condition. *)
Inductive fval : Type :=
| FNull
| FStr (s : string)
| FNum (q : Q)
| FInfinity (negative : bool)
| FDate (t : Z)
| FId (i : ObjectId).

Inductive cmp : Type := CEq | CGte | CGt | CLte | CLt.

(** One condition of a cast filter: [Never] is a condition on a path no
    document has, [Among] the [$in] an array of values is cast to, [Other]
    a condition under an operator the runtime knows. *)
Inductive clause : Type :=
| Never
| Cond (path : string) (op : cmp) (v : fval)
| Among (path : string) (vs : list fval)
| Other (selects : IncomeRecord -> bool).

Definition field_of (r : IncomeRecord) (path : string) : fval :=
  if String.eqb path "_id" then FId (_id r)
  else if String.eqb path "description" then FStr (description r)
  else if String.eqb path "category"
  then match category r with Some c => FStr c | None => FNull end
  else if String.eqb path "amount" then FNum (amount r)
  else if String.eqb path "__v" then FNum 0
  else if String.eqb path "date" then FDate (date r)
  else if String.eqb path "createdAt" then FDate (createdAt r)
  else if String.eqb path "updatedAt" then FDate (updatedAt r)
  else FNull.

(** The order of two values of one type; [None] across types and on
    [null]. *)
Definition fval_compare (a b : fval) : option comparison :=
  match a, b with
  | FStr x, FStr y => Some (String.compare x y)
  | FNum x, FNum y => Some (Qcompare x y)
  | FNum _, FInfinity n => Some (if n then Gt else Lt)
  | FInfinity m, FNum _ => Some (if m then Lt else Gt)
  | FInfinity m, FInfinity n =>
      Some (if Bool.eqb m n then Eq else if m then Lt else Gt)
  | FDate x, FDate y => Some (Z.compare x y)
  | FId x, FId y => Some (N.compare x y)
  | _, _ => None
  end.

Definition cmp_holds (op : cmp) (c : comparison) : bool :=
  match op, c with
  | CEq, Eq => true
  | CGte, (Eq | Gt) => true
  | CGt, Gt => true
  | CLte, (Eq | Lt) => true
  | CLt, Lt => true
  | _, _ => false
  end.

(** A condition between the value of a path and an operand. *)
Definition compare_holds (r : IncomeRecord) (path : string) (op : cmp)
  (v : fval) : bool :=
  match fval_compare (field_of r path) v with
  | Some o => cmp_holds op o
  | None => false
  end.

Definition holds (r : IncomeRecord) (c : clause) : bool :=
  match c with
  | Never => false
  | Cond path op v =>
      match fval_compare (field_of r path) v with
      | Some o => cmp_holds op o
      | None => false
      end
  | Among path vs => existsb (compare_holds r path CEq) vs
  | Other selects => selects r
  end.

(** The documents a cast filter selects: the conjunction of its
    conditions. *)
Definition matches (cs : list clause) (r : IncomeRecord) : bool :=
  forallb (holds r) cs.

Definition operator_of (k : string) : option cmp :=
  if String.eqb k "$gte" then Some CGte
  else if String.eqb k "$gt" then Some CGt
  else if String.eqb k "$lte" then Some CLte
  else if String.eqb k "$lt" then Some CLt
  else None.

Definition type_name (t : ftype) : string :=
  match t with
  | TString => "string"
  | TNumber => "Number"
  | TDate => "date"
  | TObjectId => "ObjectId"
  end.

(** The setters the schema puts on a path of type [String], which Mongoose
    also runs on the operands of a filter: [trim] on [description]. *)
Definition apply_setters (path : string) (s : string) : string :=
  if String.eqb path "description" then trim s else s.

(** Casting one operand of a condition to the type of its path.  A string
    path takes a string or an object with a string [_id]; a number path a
    string that reads as a number, the empty string being [null]; arrays
    and other objects fail. *)
Definition cast_operand (t : ftype) (path : string) (v : qs) : outcome fval :=
  let failed := Throw (library_error "CastError"
                         (QueryCastFailure (type_name t) v path)) in
  match t, v with
  | TString, QStr s => Ok (FStr (apply_setters path s))
  | TString, QObj fields =>
      match assoc "_id" fields with
      | Some (QStr s) =>
          if String.eqb s "" then failed
          else Ok (FStr (apply_setters path s))
      | _ => failed
      end
  | TNumber, QStr s =>
      if String.eqb s "" then Ok FNull
      else match StringToNumber s with
           | Num q => Ok (FNum q)
           | Infinity n => Ok (FInfinity n)
           | NaN => failed
           end
  | TDate, QStr s =>
      if String.eqb s "" then Ok FNull
      else match castDate rt (VStr s) with
           | Some d => Ok (FDate d)
           | None => failed
           end
  | TObjectId, QStr s =>
      match castObjectId rt s with
      | Some i => Ok (FId i)
      | None => failed
      end
  | _, _ => failed
  end.

(** The elements of an array of values, cast in their order. *)
Fixpoint cast_operands (t : ftype) (path : string) (items : list qs)
  : outcome (list fval) :=
  match items with
  | [] => Ok []
  | v :: rest =>
      x <- cast_operand t path v ;;
      xs <- cast_operands t path rest ;;
      Ok (x :: xs)
  end.

(** What Mongoose throws for an operator it does not know on a path: a
    [CastError] with the operand and the path on a path of type [Number],
    a plain error on the other types. *)
Definition unknown_operator (t : ftype) (path k : string) (v : qs) : Error :=
  match t with
  | TNumber => library_error "CastError" (QueryCastFailure (type_name t) v path)
  | _ => library_error "Error" (UnknownOperator k)
  end.

(** One key of an object of operators on a path of the schema. *)
Definition cast_operator (t : ftype) (path k : string) (v : qs)
  : outcome clause :=
  match operator_of k with
  | Some op => x <- cast_operand t path v ;; Ok (Cond path op x)
  | None =>
      match other_condition rt path k v with
      | Some selects => Ok (Other selects)
      | None => Throw (unknown_operator t path k v)
      end
  end.

(** Mongoose goes through the keys of an object from the last to the
    first: of two keys that fail it is the later one that is reported. *)
Fixpoint cast_operators (t : ftype) (path : string) (ops : list (string * qs))
  : outcome (list clause) :=
  match ops with
  | [] => Ok []
  | (k, v) :: rest =>
      cs <- cast_operators t path rest ;;
      c <- cast_operator t path k v ;;
      Ok (c :: cs)
  end.

Definition starts_with_dollar (k : string) : bool :=
  match k with
  | String c _ => Ascii.eqb c "$"
  | EmptyString => false
  end.

(** The keys Mongoose takes for operators: those that start with [$],
    the three keys of a database reference apart. *)
Definition is_operator (k : string) : bool :=
  starts_with_dollar k
  && negb (existsb (String.eqb k) ["$ref"; "$id"; "$db"]).

Definition has_operator (fields : list (string * qs)) : bool :=
  existsb (fun kv => is_operator (fst kv)) fields.

(** An object of operators on a path outside the schema, which Mongoose
    sends to the server as it is: no comparison holds on a path no document
    has. *)
Fixpoint foreign_operators (path : string) (ops : list (string * qs))
  : outcome (list clause) :=
  match ops with
  | [] => Ok []
  | (k, v) :: rest =>
      cs <- foreign_operators path rest ;;
      match operator_of k with
      | Some _ => Ok (Never :: cs)
      | None =>
          match other_condition rt path k v with
          | Some selects => Ok (Other selects :: cs)
          | None => Throw (library_error "MongoError" (UnknownOperator k))
          end
      end
  end.

(** One entry of the filter.  On a path of the schema an object with an
    operator among its keys is an object of operators, an array is cast
    to an [$in], any other value is compared for equality.  A path outside
    the schema is dropped under [strictQuery]; otherwise it is sent to the
    server as it is and, an operator of the runtime apart, selects
    nothing.  A key of the filter that starts with [$] is an operator of
    the runtime. *)
Definition cast_entry (k : string) (v : qs) : outcome (list clause) :=
  if starts_with_dollar k
  then match other_condition rt "" k v with
       | Some selects => Ok [Other selects]
       | None => Throw (library_error "MongoError" (UnknownOperator k))
       end
  else
    match schema_path k with
    | Some t =>
        match v with
        | QObj fields =>
            if has_operator fields then cast_operators t k fields
            else x <- cast_operand t k v ;; Ok [Cond k CEq x]
        | QArr items => xs <- cast_operands t k items ;; Ok [Among k xs]
        | QStr _ => x <- cast_operand t k v ;; Ok [Cond k CEq x]
        end
    | None =>
        if strictQuery rt then Ok []
        else match v with
             | QObj ((k1, v1) :: ops) =>
                 if starts_with_dollar k1
                 then foreign_operators k ((k1, v1) :: ops)
                 else Ok [Never]
             | _ => Ok [Never]
             end
    end.

(** The entries are cast from the last to the first as well. *)
Fixpoint cast_entries (fields : list (string * qs)) : outcome (list clause) :=
  match fields with
  | [] => Ok []
  | (k, v) :: rest =>
      cs' <- cast_entries rest ;;
      cs <- cast_entry k v ;;
      Ok (cs ++ cs')
  end.

(** Casting the filter of a query against the schema. *)
Definition cast_filter (filter : qs) : outcome (list clause) :=
  match filter with
  | QObj fields => cast_entries fields
  | _ => Throw (library_error "ObjectParameterError"
                  (QueryCastFailure "Object" filter "filter"))
  end.

(* ------------------------------------------------------------------ *)
(** *** Sorting *)

(** The sort string of Mongoose: path names separated by spaces, a
    leading [-] for descending.  This is the reading of a string that
    names its fields one by one, see [names_fields] below; it is used on
    such strings only. *)
Definition sort_key (tok : string) : string * bool :=
  match tok with
  | String c rest => if Ascii.eqb c "-" then (rest, true) else (tok, false)
  | EmptyString => (tok, false)
  end.

Definition sort_keys (spec : string) : list (string * bool) :=
  map sort_key (split " " spec).

(** In a sort [null], also of a path no document has, comes before every
    value. *)
Definition field_compare (path : string) (a b : IncomeRecord) : comparison :=
  match field_of a path, field_of b path with
  | FNull, FNull => Eq
  | FNull, _ => Lt
  | _, FNull => Gt
  | x, y => match fval_compare x y with
            | Some c => c
            | None => Eq
            end
  end.

Fixpoint compare_by (keys : list (string * bool)) (a b : IncomeRecord)
  : comparison :=
  match keys with
  | [] => Eq
  | (path, desc) :: rest =>
      match (if desc then field_compare path b a else field_compare path a b) with
      | Eq => compare_by rest a b
      | c => c
      end
  end.

Definition before (keys : list (string * bool)) (a b : IncomeRecord) : bool :=
  match compare_by keys a b with
  | Gt => false
  | _ => true
  end.

(** The server leaves the order of documents with equal keys open; here
    they keep the order of the collection. *)
Definition sort_documents (spec : string) (docs : list IncomeRecord)
  : list IncomeRecord :=
  sort_by (before (sort_keys spec)) docs.

(** A token of a sort string that names a field: after the optional [-] a
    name that is not empty and is made of letters, digits and underscores,
    as the paths of the schema are.  (A name that starts with [$] is an
    operator of the server, a dot leads into a nested document.) *)
Definition names_field (tok : string) : bool :=
  let name := fst (sort_key tok) in
  negb (String.eqb name "")
  && forallb is_word (list_ascii_of_string name).

(** A sort string that names its fields one by one, a single space
    between two of them.  The versions of Mongoose agree on such a string;
    on another one (the [sort=,] of a request, whose two names are empty)
    some refuse the sort and some leave the empty names out. *)
Definition names_fields (spec : string) : bool :=
  forallb names_field (split " " spec).

(** The order a query sorts by. *)
Definition sort_order (spec : option string)
  : outcome (list IncomeRecord -> list IncomeRecord) :=
  match spec with
  | None => Ok (fun docs => docs)
  | Some s =>
      if names_fields s then Ok (sort_documents s)
      else match odd_sort rt s with
           | Some order => Ok order
           | None => Throw (library_error "Error" (SortFailure s))
           end
  end.

(* ------------------------------------------------------------------ *)
(** *** The query object and its execution *)

Record Query : Type := {
  q_filter : qs;
  q_sort : option string;
  q_skip : option number;
  q_limit : option number
}.

Definition Model_find (filter : qs) : Query :=
  {| q_filter := filter; q_sort := None; q_skip := None; q_limit := None |}.

Definition Query_sort (spec : string) (q : Query) : Query :=
  {| q_filter := q_filter q; q_sort := Some spec;
     q_skip := q_skip q; q_limit := q_limit q |}.

Definition Query_skip (n : number) (q : Query) : Query :=
  {| q_filter := q_filter q; q_sort := q_sort q;
     q_skip := Some n; q_limit := q_limit q |}.

Definition Query_limit (n : number) (q : Query) : Query :=
  {| q_filter := q_filter q; q_sort := q_sort q;
     q_skip := q_skip q; q_limit := Some n |}.

(** The server reads [skip] and [limit] as integers, and takes neither
    [NaN] nor an infinity for one. *)
Definition truncate (q : Q) : Z := Z.quot (Qnum q) (Zpos (Qden q)).

Definition finite_option (which : string) (n : option number)
  : outcome unit :=
  match n with
  | Some NaN | Some (Infinity _) =>
      Throw (library_error "MongoError" (InfiniteOption which))
  | _ => Ok tt
  end.

Definition integer_of (n : option number) : Z :=
  match n with
  | Some (Num q) => truncate q
  | _ => 0
  end.

(** A negative [skip] is refused by the server. *)
Definition apply_skip (n : option number) (docs : list IncomeRecord)
  : outcome (list IncomeRecord) :=
  let k := integer_of n in
  if k <? 0
  then Throw (library_error "MongoError"
                (NegativeSkip (match n with Some (Num q) => q | _ => 0%Q end)))
  else Ok (skipn (Z.to_nat k) docs).

(** A [limit] of 0 is no limit; the driver sends a negative [limit] as
    its absolute value. *)
Definition apply_limit (n : option number) (docs : list IncomeRecord)
  : list IncomeRecord :=
  let k := Z.abs (integer_of n) in
  if k =? 0 then docs else firstn (Z.to_nat k) docs.

(** Awaiting the query: Mongoose casts the filter, then the query is
    run. *)
Definition Query_exec (q : Query) (coll : collection)
  : outcome (list IncomeRecord) :=
  cs <- cast_filter (q_filter q) ;;
  order <- sort_order (q_sort q) ;;
  _ <- finite_option "skip" (q_skip q) ;;
  _ <- finite_option "limit" (q_limit q) ;;
  let found := filter (matches cs) coll in
  skipped <- apply_skip (q_skip q) (order found) ;;
  Ok (apply_limit (q_limit q) skipped).

(** [IncomeRecord.countDocuments(filter)]. *)
Definition Model_countDocuments (filter : qs) (coll : collection)
  : outcome nat :=
  cs <- cast_filter filter ;;
  Ok (List.length (List.filter (matches cs) coll)).

(* ================================================================== *)
(** ** The handlers of [server.js] *)

(** A request as the router sees it.  Its path is written without
    percent-escapes and without two slashes in a row: the router decodes the
    parameter of a route, and answers a parameter it cannot decode on its
    own, which is not followed here. *)
Record Request : Type := {
  req_method : string;
  req_originalUrl : string;
  (** the segments of the path, [/api/records/42] as ["api"; "records"; "42"];
      a slash at the end of the path adds no segment, the routes not
      being strict *)
  req_path : list string;
  req_query : ParsedQs;
  req_body : value
}.

(** [res.status(code).json(body)]. *)
Record Response : Type := {
  res_status : nat;
  res_body : value
}.

(** [date || new Date()]. *)
Definition or_now (env : Env) (date : option value) : value :=
  match date with
  | Some d => if truthy d then d else VDate (now env)
  | None => VDate (now env)
  end.

(** The object the handler gives to [IncomeRecord.create]: the four
    properties it takes out of [req.body]. *)
Definition create_input (env : Env) (body : value) : CreateInput :=
  let description := prop "description" body in
  let amount := prop "amount" body in
  let date := prop "date" body in
  let category := prop "category" body in
  {| in_description := description;
     in_amount := amount;
     in_date := or_now env date;
     in_category := category |}.

Definition created_body (record : IncomeRecord) : value :=
  VObj [ ("status", VStr "success");
         ("data", VObj [("record", toJSON record)]) ].

(** [router.post('/records')], inside its [try]. *)
Definition post_records (env : Env) (req : Request) (coll : collection)
  : outcome (Response * collection) :=
  created <- Model_create env (create_input env (req_body req)) coll ;;
  Ok ({| res_status := 201; res_body := created_body (fst created) |},
      snd created).

Definition excludedFields : list string := ["page"; "sort"; "limit"; "fields"].

(** Steps 1 and 2 of the list handler: the text given to [JSON.parse]. *)
Definition queryStr_of (q : ParsedQs) : string :=
  let queryObj := fold_left (fun o el => delete_key el o) excludedFields q in
  replace_ops (JSON_stringify queryObj).

Definition parse_filter (queryStr : string) : outcome qs :=
  match JSON_parse queryStr with
  | Some f => Ok f
  | None => Throw (library_error "SyntaxError" JsonSyntax)
  end.

(** Step 4: [page], [limit] and [skip]. *)
Definition page_of (q : ParsedQs) : number :=
  num_or (num_mul (ToNumber (assoc "page" q)) (Num 1)) (Num 1).

Definition limit_of (q : ParsedQs) : number :=
  num_or (num_mul (ToNumber (assoc "limit" q)) (Num 1)) (Num 10).

Definition skip_of (q : ParsedQs) : number :=
  num_mul (num_sub (page_of q) (Num 1)) (limit_of q).

(** Step 3: the sort string, [-date] unless the request names one. *)
Definition sort_of (q : ParsedQs) : outcome string :=
  if qs_truthy (assoc "sort" q)
  then match assoc "sort" q with
       | Some (QStr s) => Ok (join " " (split "," s))
       | _ => Throw (library_error "TypeError"
                       (NotAFunction "req.query.sort.split"))
       end
  else Ok "-date".

(** The query the handler has built when it awaits it. *)
Definition build_query (q : ParsedQs) : outcome Query :=
  f <- parse_filter (queryStr_of q) ;;
  sortBy <- sort_of q ;;
  Ok (Query_limit (limit_of q)
        (Query_skip (skip_of q) (Query_sort sortBy (Model_find f)))).

Definition VNat (n : nat) : value := VNum (inject_Z (Z.of_nat n)).

Definition list_body (records : list IncomeRecord) (total : nat) : value :=
  VObj [ ("status", VStr "success");
         ("results", VNat (List.length records));
         ("total", VNat total);
         ("data", VObj [("records", VArr (map toJSON records))]) ].

(** [router.get('/records')], inside its [try]. *)
Definition get_records (req : Request) (coll : collection) : outcome Response :=
  query <- build_query (req_query req) ;;
  records <- Query_exec query coll ;;
  f <- parse_filter (queryStr_of (req_query req)) ;;
  total <- Model_countDocuments f coll ;;
  Ok {| res_status := 200; res_body := list_body records total |}.

(** The two answers of the delete handler. *)
Definition record_missing : Response :=
  {| res_status := 404;
     res_body := VObj [ ("status", VStr "fail");
                        ("message", VStr "No record found with that ID") ] |}.

Definition record_deleted : Response :=
  {| res_status := 204;
     res_body := VObj [ ("status", VStr "success"); ("data", VNull) ] |}.

(** [router.delete('/records/:id')], inside its [try]. *)
Definition delete_record (id : string) (coll : collection)
  : outcome (Response * collection) :=
  deleted <- Model_findByIdAndDelete id coll ;;
  match fst deleted with
  | None => Ok (record_missing, snd deleted)
  | Some _ => Ok (record_deleted, snd deleted)
  end.

(** The error handling middleware, reached through [next(err)]. *)
Definition error_middleware (err : Error) : Response :=
  let code := match statusCode err with
              | Some c => if (c =? 0)%nat then 500%nat else c
              | None => 500%nat
              end in
  let st := match status err with
            | Some s => if String.eqb s "" then "error" else s
            | None => "error"
            end in
  {| res_status := code;
     res_body := VObj [ ("status", VStr st); ("message", VStr (message err)) ] |}.

(** The handler of [app.all('*')]. *)
Definition not_found (req : Request) : Response :=
  {| res_status := 404;
     res_body := VObj [ ("status", VStr "fail");
                        ("message",
                         VStr ("Can't find " ++ req_originalUrl req
                                 ++ " on this server!")) ] |}.

(** [catch (err) { next(err) }]: a handler that throws leaves the
    collection as it was and answers through the error middleware. *)
Definition settle (coll : collection) (r : outcome (Response * collection))
  : Response * collection :=
  match r with
  | Ok rc => rc
  | Throw e => (error_middleware e, coll)
  end.

Definition is_method (m : string) (req : Request) : bool :=
  String.eqb (req_method req) m.

(** Express compares a path with a mount point or a route without regard
    to the case of the letters. *)
Definition lower (c : ascii) : ascii :=
  if (65 <=? code c)%nat && (code c <=? 90)%nat
  then ascii_of_nat (code c + 32)
  else c.

Fixpoint lowercase (s : string) : string :=
  match s with
  | EmptyString => EmptyString
  | String c r => String (lower c) (lowercase r)
  end.

Definition same_segment (a b : string) : bool :=
  String.eqb (lowercase a) (lowercase b).

(** The mount point [/api] followed by [/records]. *)
Definition api_records (a b : string) : bool :=
  same_segment a "api" && same_segment b "records".

(** The application: the router mounted on [/api], then the catch-all.
    A [get] route also answers [HEAD]. *)
Definition app (env : Env) (req : Request) (coll : collection)
  : Response * collection :=
  match req_path req with
  | [a; b] =>
      if api_records a b && is_method "POST" req
      then settle coll (post_records env req coll)
      else if api_records a b && (is_method "GET" req || is_method "HEAD" req)
      then settle coll (r <- get_records req coll ;; Ok (r, coll))
      else (not_found req, coll)
  | [a; b; id] =>
      if api_records a b && is_method "DELETE" req
      then settle coll (delete_record id coll)
      else (not_found req, coll)
  | _ => (not_found req, coll)
  end.

End Model.

(* ================================================================== *)
(** ** The earlier server ([README.md])

    The statistics and health routes exist only in the earlier server.
    Its schema has no timestamps and its [enum] reads [Gift] where
    [server.js] reads [Bonus]. *)

Module Legacy.

Record IncomeRecord : Type := {
  _id : ObjectId;
  description : string;
  amount : Q;
  date : Z;
  (** [None] when the document has no category or a [null] one *)
  category : option string
}.

Definition collection := list IncomeRecord.

(** One output document of a [$group] stage with the accumulators
    [{ $sum: "$amount" }] and [{ $sum: 1 }]. *)
Record Group (K : Type) : Type := {
  g_id : K;
  g_total : Q;
  g_count : nat
}.
Arguments g_id {K} g.
Arguments g_total {K} g.
Arguments g_count {K} g.

Fixpoint accumulate {K : Type} (eqb : K -> K -> bool) (k : K) (x : Q)
  (gs : list (Group K)) : list (Group K) :=
  match gs with
  | [] => [ {| g_id := k; g_total := x; g_count := 1 |} ]
  | g :: rest =>
      if eqb k (g_id g)
      then {| g_id := k; g_total := g_total g + x; g_count := S (g_count g) |}
             :: rest
      else g :: accumulate eqb k x rest
  end.

(** The [$group] stage: one group per key, here in the order the keys are
    first met (the server leaves that order open). *)
Definition group_by {K : Type} (eqb : K -> K -> bool) (key : IncomeRecord -> K)
  (docs : collection) : list (Group K) :=
  fold_left (fun gs d => accumulate eqb (key d) (amount d) gs) docs [].

(** [$round] to an integer: halves go to the even neighbour. *)
Definition round_half_even (q : Q) : Z :=
  let f := Qfloor q in
  match Qcompare (q - inject_Z f) (1 # 2) with
  | Lt => f
  | Gt => f + 1
  | Eq => if Z.even f then f else f + 1
  end.

(** [{ $round: [x, 2] }]. *)
Definition round2 (q : Q) : Q :=
  (inject_Z (round_half_even (q * 100)) / 100)%Q.

(** [{ $avg: "$amount" }] of a group. *)
Definition average_of {K : Type} (g : Group K) : Q :=
  (g_total g / inject_Z (Z.of_nat (g_count g)))%Q.

(** The first pipeline: one group for the whole collection, projected. *)
Definition stats_pipeline (coll : collection) : list value :=
  map (fun g => VObj [ ("totalAmount", VNum (g_total g));
                       ("count", VNat (g_count g));
                       ("average", VNum (round2 (average_of g))) ])
      (group_by (fun _ _ : unit => true) (fun _ => tt) coll).

(** [{ $sort: { total: -1 } }]: descending by [total], nothing else. *)
Definition total_desc (a b : Group (option string)) : bool :=
  Qle_bool (g_total b) (g_total a).

Definition category_eqb (a b : option string) : bool :=
  match a, b with
  | Some x, Some y => String.eqb x y
  | None, None => true
  | _, _ => false
  end.

(** The second pipeline, before it is serialised. *)
Definition category_groups (coll : collection) : list (Group (option string)) :=
  sort_by total_desc (group_by category_eqb category coll).

Definition category_json (g : Group (option string)) : value :=
  VObj [ ("_id", json_string (g_id g));
         ("total", VNum (g_total g));
         ("count", VNat (g_count g)) ].

Definition categoryStats (coll : collection) : list value :=
  map category_json (category_groups coll).

(** [{ ...stats[0], categories: categoryStats }]: spreading [undefined]
    adds nothing. *)
Definition stats_body (coll : collection) : value :=
  let spread := match stats_pipeline coll with
                | VObj fields :: _ => fields
                | _ => []
                end in
  VObj (spread ++ [("categories", VArr (categoryStats coll))]).

(** [app.get('/api/records/stats')], inside its [try]. *)
Definition get_stats (coll : collection) : Response :=
  {| res_status := 200; res_body := stats_body coll |}.

(** [app.get('/health')]. *)
Definition get_health (rt : Runtime) (now : Z) : Response :=
  {| res_status := 200;
     res_body := VObj [ ("status", VStr "running");
                        ("message", VStr "Income Records API is operational");
                        ("timestamp", VStr (toISOString rt now)) ] |}.

(** What the statistics are measured against: the sum of the amounts of
    a list of documents, and what a list of groups holds for one key. *)
Definition sum_amounts (docs : collection) : Q :=
  fold_right (fun d acc => (amount d + acc)%Q) 0%Q docs.

Definition in_category (c : option string) (d : IncomeRecord) : bool :=
  category_eqb c (category d).

Definition total_of {K : Type} (eqb : K -> K -> bool) (k : K)
  (gs : list (Group K)) : Q :=
  fold_right (fun g acc => ((if eqb k (g_id g) then g_total g else 0) + acc)%Q)
             0%Q gs.

Definition count_of {K : Type} (eqb : K -> K -> bool) (k : K)
  (gs : list (Group K)) : nat :=
  fold_right (fun g acc => ((if eqb k (g_id g) then g_count g else 0) + acc)%nat)
             0%nat gs.

(** The order the claim asks of the categories: descending by total,
    equal totals by name ascending. *)
Definition name_leb (a b : option string) : bool :=
  match a, b with
  | Some x, Some y => String.leb x y
  | None, _ => true
  | Some _, None => false
  end.

Definition total_then_name (a b : Group (option string)) : bool :=
  match Qcompare (g_total a) (g_total b) with
  | Gt => true
  | Eq => name_leb (g_id a) (g_id b)
  | Lt => false
  end.

Fixpoint sorted_by {A : Type} (le : A -> A -> bool) (l : list A) : bool :=
  match l with
  | [] => true
  | x :: r => forallb (le x) r && sorted_by le r
  end.

(* ------------------------------------------------------------------ *)
(** *** The delete route and the paging of the earlier server

    Of the list route, the numbers the handler computes itself: the offset
    and the limit it gives to the query, and the [totalPages] and
    [currentPage] it answers.  The query it runs is not followed here. *)

(** An answer that may have no body: [res.status(204).send()]. *)
Record Reply : Type := {
  code : nat;
  body : option value
}.

Definition has_id (i : ObjectId) (r : IncomeRecord) : bool := N.eqb (_id r) i.

Fixpoint remove_first (i : ObjectId) (coll : collection) : collection :=
  match coll with
  | [] => []
  | r :: rest => if has_id i r then rest else r :: remove_first i rest
  end.

(** [app.delete('/api/records/:id')]: what [findByIdAndDelete] returns is
    not looked at; a failed cast of the identifier is caught. *)
Definition delete_record (rt : Runtime) (id : string) (coll : collection)
  : Reply * collection :=
  match castObjectId rt id with
  | Some i => ({| code := 204; body := None |}, remove_first i coll)
  | None =>
      ({| code := 500;
          body := Some (VObj [("error", VStr "Failed to delete record")]) |},
       coll)
  end.

(** [parseInt(s)] without a radix: leading white space, an optional sign,
    then hexadecimal digits after [0x] or [0X], decimal digits otherwise,
    as many as there are; [NaN] when there is none. *)
Definition hex_digits_val (ds : list ascii) : Z :=
  fold_left (fun acc c => 16 * acc
                          + match hex_val c with
                            | Some n => Z.of_nat n
                            | None => 0
                            end) ds 0.

Definition is_hex (c : ascii) : bool :=
  match hex_val c with
  | Some _ => true
  | None => false
  end.

Definition parseInt (s : string) : number :=
  let l := drop_while is_space (list_ascii_of_string s) in
  let neg := match l with
             | c :: _ => Ascii.eqb c "-"
             | [] => false
             end in
  let body := match l with
              | c :: r => if Ascii.eqb c "-" || Ascii.eqb c "+" then r else l
              | [] => l
              end in
  let signed := fun z : Z => Num (inject_Z (if neg then - z else z)) in
  match body with
  | z :: x :: r =>
      if Ascii.eqb z "0" && (Ascii.eqb x "x" || Ascii.eqb x "X")
      then match take_while is_hex r with
           | [] => NaN
           | ds => signed (hex_digits_val ds)
           end
      else match take_while is_digit body with
           | [] => NaN
           | ds => signed (digits_val ds)
           end
  | _ =>
      match take_while is_digit body with
      | [] => NaN
      | ds => signed (digits_val ds)
      end
  end.

(** A parameter destructured with a default, [const { page = 1 } =
    req.query], where it is used as a number and where it goes through
    [parseInt]. *)
Definition number_of (default : Q) (v : option qs) : number :=
  match v with
  | None => Num default
  | Some x => StringToNumber (qs_toString x)
  end.

Definition parseInt_of (default : Q) (v : option qs) : number :=
  match v with
  | None => Num default
  | Some x => parseInt (qs_toString x)
  end.

(** [(page - 1) * limit], given to [skip]. *)
Definition skip_of (q : ParsedQs) : number :=
  num_mul (num_sub (number_of 1 (assoc "page" q)) (Num 1))
          (number_of 10 (assoc "limit" q)).

(** [parseInt(limit)], given to [limit]. *)
Definition limit_of (q : ParsedQs) : number :=
  parseInt_of 10 (assoc "limit" q).

(** A number as [res.json] writes it: [NaN] and the infinities are
    written [null]. *)
Definition json_number (n : number) : value :=
  match n with
  | NaN | Infinity _ => VNull
  | Num x => VNum x
  end.

(** [Math.ceil(total / limit)] as [res.json] writes it: a division by 0
    gives an infinity or [NaN], a division by an infinity 0. *)
Definition totalPages_of (total : nat) (q : ParsedQs) : value :=
  match number_of 10 (assoc "limit" q) with
  | NaN => VNull
  | Num l =>
      if Qeq_bool l 0 then VNull
      else VNum (inject_Z (Qceiling (inject_Z (Z.of_nat total) / l)))
  | Infinity _ => VNum 0
  end.

(** [parseInt(page)] as [res.json] writes it. *)
Definition currentPage_of (q : ParsedQs) : value :=
  json_number (parseInt_of 1 (assoc "page" q)).

(** The sums over the entries of [categories]. *)
Definition sum_totals {K : Type} (gs : list (Group K)) : Q :=
  fold_right (fun g acc => (g_total g + acc)%Q) 0%Q gs.

Definition sum_counts {K : Type} (gs : list (Group K)) : nat :=
  fold_right (fun g acc => (g_count g + acc)%nat) 0%nat gs.

End Legacy.

(* ================================================================== *)
(** ** The client script ([README.md])

    The paging of the script of [admin.html] and [index.html]: its two
    variables, the slice of the fetched records that [displayRecords]
    gives rows to, and the three functions that change the variables.
    The rows themselves, the total and the alerts are texts of the page
    and are not modelled. *)

Module Client.

Definition RECORDS_PER_PAGE : Z := 5.

(** [let currentPage = 1; let totalPages = 1;] *)
Record Pager : Type := {
  currentPage : Z;
  totalPages : Z
}.

Definition initial : Pager := {| currentPage := 1; totalPages := 1 |}.

(** [Array.prototype.slice(start, end)] with integer arguments: a negative
    index counts from the end, both are clamped to the array. *)
Definition slice {A : Type} (start stop : Z) (l : list A) : list A :=
  let len := Z.of_nat (List.length l) in
  let from := if start <? 0 then Z.max (len + start) 0 else Z.min start len in
  let upto := if stop <? 0 then Z.max (len + stop) 0 else Z.min stop len in
  firstn (Z.to_nat (upto - from)) (skipn (Z.to_nat from) l).

(** The records [displayRecords] gives a row to. *)
Definition paginatedRecords {A : Type} (st : Pager) (records : list A)
  : list A :=
  let startIndex := (currentPage st - 1) * RECORDS_PER_PAGE in
  slice startIndex (startIndex + RECORDS_PER_PAGE) records.

(** [updatePagination(records)]; [pageInfo] tells whether the page has the
    [pageInfo] element. *)
Definition updatePagination {A : Type} (pageInfo : bool) (records : list A)
  (st : Pager) : Pager :=
  if pageInfo
  then {| currentPage := currentPage st;
          totalPages :=
            Qceiling (inject_Z (Z.of_nat (List.length records))
                      / inject_Z RECORDS_PER_PAGE) |}
  else st.

(** [previousPage()] and [nextPage()]: the pager after the step, or [None]
    when the function does nothing; after a step the records are fetched
    again. *)
Definition previousPage (st : Pager) : option Pager :=
  if 1 <? currentPage st
  then Some {| currentPage := currentPage st - 1; totalPages := totalPages st |}
  else None.

Definition nextPage (st : Pager) : option Pager :=
  if currentPage st <? totalPages st
  then Some {| currentPage := currentPage st + 1; totalPages := totalPages st |}
  else None.

Inductive click : Type := Previous | Next.

(** One click on a paging button and the fetch that follows it, when the
    fetch brings [records]: [fetchRecords] displays them and updates the
    pagination. *)
Definition on_click {A : Type} (pageInfo : bool) (records : list A)
  (c : click) (st : Pager) : Pager :=
  match (match c with Previous => previousPage st | Next => nextPage st end) with
  | Some st' => updatePagination pageInfo records st'
  | None => st
  end.

End Client.

(* ================================================================== *)
(** ** A runtime to compute with

    A plain instance of [Runtime] for the examples: dates are given as
    numbers of milliseconds, identifiers in decimal; the failed paths of a
    create are reported in the order of the schema, no further operator
    is known and a sort that does not name its fields is refused. *)

Definition plain_integer (s : string) : option Z :=
  match s with
  | EmptyString => None
  | _ => if forallb is_digit (list_ascii_of_string s)
         then Some (digits_val (list_ascii_of_string s))
         else None
  end.

Definition plain_runtime : Runtime :=
  {| castDate := fun v => match v with
                          | VDate t => Some t
                          | VNum q => Some (Qfloor q)
                          | VStr s => plain_integer s
                          | _ => None
                          end;
     castObjectId := fun s => option_map Z.to_N (plain_integer s);
     Number_toString := fun _ => "0";
     toISOString := fun _ => "1970-01-01T00:00:00.000Z";
     ObjectId_toString := fun _ => "000000000000000000000000";
     failure_message := fun f =>
       match f with
       | CastFailure _ _ path => ("Cast failed at path " ++ path)%string
       | EnumFailure _ path => ("not a valid enum value for path " ++ path)%string
       | QueryCastFailure _ _ path => ("Cast failed at path " ++ path)%string
       | ObjectIdFailure _ => "Cast to ObjectId failed"
       | UnknownOperator op => ("unknown operator: " ++ op)%string
       | NegativeSkip _ => "Skip value must be non-negative"
       | InfiniteOption which => (which ++ " is no integer")%string
       | SortFailure _ => "Invalid field passed to sort"
       | DuplicateKey _ => "duplicate key"
       | NotAFunction callee => (callee ++ " is not a function")%string
       | JsonSyntax => "Unexpected token in JSON"
       end;
     enum_accepts_null := false;
     strictQuery := false;
     reported_before := fun _ _ _ => true;
     other_condition := fun _ _ _ => None;
     odd_sort := fun _ => None |}.

(* ================================================================== *)
(** ** Sample requests and documents *)

Definition sample_env : Env := {| now := 1000; fresh := 7%N; stamp := 1001 |}.

Definition request (m url : string) (p : list string) (q : ParsedQs)
  (b : value) : Request :=
  {| req_method := m; req_originalUrl := url; req_path := p;
     req_query := q; req_body := b |}.

Definition record_gt : IncomeRecord :=
  {| _id := 1%N; description := "gt"; amount := 5; date := 10;
     category := Some "Other"; createdAt := 10; updatedAt := 10 |}.

Definition record_pay : IncomeRecord :=
  {| _id := 2%N; description := "pay"; amount := 250; date := 20;
     category := Some "Salary"; createdAt := 20; updatedAt := 20 |}.

Definition delete_2 : Request :=
  request "DELETE" "/api/records/2" ["api"; "records"; "2"] [] VNull.

Definition post (body : value) : Request :=
  request "POST" "/api/records" ["api"; "records"] [] body.

Definition post_negative : Request :=
  post (VObj [("description", VStr "Refund"); ("amount", VNum (-1))]).

Definition post_blank_negative : Request :=
  post (VObj [("description", VStr "  "); ("amount", VNum (-1))]).

Definition post_zero : Request :=
  post (VObj [("description", VStr "Nothing yet"); ("amount", VNum 0)]).

Definition post_gift : Request :=
  post (VObj [("description", VStr "Gift card"); ("amount", VNum 50);
              ("category", VStr "Gift")]).

Definition post_freelance : Request :=
  post (VObj [("description", VStr "Freelance gig"); ("amount", VNum 250);
              ("category", VStr "Freelance")]).

Definition post_freelance_extra : Request :=
  post (VObj [("_id", VStr "99"); ("createdAt", VNum 5);
              ("description", VStr "Freelance gig"); ("amount", VNum 250);
              ("updatedAt", VNum 6); ("category", VStr "Freelance");
              ("owner", VStr "nobody")]).

Definition get (url : string) (p : list string) (q : ParsedQs) : Request :=
  request "GET" url p q VNull.

Definition get_health : Request := get "/health" ["health"] [].

Definition get_all : Request := get "/api/records" ["api"; "records"] [].

Definition get_page_minus_1 : Request :=
  get "/api/records?page=-1" ["api"; "records"] [("page", QStr "-1")].

Definition get_page_2_limit_1 : Request :=
  get "/api/records?page=2&limit=1" ["api"; "records"]
      [("page", QStr "2"); ("limit", QStr "1")].

Definition get_sort_twice : Request :=
  get "/api/records?sort=date&sort=amount" ["api"; "records"]
      [("sort", QArr [QStr "date"; QStr "amount"])].

Definition get_sort_comma : Request :=
  get "/api/records?sort=," ["api"; "records"] [("sort", QStr ",")].

Definition get_amount_abc : Request :=
  get "/api/records?amount=abc" ["api"; "records"] [("amount", QStr "abc")].

Definition get_description_gt : Request :=
  get "/api/records?description=gt" ["api"; "records"]
      [("description", QStr "gt")].

Definition get_amount_gte_6 : Request :=
  get "/api/records?amount[gte]=6" ["api"; "records"]
      [("amount", QObj [("gte", QStr "6")])].

Definition salary_100 : Legacy.IncomeRecord :=
  {| Legacy._id := 1%N; Legacy.description := "March pay";
     Legacy.amount := 100; Legacy.date := 10; Legacy.category := Some "Salary" |}.

Definition freelance_100 : Legacy.IncomeRecord :=
  {| Legacy._id := 2%N; Legacy.description := "Logo";
     Legacy.amount := 100; Legacy.date := 20; Legacy.category := Some "Freelance" |}.

Definition freelance_third : Legacy.IncomeRecord :=
  {| Legacy._id := 3%N; Legacy.description := "Royalty";
     Legacy.amount := 1 # 3; Legacy.date := 30; Legacy.category := Some "Freelance" |}.

(* ================================================================== *)
(** ** What the further properties are stated with *)

(** A stored record as the schema of [server.js] lets it be: a description
    that is not empty, carries no white space at its ends and has at most
    100 characters, an amount of at least 0, a category of the enumeration
    ([null] where the runtime lets it pass), and the two timestamps equal,
    no route updating a record. *)
Definition within_schema (rt : Runtime) (r : IncomeRecord) : Prop :=
  description r <> "" /\
  trim (description r) = description r /\
  (String.length (description r) <= 100)%nat /\
  (0 <= amount r)%Q /\
  match category r with
  | Some c => In c categories
  | None => enum_accepts_null rt = true
  end /\
  updatedAt r = createdAt r.

(** A path that Express takes for [/api/records], and one it takes for
    [/api/records/:id] with a given parameter: the case of the letters of
    [api] and [records] does not count. *)
Definition records_route (req : Request) : Prop :=
  exists a b, req_path req = [a; b] /\ api_records a b = true.

Definition record_route (req : Request) (id : string) : Prop :=
  exists a b, req_path req = [a; b; id] /\ api_records a b = true.

(** The three routes of the router mounted on [/api]. *)
Definition routed (req : Request) : Prop :=
  (records_route req /\
   (req_method req = "POST" \/ req_method req = "GET"
    \/ req_method req = "HEAD")) \/
  (exists id, record_route req id /\ req_method req = "DELETE").

Definition post_padded : Request :=
  post (VObj [("description", VStr "  Side job  "); ("amount", VNum 40)]).

Definition post_date_0 : Request :=
  post (VObj [("description", VStr "Old debt"); ("amount", VNum 1);
              ("date", VNum 0)]).

Definition post_date_500 : Request :=
  post (VObj [("description", VStr "Old debt"); ("amount", VNum 1);
              ("date", VNum 500)]).

Definition delete_stats : Request :=
  request "DELETE" "/api/records/stats" ["api"; "records"; "stats"] [] VNull.

Definition delete_7 : Request :=
  request "DELETE" "/api/records/7" ["api"; "records"; "7"] [] VNull.

Definition delete_2_upper : Request :=
  request "DELETE" "/API/records/2" ["API"; "records"; "2"] [] VNull.

Definition get_all_upper : Request :=
  get "/API/Records" ["API"; "Records"] [].
(** The part of the query string the list handler filters by: what is left
    of [req.query] without the excluded fields. *)
Definition filter_part (q : ParsedQs) : ParsedQs :=
  fold_left (fun o el => delete_key el o) excludedFields q.
Definition get_fields_amount : Request :=
  get "/api/records?fields=amount" ["api"; "records"]
      [("fields", QStr "amount")].

Definition get_sort_nested : Request :=
  get "/api/records?sort[date]=1" ["api"; "records"]
      [("sort", QObj [("date", QStr "1")])].

(** A function applied to every key and every string of a query value. *)
Fixpoint qs_map (f : string -> string) (v : qs) : qs :=
  match v with
  | QStr s => QStr (f s)
  | QArr items => QArr (map (qs_map f) items)
  | QObj fields =>
      QObj (map (fun kv => (f (fst kv), qs_map f (snd kv))) fields)
  end.

(** A test passed by every key and every string of a query value. *)
Fixpoint qs_forall (p : string -> bool) (v : qs) : bool :=
  match v with
  | QStr s => p s
  | QArr items => forallb (qs_forall p) items
  | QObj fields =>
      forallb (fun kv => p (fst kv) && qs_forall p (snd kv)) fields
  end.

(** A string that [JSON.stringify] writes without an escape: no control
    character, no double quote, no backslash. *)
Definition plain_text (s : string) : bool :=
  forallb verbatim (list_ascii_of_string s).

(** A string in which the rewrite finds no operator. *)
Definition operator_free (s : string) : bool :=
  String.eqb (replace_ops s) s.

(** A value that the parser reads from its rendering as a given value. *)
Definition reads_as (v v' : qs) : Prop :=
  forall fuel rest,
    (qs_size v <= fuel)%nat ->
    parse_value fuel (rewritten v ++ rest) = Some (v', rest).

Definition get_range_and_note : Request :=
  get "/api/records?amount[gte]=5&amount[lt]=300&description=lt&page=1"
      ["api"; "records"]
      [("amount", QObj [("gte", QStr "5"); ("lt", QStr "300")]);
       ("description", QStr "lt"); ("page", QStr "1")].

Definition get_description_padded : Request :=
  get "/api/records?description=%20pay%20" ["api"; "records"]
      [("description", QStr " pay ")].

Definition get_salary_sorted : Request :=
  get "/api/records?category=Salary&sort=amount" ["api"; "records"]
      [("category", QStr "Salary"); ("sort", QStr "amount")].

(** A whole number that a JavaScript number holds exactly. *)
Definition safe_integer (z : Z) : Prop := - 2 ^ 53 <= z <= 2 ^ 53.

(** The characters of a decimal numeral. *)
Definition numeral_char (c : ascii) : bool :=
  is_digit c || Ascii.eqb c "." || Ascii.eqb c "-" || Ascii.eqb c "+".

(** The comparison words of a query string and the conditions they
    become. *)
Definition comparison_words : list (string * cmp) :=
  [("gte", CGte); ("gt", CGt); ("lte", CLte); ("lt", CLt)].

(** What a condition asks of a number [a] against its operand [n]. *)
Definition compares (c : cmp) (a n : Q) : Prop :=
  match c with
  | CEq => (a == n)%Q
  | CGte => (n <= a)%Q
  | CGt => (n < a)%Q
  | CLte => (a <= n)%Q
  | CLt => (a < n)%Q
  end.

Definition get_amount_lte_100 : Request :=
  get "/api/records?amount[lte]=100&limit=5" ["api"; "records"]
      [("amount", QObj [("lte", QStr "100")]); ("limit", QStr "5")].

(** What a key or a string value of the query has become in the filter:
    the string the parser reads from its rewritten literal. *)
Definition reread (s : string) : string :=
  match parse_string []
          (replace_operators false
             (flat_map escape_char (list_ascii_of_string s)) ++ [dquote]) with
  | Some (s', _) => s'
  | None => s
  end.

(** What [split(',').join(' ')] does to one character. *)
Definition comma_to_space (c : ascii) : ascii :=
  if Ascii.eqb c "," then " "%char else c.

Definition get_sort_two_keys : Request :=
  get "/api/records?sort=-amount,date" ["api"; "records"]
      [("sort", QStr "-amount,date")].

Definition get_amount_dollar_gte : Request :=
  get "/api/records?amount[$gte]=6" ["api"; "records"]
      [("amount", QObj [("$gte", QStr "6")])].

(* ================================================================== *)
(** ** Properties *)

Section Properties.

Variable rt : Runtime.

(** *** The collection under delete *)

Lemma has_id_true (i : ObjectId) (r : IncomeRecord) :
  has_id i r = true <-> _id r = i.
Proof. unfold has_id. apply N.eqb_eq. Qed.

Lemma has_id_false (i : ObjectId) (r : IncomeRecord) :
  has_id i r = false <-> _id r <> i.
Proof. unfold has_id. apply N.eqb_neq. Qed.

Lemma find_has_id_none (i : ObjectId) (coll : collection) :
  (forall r, In r coll -> _id r <> i) -> find (has_id i) coll = None.
Proof.
  induction coll as [| a rest IH]; intros Hno; simpl; [reflexivity |].
  destruct (has_id i a) eqn:Ha.
  - exfalso. apply (Hno a); [left; reflexivity | apply has_id_true; exact Ha].
  - apply IH. intros r Hr. apply Hno. right. exact Hr.
Qed.

Lemma find_has_id_some (i : ObjectId) (coll : collection) :
  (exists r, In r coll /\ _id r = i) ->
  exists r, find (has_id i) coll = Some r.
Proof.
  intros [r [Hin Hid]].
  destruct (find (has_id i) coll) as [r' |] eqn:Hf; [exists r'; reflexivity |].
  exfalso.
  apply (find_none _ _ Hf) in Hin.
  apply has_id_false in Hin. contradiction.
Qed.

Lemma keep_others_absent (i : ObjectId) (coll : collection) :
  ~ In i (map _id coll) ->
  filter (fun r => negb (has_id i r)) coll = coll.
Proof.
  induction coll as [| a rest IH]; intros Hno; simpl; [reflexivity |].
  destruct (has_id i a) eqn:Ha; simpl.
  - exfalso. apply Hno. left. apply has_id_true. exact Ha.
  - f_equal. apply IH. intros Hin. apply Hno. right. exact Hin.
Qed.

Lemma remove_first_unique (i : ObjectId) (coll : collection) :
  NoDup (map _id coll) ->
  remove_first i coll = filter (fun r => negb (has_id i r)) coll.
Proof.
  induction coll as [| a rest IH]; intros Hnd; simpl; [reflexivity |].
  inversion Hnd as [| x l Hnotin Hrest]; subst.
  destruct (has_id i a) eqn:Ha; simpl.
  - symmetry. apply keep_others_absent.
    apply has_id_true in Ha. rewrite <- Ha. exact Hnotin.
  - f_equal. apply IH. exact Hrest.
Qed.

Lemma others_lack_id (i : ObjectId) (coll : collection) (r : IncomeRecord) :
  In r (filter (fun r => negb (has_id i r)) coll) -> _id r <> i.
Proof.
  intros Hin. apply filter_In in Hin. destruct Hin as [_ Hneg].
  apply has_id_false. apply negb_true_iff. exact Hneg.
Qed.

Lemma delete_missing (raw : string) (i : ObjectId) (coll : collection) :
  castObjectId rt raw = Some i ->
  (forall r, In r coll -> _id r <> i) ->
  delete_record rt raw coll = Ok (record_missing, coll).
Proof.
  intros Hcast Hno.
  unfold delete_record, Model_findByIdAndDelete.
  rewrite Hcast, (find_has_id_none i coll Hno). reflexivity.
Qed.

Lemma delete_present (raw : string) (i : ObjectId) (coll : collection) :
  castObjectId rt raw = Some i ->
  NoDup (map _id coll) ->
  (exists r, In r coll /\ _id r = i) ->
  delete_record rt raw coll
  = Ok (record_deleted, filter (fun r => negb (has_id i r)) coll).
Proof.
  intros Hcast Hnd Hex.
  unfold delete_record, Model_findByIdAndDelete.
  rewrite Hcast.
  destruct (find_has_id_some i coll Hex) as [r Hf]. rewrite Hf. simpl.
  rewrite (remove_first_unique i coll Hnd). reflexivity.
Qed.

Lemma app_delete (env : Env) (req : Request) (raw : string) (coll : collection) :
  req_method req = "DELETE" ->
  req_path req = ["api"; "records"; raw] ->
  app rt env req coll = settle coll (delete_record rt raw coll).
Proof.
  intros Hm Hp. unfold app, is_method. rewrite Hp, Hm. reflexivity.
Qed.

(** C1. Deleting by identifier: when a record with the identifier exists
    the answer is 204 and exactly that record is removed; when none exists
    the answer is 404, built by the handler itself (nothing is thrown), and
    the collection is unchanged.  A second delete of the same identifier
    right after a successful one is therefore answered 404. *)
Theorem delete_by_id_outcomes :
  forall (env : Env) (req : Request) (raw : string) (i : ObjectId)
         (coll : collection),
    req_method req = "DELETE" ->
    req_path req = ["api"; "records"; raw] ->
    castObjectId rt raw = Some i ->
    NoDup (map _id coll) ->
    let others := filter (fun r => negb (has_id i r)) coll in
    res_status record_deleted = 204%nat /\
    res_status record_missing = 404%nat /\
    ((exists r, In r coll /\ _id r = i) ->
       delete_record rt raw coll = Ok (record_deleted, others) /\
       app rt env req coll = (record_deleted, others) /\
       (forall r, In r others -> _id r <> i) /\
       delete_record rt raw others = Ok (record_missing, others) /\
       app rt env req others = (record_missing, others)) /\
    ((forall r, In r coll -> _id r <> i) ->
       delete_record rt raw coll = Ok (record_missing, coll) /\
       app rt env req coll = (record_missing, coll)).
Proof.
  intros env req raw i coll Hm Hp Hcast Hnd others.
  split; [reflexivity | split; [reflexivity | split]].
  - intros Hex.
    assert (Hgone : forall r, In r others -> _id r <> i)
      by (intros r; apply others_lack_id).
    pose proof (delete_present raw i coll Hcast Hnd Hex) as H1.
    pose proof (delete_missing raw i others Hcast Hgone) as H2.
    repeat split; try assumption.
    + rewrite (app_delete env req raw coll Hm Hp), H1. reflexivity.
    + rewrite (app_delete env req raw others Hm Hp), H2. reflexivity.
  - intros Hno.
    pose proof (delete_missing raw i coll Hcast Hno) as H1.
    split; [exact H1 |].
    rewrite (app_delete env req raw coll Hm Hp), H1. reflexivity.
Qed.

(** *** Sorting by insertion *)

Section Sorting.

Context {A : Type} (le : A -> A -> bool).

Let R (a b : A) : Prop := le a b = true.

Lemma insert_by_perm (x : A) (l : list A) :
  Permutation (insert_by le x l) (x :: l).
Proof.
  induction l as [| y r IH]; simpl; [apply Permutation_refl |].
  destruct (le x y); [apply Permutation_refl |].
  apply (perm_trans (perm_skip y IH)). apply perm_swap.
Qed.

Lemma sort_by_perm (l : list A) : Permutation (sort_by le l) l.
Proof.
  induction l as [| x r IH]; simpl; [apply perm_nil |].
  apply (perm_trans (insert_by_perm x (sort_by le r))).
  apply perm_skip. exact IH.
Qed.

Hypothesis le_total : forall a b, le a b = true \/ le b a = true.
Hypothesis le_trans : forall a b c, le a b = true -> le b c = true -> le a c = true.

Lemma insert_by_sorted (x : A) (l : list A) :
  StronglySorted R l -> StronglySorted R (insert_by le x l).
Proof.
  induction l as [| y r IH]; intros Hs; simpl.
  - constructor; [constructor | constructor].
  - inversion Hs as [| y' r' Hr Hall]; subst.
    destruct (le x y) eqn:Hxy.
    + constructor; [exact Hs |].
      constructor; [exact Hxy |].
      apply Forall_forall. intros z Hz.
      apply (le_trans x y z Hxy).
      apply (proj1 (Forall_forall _ _) Hall z Hz).
    + constructor; [apply IH; exact Hr |].
      apply Forall_forall. intros z Hz.
      apply (Permutation_in _ (insert_by_perm x r)) in Hz.
      destruct Hz as [<- | Hz].
      * destruct (le_total x y) as [H | H]; [congruence | exact H].
      * apply (proj1 (Forall_forall _ _) Hall z Hz).
Qed.

Lemma sort_by_sorted (l : list A) : StronglySorted R (sort_by le l).
Proof.
  induction l as [| x r IH]; simpl; [constructor |].
  apply insert_by_sorted. exact IH.
Qed.

End Sorting.

(** *** Creating a record *)

Lemma app_post (env : Env) (req : Request) (coll : collection) :
  req_method req = "POST" ->
  req_path req = ["api"; "records"] ->
  app rt env req coll = settle coll (post_records rt env req coll).
Proof.
  intros Hm Hp. unfold app, is_method. rewrite Hp, Hm. reflexivity.
Qed.

Lemma in_enum_spec (s : string) : in_enum s = true <-> In s categories.
Proof.
  unfold in_enum. rewrite existsb_exists. split.
  - intros [x [Hin Heq]]. apply String.eqb_eq in Heq. subst x. exact Hin.
  - intros Hin. exists s. split; [exact Hin | apply String.eqb_refl].
Qed.

Lemma validate_description_path (v : option value) (e : fieldError) :
  validate_description rt v = inr e -> fst e = "description".
Proof.
  unfold validate_description.
  destruct (castString rt v) as [| s |].
  - intros H. inversion H. reflexivity.
  - destruct (String.eqb (trim s) "").
    + intros H. inversion H. reflexivity.
    + destruct (100 <? String.length (trim s))%nat; intros H; inversion H.
      reflexivity.
  - intros H. inversion H. reflexivity.
Qed.

Lemma validate_amount_path (v : option value) (e : fieldError) :
  validate_amount rt v = inr e -> fst e = "amount".
Proof.
  unfold validate_amount.
  destruct (castNumber v) as [| q |].
  - intros H. inversion H. reflexivity.
  - destruct (Qle_bool 0 q); intros H; inversion H. reflexivity.
  - intros H. inversion H. reflexivity.
Qed.

Lemma validate_date_path (v : value) (e : fieldError) :
  validate_date rt v = inr e -> fst e = "date".
Proof.
  unfold validate_date.
  destruct v; try (destruct (castDate rt _); intros H; inversion H; reflexivity).
  intros H. inversion H.
Qed.

Lemma validate_category_path (v : option value) (e : fieldError) :
  validate_category rt v = inr e -> fst e = "category".
Proof.
  unfold validate_category.
  destruct v as [x |]; [| intros H; inversion H].
  destruct (castString rt (Some x)) as [| s |].
  - destruct (enum_accepts_null rt); intros H; inversion H. reflexivity.
  - destruct (in_enum s); intros H; inversion H. reflexivity.
  - intros H. inversion H. reflexivity.
Qed.

Lemma castString_absent (v : value) :
  castString rt (Some v) = Absent -> v = VNull.
Proof.
  destruct v as [| b | q | s | t | i | items | fields]; simpl;
    try discriminate; try reflexivity.
  destruct (assoc "_id" fields) as [[| | | s | | | |] |]; try discriminate.
  destruct (String.eqb s ""); discriminate.
Qed.

(** A category that passes is a member of the enumeration, or the [null]
    of the request where the runtime lets [null] pass. *)
Lemma validate_category_enum (v : option value) (c : option string) :
  validate_category rt v = inl c ->
  (exists s, c = Some s /\ In s categories) \/
  (c = None /\ v = Some VNull /\ enum_accepts_null rt = true).
Proof.
  unfold validate_category.
  destruct v as [x |].
  - destruct (castString rt (Some x)) as [| s |] eqn:Hc; try discriminate.
    + destruct (enum_accepts_null rt); [| discriminate].
      intros H. inversion H. right.
      rewrite (castString_absent x Hc). repeat split.
    + destruct (in_enum s) eqn:He; [| discriminate].
      intros H. inversion H. left. exists s.
      split; [reflexivity | apply in_enum_spec; exact He].
  - intros H. inversion H. left. exists "Other".
    split; [reflexivity | simpl; tauto].
Qed.

(** A negative amount fails the [min] validator. *)
Lemma validate_amount_negative (v : option value) (q : Q) :
  castNumber v = Cast q -> (q < 0)%Q ->
  validate_amount rt v = inr ("amount", "Amount must be positive").
Proof.
  intros Hc Hq. unfold validate_amount. rewrite Hc.
  destruct (Qle_bool 0 q) eqn:Hle; [| reflexivity].
  apply Qle_bool_iff in Hle. exfalso. apply (Qlt_not_le _ _ Hq Hle).
Qed.

Lemma validate_amount_zero (v : option value) (q : Q) :
  castNumber v = Cast q -> (q == 0)%Q -> validate_amount rt v = inl q.
Proof.
  intros Hc Hq. unfold validate_amount. rewrite Hc.
  assert (Hle : Qle_bool 0 q = true).
  { apply Qle_bool_iff. rewrite Hq. apply Qle_refl. }
  rewrite Hle. reflexivity.
Qed.

Lemma new_document_ok (env : Env) (i : CreateInput) (r : IncomeRecord) :
  new_document rt env i = Ok r ->
  exists (d : string) (a : Q) (t : Z) (c : option string),
    validate_description rt (in_description i) = inl d /\
    validate_amount rt (in_amount i) = inl a /\
    validate_date rt (in_date i) = inl t /\
    validate_category rt (in_category i) = inl c /\
    r = document env d a t c.
Proof.
  unfold new_document.
  destruct (validate_description rt (in_description i)) as [d | ed];
    destruct (validate_amount rt (in_amount i)) as [a | ea];
    destruct (validate_date rt (in_date i)) as [t | et];
    destruct (validate_category rt (in_category i)) as [c | ec];
    intros H; try discriminate H.
  inversion H. exists d, a, t, c. repeat split; reflexivity.
Qed.

Lemma new_document_valid (env : Env) (i : CreateInput)
  (d : string) (a : Q) (t : Z) (c : option string) :
  validate_description rt (in_description i) = inl d ->
  validate_amount rt (in_amount i) = inl a ->
  validate_date rt (in_date i) = inl t ->
  validate_category rt (in_category i) = inl c ->
  new_document rt env i = Ok (document env d a t c).
Proof.
  intros Hd Ha Ht Hc. unfold new_document. rewrite Hd, Ha, Ht, Hc. reflexivity.
Qed.

Lemma reported_perm (i : CreateInput) (errs : list fieldError) :
  Permutation (reported rt i errs) errs.
Proof. unfold reported. apply sort_by_perm. Qed.

Lemma reported_in (i : CreateInput) (errs : list fieldError) (fe : fieldError) :
  In fe (reported rt i errs) <-> In fe errs.
Proof.
  split; apply Permutation_in;
    [apply reported_perm | apply Permutation_sym, reported_perm].
Qed.

Lemma reported_nil (i : CreateInput) (errs : list fieldError) :
  reported rt i errs = [] -> errs = [].
Proof.
  intros H. apply Permutation_nil.
  rewrite <- H. apply reported_perm.
Qed.

Lemma path_failures_paths (i : CreateInput) (fe : fieldError) :
  In fe (path_failures rt i) -> In (fst fe) paths.
Proof.
  unfold path_failures. intros Hin.
  set (d := validate_description rt (in_description i)) in *.
  set (a := validate_amount rt (in_amount i)) in *.
  set (t := validate_date rt (in_date i)) in *.
  set (c := validate_category rt (in_category i)) in *.
  repeat (apply in_app_or in Hin; destruct Hin as [Hin | Hin]).
  + destruct d as [| ed] eqn:Hd; simpl in Hin; [contradiction |].
    destruct Hin as [<- | []].
    rewrite (validate_description_path _ _ Hd). simpl. tauto.
  + destruct a as [| ea] eqn:Ha; simpl in Hin; [contradiction |].
    destruct Hin as [<- | []].
    rewrite (validate_amount_path _ _ Ha). simpl. tauto.
  + destruct t as [| et] eqn:Ht; simpl in Hin; [contradiction |].
    destruct Hin as [<- | []].
    rewrite (validate_date_path _ _ Ht). simpl. tauto.
  + destruct c as [| ec] eqn:Hc; simpl in Hin; [contradiction |].
    destruct Hin as [<- | []].
    rewrite (validate_category_path _ _ Hc). simpl. tauto.
Qed.

Lemma new_document_throws (env : Env) (i : CreateInput) (e : Error) :
  new_document rt env i = Throw e ->
  exists errs,
    e = ValidationError errs /\
    errs = reported rt i (path_failures rt i) /\
    errs <> [] /\
    (forall fe, In fe errs -> In (fst fe) paths).
Proof.
  unfold new_document. intros H.
  exists (reported rt i (path_failures rt i)).
  unfold path_failures.
  set (d := validate_description rt (in_description i)) in *.
  set (a := validate_amount rt (in_amount i)) in *.
  set (t := validate_date rt (in_date i)) in *.
  set (c := validate_category rt (in_category i)) in *.
  assert (He : e = ValidationError
                     (reported rt i
                        (errors_of d ++ errors_of a ++ errors_of t ++ errors_of c))).
  { destruct d, a, t, c; inversion H; reflexivity. }
  split; [exact He | split; [reflexivity | split]].
  - intros Hnil. apply reported_nil in Hnil. revert Hnil.
    destruct d, a, t, c; simpl; try discriminate.
  - intros fe Hin. apply reported_in in Hin.
    apply (path_failures_paths i fe). exact Hin.
Qed.

(** A path that fails makes the whole validation fail, with its error
    among those reported. *)
Lemma new_document_rejects (env : Env) (i : CreateInput) (fe : fieldError) :
  In fe (errors_of (validate_description rt (in_description i))
         ++ errors_of (validate_amount rt (in_amount i))
         ++ errors_of (validate_date rt (in_date i))
         ++ errors_of (validate_category rt (in_category i))) ->
  exists errs, new_document rt env i = Throw (ValidationError errs)
               /\ In fe errs.
Proof.
  intros Hin.
  destruct (new_document rt env i) as [r | e] eqn:Hn.
  - exfalso.
    destruct (new_document_ok env i r Hn) as [d [a [t [c [Hd [Ha [Ht [Hc _]]]]]]]].
    rewrite Hd, Ha, Ht, Hc in Hin. simpl in Hin. exact Hin.
  - destruct (new_document_throws env i e Hn) as [errs [He [Herrs _]]].
    exists errs. split; [rewrite He; reflexivity |].
    rewrite Herrs. apply reported_in. exact Hin.
Qed.

Lemma post_records_rejected (env : Env) (req : Request) (coll : collection)
  (errs : list fieldError) :
  new_document rt env (create_input env (req_body req))
  = Throw (ValidationError errs) ->
  post_records rt env req coll = Throw (ValidationError errs).
Proof.
  intros H. unfold post_records, Model_create. rewrite H. reflexivity.
Qed.

Lemma post_records_accepted (env : Env) (req : Request) (coll : collection)
  (r : IncomeRecord) :
  new_document rt env (create_input env (req_body req)) = Ok r ->
  existsb (has_id (_id r)) coll = false ->
  post_records rt env req coll
  = Ok ({| res_status := 201; res_body := created_body rt r |}, coll ++ [r]).
Proof.
  intros H Hfresh. unfold post_records, Model_create, insertOne.
  rewrite H. simpl. rewrite Hfresh. reflexivity.
Qed.

(** What a successful create has done. *)
Lemma post_records_ok (env : Env) (req : Request) (coll : collection)
  (res : Response) (coll' : collection) :
  post_records rt env req coll = Ok (res, coll') ->
  exists r,
    new_document rt env (create_input env (req_body req)) = Ok r /\
    res = {| res_status := 201; res_body := created_body rt r |} /\
    coll' = coll ++ [r].
Proof.
  unfold post_records, Model_create, insertOne.
  destruct (new_document rt env (create_input env (req_body req))) as [r | e];
    simpl; [| discriminate].
  destruct (existsb (has_id (_id r)) coll); simpl; [discriminate |].
  intros H. inversion H. exists r. repeat split; reflexivity.
Qed.

Lemma app_post_rejected (env : Env) (req : Request) (coll : collection)
  (errs : list fieldError) :
  req_method req = "POST" ->
  req_path req = ["api"; "records"] ->
  new_document rt env (create_input env (req_body req))
  = Throw (ValidationError errs) ->
  app rt env req coll = (error_middleware (ValidationError errs), coll).
Proof.
  intros Hm Hp H.
  rewrite (app_post env req coll Hm Hp),
    (post_records_rejected env req coll errs H).
  reflexivity.
Qed.

Lemma app_post_accepted (env : Env) (req : Request) (coll : collection)
  (d : string) (a : Q) (t : Z) (c : option string) :
  req_method req = "POST" ->
  req_path req = ["api"; "records"] ->
  validate_description rt (prop "description" (req_body req)) = inl d ->
  validate_amount rt (prop "amount" (req_body req)) = inl a ->
  validate_date rt (or_now env (prop "date" (req_body req))) = inl t ->
  validate_category rt (prop "category" (req_body req)) = inl c ->
  existsb (has_id (fresh env)) coll = false ->
  app rt env req coll
  = ({| res_status := 201;
        res_body := created_body rt (document env d a t c) |},
     coll ++ [document env d a t c]).
Proof.
  intros Hm Hp Hd Ha Ht Hc Hfresh.
  rewrite (app_post env req coll Hm Hp).
  rewrite (post_records_accepted env req coll (document env d a t c)).
  - reflexivity.
  - apply new_document_valid; assumption.
  - exact Hfresh.
Qed.

(** C2. A create whose amount is negative is rejected by the validation,
    with the error of the [amount] path, and the collection is left as it
    was; a create whose amount is 0 and whose other paths are valid is
    answered 201 and its document is appended to the collection. *)
Theorem create_amount_bound :
  forall (env : Env) (req : Request) (coll : collection) (q : Q),
    req_method req = "POST" ->
    req_path req = ["api"; "records"] ->
    castNumber (prop "amount" (req_body req)) = Cast q ->
    ((q < 0)%Q ->
       exists errs,
         post_records rt env req coll = Throw (ValidationError errs) /\
         In ("amount", "Amount must be positive") errs /\
         snd (app rt env req coll) = coll)
    /\
    ((q == 0)%Q ->
       forall (d : string) (t : Z) (c : option string),
         validate_description rt (prop "description" (req_body req)) = inl d ->
         validate_date rt (or_now env (prop "date" (req_body req))) = inl t ->
         validate_category rt (prop "category" (req_body req)) = inl c ->
         existsb (has_id (fresh env)) coll = false ->
         app rt env req coll
         = ({| res_status := 201;
               res_body := created_body rt (document env d q t c) |},
            coll ++ [document env d q t c])).
Proof.
  intros env req coll q Hm Hp Hcast. split.
  - intros Hneg.
    pose proof (validate_amount_negative _ q Hcast Hneg) as Ha.
    destruct (new_document_rejects env (create_input env (req_body req))
                ("amount", "Amount must be positive")) as [errs [Hn Hin]].
    { simpl. rewrite Ha. apply in_or_app. right. left. reflexivity. }
    exists errs. split; [| split].
    + apply post_records_rejected. exact Hn.
    + exact Hin.
    + rewrite (app_post_rejected env req coll errs Hm Hp Hn). reflexivity.
  - intros Hzero d t c Hd Ht Hc Hfresh.
    apply app_post_accepted; try assumption.
    apply validate_amount_zero; assumption.
Qed.

Lemma prop_skip (k k' : string) (v : value) (fields : list (string * value)) :
  k' <> k -> prop k' (VObj ((k, v) :: fields)) = prop k' (VObj fields).
Proof.
  intros Hne. simpl. destruct (String.eqb_spec k' k) as [Heq | _];
    [contradiction | reflexivity].
Qed.

Lemma create_input_props (env : Env) (b1 b2 : value) :
  (forall k, In k paths -> prop k b1 = prop k b2) ->
  create_input env b1 = create_input env b2.
Proof.
  intros H. unfold create_input.
  rewrite (H "description"), (H "amount"), (H "date"), (H "category");
    [reflexivity | | | |]; simpl; tauto.
Qed.

(** C10. The answer to a create and the collection after it depend on the
    body only through its [description], [amount], [date] and [category]
    properties: two bodies that agree on these four, handled at the same
    time against the same collection, give the same answer and the same
    stored record.  In particular a property of another name, [_id],
    [createdAt] or [updatedAt] included, changes nothing. *)
Theorem create_reads_four_paths :
  (forall (env : Env) (req1 req2 : Request) (coll : collection),
      req_method req1 = "POST" -> req_path req1 = ["api"; "records"] ->
      req_method req2 = "POST" -> req_path req2 = ["api"; "records"] ->
      (forall k, In k paths -> prop k (req_body req1) = prop k (req_body req2)) ->
      app rt env req1 coll = app rt env req2 coll)
  /\
  (forall (env : Env) (fields : list (string * value)) (k : string) (v : value),
      ~ In k paths ->
      create_input env (VObj ((k, v) :: fields)) = create_input env (VObj fields)).
Proof.
  split.
  - intros env req1 req2 coll Hm1 Hp1 Hm2 Hp2 Hsame.
    rewrite (app_post env req1 coll Hm1 Hp1), (app_post env req2 coll Hm2 Hp2).
    unfold post_records.
    rewrite (create_input_props env _ _ Hsame). reflexivity.
  - intros env fields k v Hk.
    apply create_input_props. intros k' Hk'.
    apply prop_skip. intros Heq. subst k'. contradiction.
Qed.

Lemma validate_category_rejects (v : value) :
  (forall s, castString rt (Some v) = Cast s -> ~ In s categories) ->
  (v = VNull -> enum_accepts_null rt = false) ->
  exists msg, validate_category rt (Some v) = inr ("category", msg).
Proof.
  intros Hout Hnull. unfold validate_category.
  destruct (castString rt (Some v)) as [| s |] eqn:Hc.
  - rewrite (Hnull (castString_absent v Hc)). eexists. reflexivity.
  - destruct (in_enum s) eqn:He.
    + exfalso. apply (Hout s eq_refl). apply in_enum_spec. exact He.
    + eexists. reflexivity.
  - eexists. reflexivity.
Qed.

(** C3, as the code has it. A create that omits [category] and is valid
    otherwise stores the record with category [Other]; a create whose
    [category] is present and is not a member of the enumeration is
    rejected by the validation with an error of the [category] path, and
    the collection is left as it was; so every record a create stores
    has a category of the enumeration.  The one value apart is [null],
    where the runtime lets it pass the validator: it is then stored as
    it is. *)
Theorem create_category_default_or_reject :
  forall (env : Env) (req : Request) (coll : collection),
    req_method req = "POST" ->
    req_path req = ["api"; "records"] ->
    (prop "category" (req_body req) = None ->
       forall (d : string) (a : Q) (t : Z),
         validate_description rt (prop "description" (req_body req)) = inl d ->
         validate_amount rt (prop "amount" (req_body req)) = inl a ->
         validate_date rt (or_now env (prop "date" (req_body req))) = inl t ->
         existsb (has_id (fresh env)) coll = false ->
         category (document env d a t (Some "Other")) = Some "Other" /\
         app rt env req coll
         = ({| res_status := 201;
               res_body := created_body rt (document env d a t (Some "Other")) |},
            coll ++ [document env d a t (Some "Other")]))
    /\
    (forall v : value,
        prop "category" (req_body req) = Some v ->
        (forall s, castString rt (Some v) = Cast s -> ~ In s categories) ->
        (v = VNull -> enum_accepts_null rt = false) ->
        exists errs msg,
          post_records rt env req coll = Throw (ValidationError errs) /\
          In ("category", msg) errs /\
          app rt env req coll = (error_middleware (ValidationError errs), coll))
    /\
    (forall (res : Response) (coll' : collection),
        post_records rt env req coll = Ok (res, coll') ->
        exists r,
          coll' = coll ++ [r] /\
          ((exists c, category r = Some c /\ In c categories) \/
           (category r = None /\
            prop "category" (req_body req) = Some VNull /\
            enum_accepts_null rt = true))).
Proof.
  intros env req coll Hm Hp. split; [| split].
  - intros Hnone d a t Hd Ha Ht Hfresh. split; [reflexivity |].
    apply app_post_accepted; try assumption.
    rewrite Hnone. reflexivity.
  - intros v Hsome Hout Hnull.
    destruct (validate_category_rejects v Hout Hnull) as [msg Hv].
    destruct (new_document_rejects env (create_input env (req_body req))
                ("category", msg)) as [errs [Hn Hin]].
    { simpl. rewrite Hsome, Hv.
      apply in_or_app. right. apply in_or_app. right.
      apply in_or_app. right. left. reflexivity. }
    exists errs, msg. split; [| split].
    + apply post_records_rejected. exact Hn.
    + exact Hin.
    + apply app_post_rejected; assumption.
  - intros res coll' Hok.
    destruct (post_records_ok env req coll res coll' Hok) as [r [Hn [_ Hc]]].
    destruct (new_document_ok env _ r Hn) as [d [a [t [c [_ [_ [_ [Hcat Hr]]]]]]]].
    exists r. split; [exact Hc |].
    rewrite Hr. simpl. apply (validate_category_enum _ c Hcat).
Qed.

(** Each input the validation must refuse fails on its path, with the
    message of that path. *)
Lemma invalid_path_failure (i : CreateInput) (fe : fieldError) :
  invalid_path rt i fe -> In fe (path_failures rt i).
Proof.
  unfold path_failures.
  intros [[H ->] | [[s [H [Hs ->]]] | [[s [H [Hs ->]]] | [[H ->]
          | [[v [H [[Hc _] ->]]] | [[q [H [Hq ->]]] | [s [H [Hs ->]]]]]]]]].
  - apply in_or_app. left.
    unfold validate_description. rewrite H. simpl. left. reflexivity.
  - apply in_or_app. left.
    unfold validate_description. rewrite H. simpl. rewrite Hs. simpl.
    left. reflexivity.
  - apply in_or_app. left.
    unfold validate_description. rewrite H. simpl.
    destruct (String.eqb_spec (trim s) "") as [He | _].
    + rewrite He in Hs. simpl in Hs. inversion Hs.
    + apply Nat.ltb_lt in Hs. rewrite Hs. simpl. left. reflexivity.
  - apply in_or_app. right. apply in_or_app. left.
    unfold validate_amount. rewrite H. simpl. left. reflexivity.
  - apply in_or_app. right. apply in_or_app. left.
    unfold validate_amount. rewrite H, Hc. simpl. left. reflexivity.
  - apply in_or_app. right. apply in_or_app. left.
    rewrite (validate_amount_negative _ q H Hq). simpl. left. reflexivity.
  - apply in_or_app. right. apply in_or_app. right. apply in_or_app. right.
    unfold validate_category. rewrite H. simpl.
    destruct (in_enum s) eqn:He.
    + exfalso. apply Hs. apply in_enum_spec. exact He.
    + simpl. left. reflexivity.
Qed.

(** Each path fails at most once. *)
Lemma path_failures_once (i : CreateInput) :
  NoDup (map fst (path_failures rt i)).
Proof.
  unfold path_failures.
  destruct (validate_description rt (in_description i)) as [d | ed] eqn:Hd;
    destruct (validate_amount rt (in_amount i)) as [a | ea] eqn:Ha;
    destruct (validate_date rt (in_date i)) as [t | et] eqn:Ht;
    destruct (validate_category rt (in_category i)) as [c | ec] eqn:Hc;
    simpl;
    try rewrite (validate_description_path _ _ Hd);
    try rewrite (validate_amount_path _ _ Ha);
    try rewrite (validate_date_path _ _ Ht);
    try rewrite (validate_category_path _ _ Hc);
    repeat constructor; simpl; intuition discriminate.
Qed.

Lemma path_failures_none (env : Env) (i : CreateInput) :
  path_failures rt i = [] -> exists r, new_document rt env i = Ok r.
Proof.
  unfold path_failures, new_document.
  destruct (validate_description rt (in_description i)) as [d | ed];
    destruct (validate_amount rt (in_amount i)) as [a | ea];
    destruct (validate_date rt (in_date i)) as [t | et];
    destruct (validate_category rt (in_category i)) as [c | ec];
    simpl; intros H; try discriminate H.
  eexists. reflexivity.
Qed.

Lemma path_failures_some (env : Env) (i : CreateInput) :
  path_failures rt i <> [] ->
  new_document rt env i
  = Throw (ValidationError (reported rt i (path_failures rt i))).
Proof.
  unfold path_failures, new_document.
  destruct (validate_description rt (in_description i)) as [d | ed];
    destruct (validate_amount rt (in_amount i)) as [a | ea];
    destruct (validate_date rt (in_date i)) as [t | et];
    destruct (validate_category rt (in_category i)) as [c | ec];
    simpl; intros H; try reflexivity.
  exfalso. apply H. reflexivity.
Qed.

(** C7, as the code has it. A create whose description is missing, empty
    or too long, whose amount is missing, not a number or negative, or
    whose category is outside the enumeration fails on that path with the
    message of that path (an amount that reads as an infinity is left
    aside).  A create of which a path fails is answered
    through the error middleware: a Mongoose validation error carries no
    [statusCode], so the status is 500, with [status] "error" and a
    message that lists every failed path once, each with its own message,
    in the order in which Mongoose reports them.  A create of which no
    path fails passes the validation. *)
Theorem validation_failure_answer :
  forall (env : Env) (req : Request) (coll : collection),
    req_method req = "POST" ->
    req_path req = ["api"; "records"] ->
    finite_amount (prop "amount" (req_body req)) ->
    let input := create_input env (req_body req) in
    let failed := path_failures rt input in
    let listed := reported rt input failed in
    (forall fe, invalid_path rt input fe -> In fe failed) /\
    (forall fe, In fe failed -> In (fst fe) paths) /\
    NoDup (map fst failed) /\
    Permutation listed failed /\
    (failed <> [] ->
       new_document rt env input = Throw (ValidationError listed) /\
       app rt env req coll
       = ({| res_status := 500;
             res_body := VObj [ ("status", VStr "error");
                                ("message",
                                 VStr (validation_message listed)) ] |},
          coll)) /\
    (failed = [] -> exists r, new_document rt env input = Ok r) /\
    (forall e, new_document rt env input = Throw e ->
               failed <> [] /\ e = ValidationError listed) /\
    validation_message listed
    = ("IncomeRecord validation failed: "
         ++ join ", " (map (fun fe => fst fe ++ ": " ++ snd fe) listed))%string.
Proof.
  intros env req coll Hm Hp _ input failed listed.
  split; [apply invalid_path_failure |].
  split; [apply path_failures_paths |].
  split; [apply path_failures_once |].
  split; [apply reported_perm |].
  split; [| split; [apply path_failures_none | split; [| reflexivity]]].
  - intros Hne.
    pose proof (path_failures_some env input Hne) as Hn.
    split; [exact Hn |].
    rewrite (app_post_rejected env req coll listed Hm Hp Hn). reflexivity.
  - intros e He.
    assert (Hne : failed <> []).
    { intros Hnil. destruct (path_failures_none env input Hnil) as [r Hr].
      rewrite Hr in He. discriminate He. }
    split; [exact Hne |].
    rewrite (path_failures_some env input Hne) in He.
    inversion He. reflexivity.
Qed.

(** *** The catch-all handler and the health route *)

(** C9, as the code has it. [server.js] declares no [/health] route: a
    request for [/health] reaches the catch-all handler and is answered
    404 with status "fail", the collection untouched.  The health handler
    of the earlier server answers 200 with status "running", its message
    and the time as an ISO string. *)
Theorem health_route_answers :
  (forall (env : Env) (req : Request) (coll : collection),
      req_path req = ["health"] ->
      app rt env req coll = (not_found req, coll) /\
      res_status (not_found req) = 404%nat /\
      prop "status" (res_body (not_found req)) = Some (VStr "fail"))
  /\
  (forall now : Z,
      res_status (Legacy.get_health rt now) = 200%nat /\
      prop "status" (res_body (Legacy.get_health rt now))
      = Some (VStr "running") /\
      prop "message" (res_body (Legacy.get_health rt now))
      = Some (VStr "Income Records API is operational") /\
      prop "timestamp" (res_body (Legacy.get_health rt now))
      = Some (VStr (toISOString rt now))).
Proof.
  split.
  - intros env req coll Hp. unfold app. rewrite Hp. repeat split.
  - intros t. repeat split.
Qed.

(** *** Errors on the way to the error middleware *)

Lemma error_middleware_plain (e : Error) :
  plain e ->
  error_middleware e
  = {| res_status := 500;
       res_body := VObj [ ("status", VStr "error");
                          ("message", VStr (message e)) ] |}.
Proof.
  intros [Hc Hs]. unfold error_middleware. rewrite Hc, Hs. reflexivity.
Qed.

Lemma library_error_plain (n : string) (f : failure) :
  plain (library_error rt n f).
Proof. split; reflexivity. Qed.

Lemma bind_throw {A B : Type} (m : outcome A) (k : A -> outcome B) (e : Error) :
  bind m k = Throw e ->
  m = Throw e \/ exists a, m = Ok a /\ k a = Throw e.
Proof.
  destruct m as [a | e']; simpl; intros H.
  - right. exists a. split; [reflexivity | exact H].
  - left. inversion H. reflexivity.
Qed.

Ltac plain_throw :=
  match goal with
  | H : Throw (library_error _ _ _) = Throw _ |- plain _ =>
      inversion H; apply library_error_plain
  | H : Ok _ = Throw _ |- _ => discriminate H
  end.

(** Going through the cases of a computation that has thrown. *)
Ltac plain_cases H :=
  repeat first
    [ plain_throw
    | match type of H with
      | context [match ?x with _ => _ end] => destruct x
      end ].

Lemma unknown_operator_plain (t : ftype) (path k : string) (v : qs) :
  plain (unknown_operator rt t path k v).
Proof. destruct t; apply library_error_plain. Qed.

Lemma cast_operand_plain (t : ftype) (path : string) (v : qs) (e : Error) :
  cast_operand rt t path v = Throw e -> plain e.
Proof.
  unfold cast_operand. intros H.
  destruct t, v as [s | items | fields]; plain_cases H.
Qed.

Lemma cast_operands_plain (t : ftype) (path : string) (items : list qs)
  (e : Error) :
  cast_operands rt t path items = Throw e -> plain e.
Proof.
  induction items as [| v rest IH]; simpl; intros H; [plain_throw |].
  apply bind_throw in H. destruct H as [H | [x [_ H]]].
  - apply (cast_operand_plain _ _ _ _ H).
  - apply bind_throw in H. destruct H as [H | [xs [_ H]]].
    + apply IH. exact H.
    + plain_throw.
Qed.

Lemma cast_operator_plain (t : ftype) (path k : string) (v : qs) (e : Error) :
  cast_operator rt t path k v = Throw e -> plain e.
Proof.
  unfold cast_operator. intros H.
  destruct (operator_of k) as [op |].
  - apply bind_throw in H. destruct H as [H | [x [_ H]]].
    + apply (cast_operand_plain _ _ _ _ H).
    + plain_throw.
  - destruct (other_condition rt path k v); [plain_throw |].
    inversion H. apply unknown_operator_plain.
Qed.

Lemma cast_operators_plain (t : ftype) (path : string)
  (ops : list (string * qs)) (e : Error) :
  cast_operators rt t path ops = Throw e -> plain e.
Proof.
  induction ops as [| [k v] rest IH]; simpl; intros H; [plain_throw |].
  apply bind_throw in H. destruct H as [H | [cs [_ H]]].
  - apply IH. exact H.
  - apply bind_throw in H. destruct H as [H | [c [_ H]]].
    + apply (cast_operator_plain _ _ _ _ _ H).
    + plain_throw.
Qed.

Lemma foreign_operators_plain (path : string) (ops : list (string * qs))
  (e : Error) :
  foreign_operators rt path ops = Throw e -> plain e.
Proof.
  induction ops as [| [k v] rest IH]; simpl; intros H; [plain_throw |].
  apply bind_throw in H. destruct H as [H | [cs [_ H]]].
  - apply IH. exact H.
  - plain_cases H.
Qed.

Lemma cast_entry_plain (k : string) (v : qs) (e : Error) :
  cast_entry rt k v = Throw e -> plain e.
Proof.
  unfold cast_entry. intros H.
  destruct (starts_with_dollar k); [plain_cases H |].
  destruct (schema_path k) as [t |].
  - destruct v as [s | items | fields].
    + apply bind_throw in H. destruct H as [H | [x [_ H]]];
        [apply (cast_operand_plain _ _ _ _ H) | plain_throw].
    + apply bind_throw in H. destruct H as [H | [x [_ H]]];
        [apply (cast_operands_plain _ _ _ _ H) | plain_throw].
    + destruct (has_operator fields).
      * apply (cast_operators_plain _ _ _ _ H).
      * apply bind_throw in H. destruct H as [H | [x [_ H]]];
          [apply (cast_operand_plain _ _ _ _ H) | plain_throw].
  - destruct (strictQuery rt); [plain_throw |].
    destruct v as [s | items | [| [k1 v1] ops]]; try plain_throw.
    destruct (starts_with_dollar k1); [| plain_throw].
    apply (foreign_operators_plain _ _ _ H).
Qed.

Lemma cast_entries_plain (fields : list (string * qs)) (e : Error) :
  cast_entries rt fields = Throw e -> plain e.
Proof.
  induction fields as [| [k v] rest IH]; simpl; intros H; [plain_throw |].
  apply bind_throw in H. destruct H as [H | [cs [_ H]]].
  - apply IH. exact H.
  - apply bind_throw in H. destruct H as [H | [cs' [_ H]]].
    + apply (cast_entry_plain _ _ _ H).
    + plain_throw.
Qed.

Lemma cast_filter_plain (f : qs) (e : Error) :
  cast_filter rt f = Throw e -> plain e.
Proof.
  unfold cast_filter. intros H.
  destruct f as [s | items | fields]; try plain_throw.
  apply (cast_entries_plain _ _ H).
Qed.

Lemma apply_skip_plain (n : option number) (docs : list IncomeRecord)
  (e : Error) :
  apply_skip rt n docs = Throw e -> plain e.
Proof.
  unfold apply_skip. intros H.
  destruct (integer_of n <? 0); plain_throw.
Qed.

Lemma sort_order_plain (spec : option string)
  (e : Error) :
  sort_order rt spec = Throw e -> plain e.
Proof.
  unfold sort_order. intros H. plain_cases H.
Qed.

Lemma finite_option_plain (which : string) (n : option number) (e : Error) :
  finite_option rt which n = Throw e -> plain e.
Proof.
  unfold finite_option. intros H. plain_cases H.
Qed.

Lemma Query_exec_plain (q : Query) (coll : collection) (e : Error) :
  Query_exec rt q coll = Throw e -> plain e.
Proof.
  unfold Query_exec. intros H.
  apply bind_throw in H. destruct H as [H | [cs [_ H]]].
  { apply (cast_filter_plain _ _ H). }
  apply bind_throw in H. destruct H as [H | [order [_ H]]].
  { apply (sort_order_plain _ _ H). }
  apply bind_throw in H. destruct H as [H | [u1 [_ H]]].
  { apply (finite_option_plain _ _ _ H). }
  apply bind_throw in H. destruct H as [H | [u2 [_ H]]].
  { apply (finite_option_plain _ _ _ H). }
  apply bind_throw in H. destruct H as [H | [docs [_ H]]].
  - apply (apply_skip_plain _ _ _ H).
  - plain_throw.
Qed.

Lemma build_query_plain (q : ParsedQs) (e : Error) :
  build_query rt q = Throw e -> plain e.
Proof.
  unfold build_query, parse_filter, sort_of. intros H.
  apply bind_throw in H. destruct H as [H | [f [_ H]]].
  - destruct (JSON_parse (queryStr_of q)); plain_throw.
  - apply bind_throw in H. destruct H as [H | [spec [_ H]]]; [| plain_throw].
    destruct (qs_truthy (assoc "sort" q)); [| plain_throw].
    destruct (assoc "sort" q) as [[s | items | fields] |]; plain_throw.
Qed.

Lemma get_records_plain (req : Request) (coll : collection) (e : Error) :
  get_records rt req coll = Throw e -> plain e.
Proof.
  unfold get_records. intros H.
  apply bind_throw in H. destruct H as [H | [query [_ H]]].
  { apply (build_query_plain _ _ H). }
  apply bind_throw in H. destruct H as [H | [records [_ H]]].
  { apply (Query_exec_plain _ _ _ H). }
  apply bind_throw in H. destruct H as [H | [f [_ H]]].
  { unfold parse_filter in H.
    destruct (JSON_parse (queryStr_of (req_query req))); plain_throw. }
  apply bind_throw in H. destruct H as [H | [total [_ H]]]; [| plain_throw].
  unfold Model_countDocuments in H.
  apply bind_throw in H. destruct H as [H | [cs [_ H]]]; [| plain_throw].
  apply (cast_filter_plain _ _ H).
Qed.

Lemma app_get (env : Env) (req : Request) (coll : collection) :
  req_method req = "GET" ->
  req_path req = ["api"; "records"] ->
  app rt env req coll
  = settle coll (r <- get_records rt req coll ;; Ok (r, coll)).
Proof.
  intros Hm Hp. unfold app, is_method. rewrite Hp, Hm. reflexivity.
Qed.

(** A list request whose handler throws is answered 500. *)
Lemma app_get_throw (env : Env) (req : Request) (coll : collection) (e : Error) :
  req_method req = "GET" ->
  req_path req = ["api"; "records"] ->
  get_records rt req coll = Throw e ->
  app rt env req coll
  = ({| res_status := 500;
        res_body := VObj [ ("status", VStr "error");
                           ("message", VStr (message e)) ] |}, coll).
Proof.
  intros Hm Hp H.
  rewrite (app_get env req coll Hm Hp), H. simpl.
  rewrite (error_middleware_plain e (get_records_plain req coll e H)).
  reflexivity.
Qed.

(** *** The rewritten text always parses *)

Lemma operator_at_head (c : ascii) (l : list ascii) :
  Ascii.eqb c "g" = false -> Ascii.eqb c "l" = false ->
  operator_at (c :: l) = false.
Proof.
  intros Hg Hl. unfold operator_at, operators.
  cbn [existsb list_ascii_of_string prefix_of].
  rewrite (Ascii.eqb_sym "g" c), (Ascii.eqb_sym "l" c), Hg, Hl. reflexivity.
Qed.

Lemma replace_inert (pw : bool) (c : ascii) (l : list ascii) :
  inert c = true ->
  replace_operators pw (c :: l) = c :: replace_operators false l.
Proof.
  unfold inert. intros H.
  apply andb_true_iff in H. destruct H as [H Hl].
  apply andb_true_iff in H. destruct H as [Hw Hg].
  apply negb_true_iff in Hw, Hg, Hl.
  cbn [replace_operators].
  rewrite (operator_at_head c l Hg Hl), Hw, andb_false_r. reflexivity.
Qed.

Lemma replace_word (c : ascii) (l : list ascii) :
  replace_operators true (c :: l) = c :: replace_operators (is_word c) l.
Proof. reflexivity. Qed.

(** Looking for an operator, a closing quote is as good as the end. *)
Lemma prefix_boundary_quote (op l rest : list ascii) :
  forallb (fun a => negb (Ascii.eqb a dquote)) op = true ->
  match prefix_of op (l ++ dquote :: rest) with
  | Some r => boundary_after r
  | None => false
  end
  = match prefix_of op l with
    | Some r => boundary_after r
    | None => false
    end.
Proof.
  revert l. induction op as [| a op IH]; intros l Hop.
  - destruct l; reflexivity.
  - cbn [forallb] in Hop. apply andb_true_iff in Hop. destruct Hop as [Ha Hop].
    apply negb_true_iff in Ha.
    destruct l as [| b l].
    + rewrite app_nil_l. cbn [prefix_of]. rewrite Ha. reflexivity.
    + rewrite <- app_comm_cons. cbn [prefix_of].
      destruct (Ascii.eqb a b); [apply IH; exact Hop | reflexivity].
Qed.

Lemma operator_at_quote (l rest : list ascii) :
  operator_at (l ++ dquote :: rest) = operator_at l.
Proof.
  unfold operator_at, operators. cbn [existsb].
  rewrite !prefix_boundary_quote by reflexivity. reflexivity.
Qed.

Lemma replace_body (pw : bool) (body rest : list ascii) :
  replace_operators pw (body ++ dquote :: rest)
  = replace_operators pw body ++ dquote :: replace_operators false rest.
Proof.
  revert pw. induction body as [| c body IH]; intros pw.
  - simpl app. apply replace_inert. reflexivity.
  - change ((c :: body) ++ dquote :: rest) with (c :: (body ++ dquote :: rest)).
    cbn [replace_operators].
    change (c :: body ++ dquote :: rest) with ((c :: body) ++ dquote :: rest).
    rewrite operator_at_quote, IH.
    destruct (negb pw && operator_at (c :: body)); reflexivity.
Qed.

Lemma parse_verbatim (c : ascii) (acc r : list ascii) :
  verbatim c = true -> parse_string acc (c :: r) = parse_string (c :: acc) r.
Proof.
  unfold verbatim. intros H.
  apply andb_true_iff in H. destruct H as [H Hb].
  apply andb_true_iff in H. destruct H as [Hc Hq].
  apply negb_true_iff in Hc, Hq, Hb.
  cbn [parse_string]. rewrite Hq, Hb, Hc. reflexivity.
Qed.

(** Every character is either held as it is, or escaped by a sequence that
    the rewrite leaves alone and that the parser reads back. *)
Lemma escape_char_cases (c : ascii) :
  (verbatim c = true /\ escape_char c = [c]) \/
  (exists w,
      (forall pw tail,
          replace_operators pw (escape_char c ++ tail)
          = escape_char c ++ replace_operators w tail) /\
      (forall acc r,
          parse_string acc (escape_char c ++ r) = parse_string (c :: acc) r)).
Proof.
  destruct c as [b0 b1 b2 b3 b4 b5 b6 b7].
  destruct b0, b1, b2, b3, b4, b5, b6, b7;
    first [ left; split; reflexivity
          | right; eexists; split;
            [ intros pw tail; destruct pw; reflexivity
            | intros acc r; reflexivity ] ].
Qed.

Lemma literal_parses (s : list ascii) :
  forall pw : bool,
  exists d, forall acc rest,
    parse_string acc (replace_operators pw (flat_map escape_char s)
                        ++ dquote :: rest)
    = Some (string_of_list_ascii (rev acc ++ d), rest).
Proof.
  induction s as [| c s IH]; intros pw.
  - exists []. intros acc rest. rewrite app_nil_r. reflexivity.
  - cbn [flat_map].
    destruct (escape_char_cases c) as [[Hv He] | [w [Hrep Hparse]]].
    + rewrite He. change ([c] ++ flat_map escape_char s)
        with (c :: flat_map escape_char s).
      cbn [replace_operators].
      destruct (IH (is_word c)) as [d Hd].
      destruct (negb pw && operator_at (c :: flat_map escape_char s)).
      * exists ("$"%char :: c :: d). intros acc rest.
        rewrite <- !app_comm_cons.
        rewrite (parse_verbatim "$") by reflexivity.
        rewrite (parse_verbatim c) by exact Hv.
        rewrite Hd. cbn [rev]. rewrite <- !app_assoc. reflexivity.
      * exists (c :: d). intros acc rest.
        rewrite <- !app_comm_cons.
        rewrite (parse_verbatim c) by exact Hv.
        rewrite Hd. cbn [rev]. rewrite <- !app_assoc. reflexivity.
    + destruct (IH w) as [d Hd].
      exists (c :: d). intros acc rest.
      rewrite Hrep, <- app_assoc, Hparse, Hd.
      cbn [rev]. rewrite <- !app_assoc. reflexivity.
Qed.

Ltac cons_app :=
  repeat match goal with
         | |- context [[?c] ++ ?r] => change ([c] ++ r) with (c :: r)
         end.

(** Lists written as conses and appends nested to the right. *)
Ltac right_nested :=
  repeat first [ rewrite <- app_comm_cons
               | rewrite <- app_assoc
               | rewrite app_nil_l
               | progress cons_app ].

Lemma replace_quote (s : string) (pw : bool) (rest : list ascii) :
  replace_operators pw (quote s ++ rest)
  = literal s ++ replace_operators false rest.
Proof.
  unfold quote, literal.
  rewrite <- !app_comm_cons, <- !app_assoc.
  rewrite replace_inert by reflexivity.
  cons_app. rewrite replace_body. reflexivity.
Qed.

(** The rewrite goes through a list of rendered elements and its closing
    character. *)
Lemma replace_commas {A : Type} (f g : A -> list ascii) (close : ascii)
  (items : list A) :
  inert close = true ->
  Forall (fun x => forall pw rest,
              replace_operators pw (f x ++ rest)
              = g x ++ replace_operators false rest) items ->
  forall pw rest,
    replace_operators pw (commas (map f items) ++ close :: rest)
    = commas (map g items) ++ close :: replace_operators false rest.
Proof.
  intros Hclose Hall.
  induction Hall as [| x r Hx Hr IH]; intros pw rest.
  - cbn [map commas app]. apply replace_inert. exact Hclose.
  - destruct r as [| y r'].
    + cbn [map commas]. rewrite Hx.
      rewrite (replace_inert false close) by exact Hclose. reflexivity.
    + change (commas (map f (x :: y :: r')))
        with (f x ++ ","%char :: commas (map f (y :: r'))).
      change (commas (map g (x :: y :: r')))
        with (g x ++ ","%char :: commas (map g (y :: r'))).
      rewrite <- !app_assoc, <- !app_comm_cons.
      rewrite Hx, (replace_inert false ","%char) by reflexivity.
      rewrite IH. reflexivity.
Qed.

Lemma replace_stringify (v : qs) :
  forall pw rest,
    replace_operators pw (stringify_chars v ++ rest)
    = rewritten v ++ replace_operators false rest.
Proof.
  induction v as [s | items IH | fields IH] using qs_induction;
    intros pw rest.
  - apply replace_quote.
  - cbn [stringify_chars rewritten].
    rewrite <- !app_comm_cons, <- !app_assoc.
    rewrite replace_inert by reflexivity.
    cons_app.
    rewrite (replace_commas stringify_chars rewritten "]"%char items)
      by (try reflexivity; exact IH).
    reflexivity.
  - cbn [stringify_chars rewritten].
    rewrite <- !app_comm_cons, <- !app_assoc.
    rewrite replace_inert by reflexivity.
    cons_app.
    rewrite (replace_commas
               (fun kv => quote (fst kv) ++ ":"%char :: stringify_chars (snd kv))
               (fun kv => literal (fst kv) ++ ":"%char :: rewritten (snd kv))
               "}"%char fields).
    + reflexivity.
    + reflexivity.
    + apply Forall_forall. intros kv Hin pw' rest'.
      rewrite <- !app_assoc, <- !app_comm_cons.
      rewrite replace_quote, (replace_inert false ":"%char) by reflexivity.
      rewrite (proj1 (Forall_forall _ _) IH kv Hin). reflexivity.
Qed.

Lemma rewritten_opens (v : qs) :
  exists c r, rewritten v = c :: r /\ opening c = true.
Proof.
  destruct v as [s | items | fields]; eexists; eexists; split;
    try reflexivity; reflexivity.
Qed.

Lemma parse_literal (s : string) :
  exists s', forall rest,
    parse_string [] (replace_operators false
                       (flat_map escape_char (list_ascii_of_string s))
                     ++ dquote :: rest) = Some (s', rest).
Proof.
  destruct (literal_parses (list_ascii_of_string s) false) as [d Hd].
  exists (string_of_list_ascii d). intros rest. apply (Hd []).
Qed.

(** One step of the parser on a text that opens with a given character. *)
Lemma parse_value_string (fuel : nat) (r : list ascii) :
  parse_value (S fuel) (dquote :: r)
  = match parse_string [] r with
    | Some (s, r') => Some (QStr s, r')
    | None => None
    end.
Proof. reflexivity. Qed.

Lemma parse_value_array (fuel : nat) (c : ascii) (r : list ascii) :
  opening c = true ->
  parse_value (S fuel) ("["%char :: c :: r) = parse_elements fuel [] (c :: r).
Proof.
  unfold opening. intros H.
  cbn [parse_value drop_while].
  destruct c as [b0 b1 b2 b3 b4 b5 b6 b7].
  destruct b0, b1, b2, b3, b4, b5, b6, b7; try discriminate H; reflexivity.
Qed.

Lemma parse_value_object (fuel : nat) (c : ascii) (r : list ascii) :
  opening c = true ->
  parse_value (S fuel) ("{"%char :: c :: r) = parse_members fuel [] (c :: r).
Proof.
  unfold opening. intros H.
  cbn [parse_value drop_while].
  destruct c as [b0 b1 b2 b3 b4 b5 b6 b7].
  destruct b0, b1, b2, b3, b4, b5, b6, b7; try discriminate H; reflexivity.
Qed.

Lemma parse_elements_more (fuel : nat) (acc : list qs) (l r : list ascii)
  (v : qs) :
  parse_value fuel l = Some (v, ","%char :: r) ->
  parse_elements (S fuel) acc l = parse_elements fuel (v :: acc) r.
Proof. intros H. cbn [parse_elements]. rewrite H. reflexivity. Qed.

Lemma parse_elements_last (fuel : nat) (acc : list qs) (l r : list ascii)
  (v : qs) :
  parse_value fuel l = Some (v, "]"%char :: r) ->
  parse_elements (S fuel) acc l = Some (QArr (rev (v :: acc)), r).
Proof. intros H. cbn [parse_elements]. rewrite H. reflexivity. Qed.

Lemma parse_elements_all (items : list qs) :
  items <> [] ->
  Forall reads_back items ->
  exists vs, forall fuel acc rest,
      (elements_size items <= fuel)%nat ->
      parse_elements fuel acc
        (commas (map rewritten items) ++ "]"%char :: rest)
      = Some (QArr (rev acc ++ vs), rest).
Proof.
  intros Hne Hall. induction Hall as [| x r [x' Hx] Hr IH]; [contradiction |].
  destruct r as [| y r'].
  - exists [x']. intros fuel acc rest Hfuel.
    cbn [elements_size fold_right] in Hfuel.
    destruct fuel as [| fuel]; [lia |].
    cbn [map commas].
    rewrite (parse_elements_last fuel acc _ rest x'); [reflexivity |].
    apply Hx. lia.
  - destruct IH as [vs Hvs]; [discriminate |].
    exists (x' :: vs). intros fuel acc rest Hfuel.
    change (elements_size (x :: y :: r'))
      with (S (qs_size x + elements_size (y :: r'))) in Hfuel.
    destruct fuel as [| fuel]; [lia |].
    change (commas (map rewritten (x :: y :: r')))
      with (rewritten x ++ ","%char :: commas (map rewritten (y :: r'))).
    rewrite <- app_assoc, <- app_comm_cons.
    rewrite (parse_elements_more fuel acc _
               (commas (map rewritten (y :: r')) ++ "]"%char :: rest) x').
    + rewrite Hvs by lia. cbn [rev]. rewrite <- app_assoc. reflexivity.
    + apply Hx. lia.
Qed.

Lemma parse_members_more (fuel : nat) (acc : list (string * qs))
  (l r1 r : list ascii) (k : string) (v : qs) :
  parse_string [] l = Some (k, ":"%char :: r1) ->
  parse_value fuel r1 = Some (v, ","%char :: r) ->
  parse_members (S fuel) acc (dquote :: l)
  = parse_members fuel ((k, v) :: acc) r.
Proof.
  intros Hk Hv. cbn [parse_members drop_while].
  change (json_space dquote) with false. cbv iota.
  change (Ascii.eqb dquote dquote) with true. cbv iota.
  rewrite Hk. cbn [drop_while].
  change (json_space ":"%char) with false. cbv iota.
  change (Ascii.eqb ":"%char ":"%char) with true. cbv iota.
  rewrite Hv. reflexivity.
Qed.

Lemma parse_members_last (fuel : nat) (acc : list (string * qs))
  (l r1 r : list ascii) (k : string) (v : qs) :
  parse_string [] l = Some (k, ":"%char :: r1) ->
  parse_value fuel r1 = Some (v, "}"%char :: r) ->
  parse_members (S fuel) acc (dquote :: l)
  = Some (QObj (rev ((k, v) :: acc)), r).
Proof.
  intros Hk Hv. cbn [parse_members drop_while].
  change (json_space dquote) with false. cbv iota.
  change (Ascii.eqb dquote dquote) with true. cbv iota.
  rewrite Hk. cbn [drop_while].
  change (json_space ":"%char) with false. cbv iota.
  change (Ascii.eqb ":"%char ":"%char) with true. cbv iota.
  rewrite Hv. reflexivity.
Qed.

Lemma parse_members_all (fields : list (string * qs)) :
  fields <> [] ->
  Forall (fun kv => reads_back (snd kv)) fields ->
  exists kvs, forall fuel acc rest,
      (members_size fields <= fuel)%nat ->
      parse_members fuel acc
        (commas (map (fun kv => literal (fst kv) ++ ":"%char
                                   :: rewritten (snd kv)) fields)
           ++ "}"%char :: rest)
      = Some (QObj (rev acc ++ kvs), rest).
Proof.
  intros Hne Hall.
  induction Hall as [| [k v] r [v' Hv] Hr IH]; [contradiction |].
  cbn [snd] in Hv.
  destruct (parse_literal k) as [k' Hk].
  destruct r as [| y r'].
  - exists [(k', v')]. intros fuel acc rest Hfuel.
    cbn [members_size fold_right snd] in Hfuel.
    destruct fuel as [| fuel]; [lia |].
    cbn [map commas fst snd]. unfold literal.
    right_nested.
    rewrite (parse_members_last fuel acc _ _ rest k' v' (Hk _));
      [reflexivity |].
    apply Hv. lia.
  - destruct IH as [kvs Hkvs]; [discriminate |].
    exists ((k', v') :: kvs). intros fuel acc rest Hfuel.
    change (members_size ((k, v) :: y :: r'))
      with (S (qs_size v + members_size (y :: r'))) in Hfuel.
    destruct fuel as [| fuel]; [lia |].
    set (f := fun kv : string * qs =>
                literal (fst kv) ++ ":"%char :: rewritten (snd kv)) in *.
    change (commas (map f ((k, v) :: y :: r')))
      with ((literal k ++ ":"%char :: rewritten v)
              ++ ","%char :: commas (map f (y :: r'))).
    unfold literal.
    right_nested.
    rewrite (parse_members_more fuel acc _ _
               (commas (map f (y :: r')) ++ "}"%char :: rest) k' v' (Hk _)).
    + rewrite Hkvs by lia. cbn [rev]. rewrite <- app_assoc. reflexivity.
    + apply Hv. lia.
Qed.

(** Every value is read back from its rendering. *)
Lemma rewritten_reads_back (v : qs) : reads_back v.
Proof.
  induction v as [s | items IH | fields IH] using qs_induction.
  - destruct (parse_literal s) as [s' Hs].
    exists (QStr s'). intros fuel rest Hfuel.
    destruct fuel as [| fuel]; [cbn in Hfuel; lia |].
    cbn [rewritten]. unfold literal.
    right_nested.
    rewrite parse_value_string, Hs. reflexivity.
  - destruct items as [| x r].
    + exists (QArr []). intros fuel rest Hfuel.
      destruct fuel as [| fuel]; [cbn in Hfuel; lia |].
      reflexivity.
    + destruct (parse_elements_all (x :: r)) as [vs Hvs];
        [discriminate | exact IH |].
      exists (QArr vs). intros fuel rest Hfuel.
      change (qs_size (QArr (x :: r))) with (S (elements_size (x :: r)))
        in Hfuel.
      destruct fuel as [| fuel]; [lia |].
      cbn [rewritten].
      right_nested.
      destruct (rewritten_opens x) as [c [t [Hc Hopen]]].
      assert (Hhead : exists t', commas (map rewritten (x :: r)) = c :: t').
      { destruct r as [| y r']; cbn [map commas]; rewrite Hc;
          eexists; reflexivity. }
      destruct Hhead as [t' Ht'].
      pose proof (Hvs fuel [] rest) as Hparse.
      rewrite Ht' in Hparse |- *. rewrite <- !app_comm_cons in Hparse |- *.
      rewrite (parse_value_array fuel c _ Hopen).
      apply Hparse. lia.
  - destruct fields as [| [k x] r].
    + exists (QObj []). intros fuel rest Hfuel.
      destruct fuel as [| fuel]; [cbn in Hfuel; lia |].
      reflexivity.
    + destruct (parse_members_all ((k, x) :: r)) as [kvs Hkvs];
        [discriminate | exact IH |].
      exists (QObj kvs). intros fuel rest Hfuel.
      change (qs_size (QObj ((k, x) :: r)))
        with (S (members_size ((k, x) :: r))) in Hfuel.
      destruct fuel as [| fuel]; [lia |].
      cbn [rewritten].
      right_nested.
      set (f := fun kv : string * qs =>
                  literal (fst kv) ++ ":"%char :: rewritten (snd kv)) in *.
      assert (Hhead : exists t', commas (map f ((k, x) :: r)) = dquote :: t').
      { destruct r as [| y r']; cbn [map commas]; unfold f at 1, literal;
          cbn [fst]; rewrite <- !app_comm_cons; eexists; reflexivity. }
      destruct Hhead as [t' Ht'].
      pose proof (Hkvs fuel [] rest) as Hparse.
      rewrite Ht' in Hparse |- *. rewrite <- !app_comm_cons in Hparse |- *.
      rewrite (parse_value_object fuel dquote _ eq_refl).
      apply Hparse. lia.
Qed.

(** The rendering of a value is at least as long as the calls it needs. *)
Lemma commas_length {A : Type} (f : A -> list ascii) (size : A -> nat)
  (items : list A) :
  Forall (fun x => (size x <= List.length (f x))%nat) items ->
  (fold_right (fun x n => S (size x + n)) 0 items
   <= S (List.length (commas (map f items))))%nat.
Proof.
  intros Hall. induction Hall as [| x r Hx Hr IH]; [cbn; lia |].
  destruct r as [| y r'].
  - cbn [map commas fold_right]. lia.
  - change (commas (map f (x :: y :: r')))
      with (f x ++ ","%char :: commas (map f (y :: r'))).
    rewrite length_app. cbn [List.length].
    change (fold_right (fun x n => S (size x + n)) 0 (x :: y :: r'))%nat
      with (S (size x + fold_right (fun x n => S (size x + n)) 0 (y :: r')))%nat.
    apply le_n_S. apply Nat.add_le_mono; assumption.
Qed.

Lemma size_le_length (v : qs) : (qs_size v <= List.length (rewritten v))%nat.
Proof.
  induction v as [s | items IH | fields IH] using qs_induction.
  - cbn [qs_size rewritten]. unfold literal. cbn [List.length]. lia.
  - cbn [qs_size rewritten List.length]. rewrite length_app. cbn [List.length].
    pose proof (commas_length rewritten qs_size items IH). lia.
  - cbn [qs_size rewritten List.length]. rewrite length_app. cbn [List.length].
    pose proof (commas_length
                  (fun kv => literal (fst kv) ++ ":"%char :: rewritten (snd kv))
                  (fun kv => qs_size (snd kv)) fields) as H.
    assert (Hall : Forall
              (fun kv : string * qs =>
                 (qs_size (snd kv)
                  <= List.length (literal (fst kv) ++ ":"%char
                                    :: rewritten (snd kv)))%nat) fields).
    { apply Forall_forall. intros kv Hin.
      pose proof (proj1 (Forall_forall _ _) IH kv Hin) as Hkv.
      cbv beta in Hkv.
      rewrite length_app. cbn [List.length]. lia. }
    specialize (H Hall).
    apply le_n_S. eapply Nat.le_trans; [exact H |]. lia.
Qed.

(** The text the list handler gives to [JSON.parse] is always read: the
    handler never throws a [SyntaxError]. *)
Lemma rewritten_text_parses (o : ParsedQs) :
  exists f, JSON_parse (replace_ops (JSON_stringify o)) = Some f.
Proof.
  unfold JSON_parse, replace_ops, JSON_stringify.
  rewrite !list_ascii_of_string_of_list_ascii.
  pose proof (replace_stringify (QObj o) false []) as Hrep.
  rewrite app_nil_r in Hrep. cbn [replace_operators] in Hrep.
  rewrite app_nil_r in Hrep. rewrite Hrep.
  destruct (rewritten_reads_back (QObj o)) as [v' Hv].
  specialize (Hv (S (List.length (rewritten (QObj o)))) []).
  rewrite app_nil_r in Hv. rewrite Hv.
  - exists v'. reflexivity.
  - pose proof (size_le_length (QObj o)). lia.
Qed.

(** *** Paging *)

Lemma truncate_integer (x : Q) (z : Z) : (x == inject_Z z)%Q -> truncate x = z.
Proof.
  unfold Qeq, truncate. simpl. intros H.
  rewrite Z.mul_1_r in H. rewrite H. apply Z.quot_mul. discriminate.
Qed.

Lemma truncate_negative (s : Q) : (s <= -1)%Q -> truncate s < 0.
Proof.
  unfold Qle, truncate. simpl. intros H.
  rewrite Z.mul_1_r in H.
  assert (Hq : Qnum s ÷ Zpos (Qden s) <= (- Zpos (Qden s)) ÷ Zpos (Qden s)).
  { apply Z.quot_le_mono; lia. }
  rewrite Z.quot_opp_l, Z.quot_same in Hq by discriminate.
  lia.
Qed.

Lemma or_default_nan (d : Q) : num_or (num_mul NaN (Num 1)) (Num d) = Num d.
Proof. reflexivity. Qed.

Lemma or_default_zero (x d : Q) :
  (x == 0)%Q -> num_or (num_mul (Num x) (Num 1)) (Num d) = Num d.
Proof.
  intros Hx. simpl.
  assert (H : Qeq_bool (x * 1) 0 = true).
  { apply Qeq_bool_iff. rewrite Hx. reflexivity. }
  rewrite H. reflexivity.
Qed.

Lemma or_default_given (x d : Q) :
  ~ (x == 0)%Q -> num_or (num_mul (Num x) (Num 1)) (Num d) = Num (x * 1).
Proof.
  intros Hx. simpl.
  destruct (Qeq_bool (x * 1) 0) eqn:H; [| reflexivity].
  exfalso. apply Hx. apply Qeq_bool_iff in H.
  rewrite Qmult_1_r in H. exact H.
Qed.

Lemma build_query_ok (q : ParsedQs) (qy : Query) :
  build_query rt q = Ok qy ->
  exists f sortBy,
    parse_filter rt (queryStr_of q) = Ok f /\
    sort_of rt q = Ok sortBy /\
    qy = {| q_filter := f; q_sort := Some sortBy;
            q_skip := Some (skip_of q); q_limit := Some (limit_of q) |}.
Proof.
  unfold build_query.
  destruct (parse_filter rt (queryStr_of q)) as [f | e]; simpl; [| discriminate].
  destruct (sort_of rt q) as [sortBy | e]; simpl; [| discriminate].
  intros H. inversion H. exists f, sortBy. repeat split; reflexivity.
Qed.

Lemma get_records_negative_skip (req : Request) (coll : collection) (s : Q) :
  skip_of (req_query req) = Num s ->
  (s <= -1)%Q ->
  exists e, get_records rt req coll = Throw e.
Proof.
  intros Hs Hneg. unfold get_records.
  destruct (build_query rt (req_query req)) as [qy | e] eqn:Hb;
    [| exists e; reflexivity].
  destruct (build_query_ok _ _ Hb) as [f [sortBy [_ [_ Hqy]]]].
  simpl. unfold Query_exec.
  destruct (cast_filter rt (q_filter qy)) as [cs | e];
    [| exists e; reflexivity].
  simpl.
  destruct (sort_order rt (q_sort qy)) as [order | e];
    [| exists e; reflexivity].
  simpl.
  destruct (finite_option rt "skip" (q_skip qy)) as [u1 | e];
    [| exists e; reflexivity].
  simpl.
  destruct (finite_option rt "limit" (q_limit qy)) as [u2 | e];
    [| exists e; reflexivity].
  simpl. unfold apply_skip.
  rewrite Hqy. simpl. rewrite Hs. simpl.
  pose proof (truncate_negative s Hneg) as Hlt.
  apply Z.ltb_lt in Hlt. rewrite Hlt. simpl.
  eexists. reflexivity.
Qed.

(** C8, as the code has it. A [page] or [limit] that is absent, not a
    number or 0 is replaced by its default, 1 for [page] and 10 for
    [limit]; any other value, a negative one included, is used as it is,
    neither clamped nor refused.  [skip] is not negative when [page] is at
    least 1 and [limit] at least 0; when [skip] is -1 or less the query is
    refused by the store and the answer is 500. *)
Theorem paging_defaults_only :
  forall (env : Env) (req : Request) (coll : collection),
    let q := req_query req in
    (ToNumber (assoc "page" q) = NaN -> page_of q = Num 1) /\
    (forall x, ToNumber (assoc "page" q) = Num x ->
               ((x == 0)%Q -> page_of q = Num 1) /\
               (~ (x == 0)%Q -> page_of q = Num (x * 1))) /\
    (ToNumber (assoc "limit" q) = NaN -> limit_of q = Num 10) /\
    (forall x, ToNumber (assoc "limit" q) = Num x ->
               ((x == 0)%Q -> limit_of q = Num 10) /\
               (~ (x == 0)%Q -> limit_of q = Num (x * 1))) /\
    (forall p l, page_of q = Num p -> limit_of q = Num l ->
                 (1 <= p)%Q -> (0 <= l)%Q ->
                 exists s, skip_of q = Num s /\ (0 <= s)%Q) /\
    (forall s, req_method req = "GET" ->
               req_path req = ["api"; "records"] ->
               skip_of q = Num s -> (s <= -1)%Q ->
               res_status (fst (app rt env req coll)) = 500%nat /\
               snd (app rt env req coll) = coll).
Proof.
  intros env req coll q.
  split; [| split; [| split; [| split; [| split]]]].
  - intros H. unfold page_of. rewrite H. apply or_default_nan.
  - intros x H. unfold page_of. rewrite H. split.
    + apply or_default_zero.
    + apply or_default_given.
  - intros H. unfold limit_of. rewrite H. apply or_default_nan.
  - intros x H. unfold limit_of. rewrite H. split.
    + apply or_default_zero.
    + apply or_default_given.
  - intros p l Hp Hl Hp1 Hl0. unfold skip_of. rewrite Hp, Hl. simpl.
    eexists. split; [reflexivity |].
    apply Qmult_le_0_compat; [| exact Hl0].
    unfold Qminus. rewrite <- (Qplus_opp_r 1).
    apply Qplus_le_compat; [exact Hp1 | apply Qle_refl].
  - intros s Hm Hp Hs Hneg.
    destruct (get_records_negative_skip req coll s Hs Hneg) as [e He].
    rewrite (app_get_throw env req coll e Hm Hp He). split; reflexivity.
Qed.

(** *** The list answer *)

Lemma firstn_at_most {A : Type} (n : nat) (l : list A) :
  (List.length (firstn n l) <= n)%nat.
Proof. rewrite length_firstn. apply Nat.le_min_l. Qed.

(** The handler on a request it can serve. *)
Lemma get_records_page (req : Request) (coll : collection)
  (f : qs) (sortBy : string) (cs : list clause) (x y : Q) (p l : Z) :
  parse_filter rt (queryStr_of (req_query req)) = Ok f ->
  sort_of rt (req_query req) = Ok sortBy ->
  names_fields sortBy = true ->
  cast_filter rt f = Ok cs ->
  page_of (req_query req) = Num x -> (x == inject_Z p)%Q -> 1 <= p ->
  limit_of (req_query req) = Num y -> (y == inject_Z l)%Q -> 1 <= l ->
  get_records rt req coll
  = Ok {| res_status := 200;
          res_body :=
            list_body rt
              (firstn (Z.to_nat l)
                 (skipn (Z.to_nat ((p - 1) * l))
                    (sort_documents sortBy (filter (matches cs) coll))))
              (List.length (filter (matches cs) coll)) |}.
Proof.
  intros Hf Hsort Hnames Hcast Hx Hxp Hp Hy Hyl Hl.
  assert (Hskip : truncate ((x - 1) * y) = (p - 1) * l).
  { apply truncate_integer. rewrite Hxp, Hyl.
    unfold Zminus. rewrite inject_Z_mult, inject_Z_plus, inject_Z_opp.
    reflexivity. }
  assert (Hlimit : truncate y = l) by (apply truncate_integer; exact Hyl).
  unfold get_records, build_query.
  rewrite Hf, Hsort. simpl.
  unfold Query_exec, sort_order. simpl. rewrite Hcast, Hnames. simpl.
  unfold apply_skip, apply_limit, skip_of. simpl. rewrite Hx, Hy. simpl.
  rewrite Hskip, Hlimit.
  assert (H1 : ((p - 1) * l <? 0) = false) by (apply Z.ltb_ge; nia).
  assert (H2 : (Z.abs l =? 0) = false) by (apply Z.eqb_neq; lia).
  rewrite H1, H2. simpl.
  unfold Model_countDocuments. rewrite Hcast. simpl.
  rewrite (Z.abs_eq l) by lia. reflexivity.
Qed.

(** The handler always has a filter to give to [find]. *)
Lemma parse_filter_total (q : ParsedQs) :
  exists f, parse_filter rt (queryStr_of q) = Ok f.
Proof.
  unfold parse_filter, queryStr_of.
  destruct (rewritten_text_parses
              (fold_left (fun o el => delete_key el o) excludedFields q))
    as [f Hf].
  exists f. rewrite Hf. reflexivity.
Qed.

(** C4, as the code has it. For a list request whose [page] and [limit]
    come out as whole numbers of at least 1, within the range in which
    JavaScript computes [(page-1)*limit] exactly, and whose sort is absent
    or a string that names its fields one by one, the handler reads a
    filter;
    when Mongoose casts it, the answer is 200 and carries the records of
    the filtered and sorted set from offset [(page-1)*limit] on, at most
    [limit] of them, their number as [results], and as [total] the number
    of all records the filter selects; it carries no [totalPages].  With
    no [page] the page is 1, with no [limit] the limit is 10, with no
    [sort] the sort is [-date]. *)
Theorem list_answer :
  forall (env : Env) (req : Request) (coll : collection)
         (sortBy : string) (x y : Q) (p l : Z),
    let q := req_query req in
    req_method req = "GET" ->
    req_path req = ["api"; "records"] ->
    sort_of rt q = Ok sortBy ->
    names_fields sortBy = true ->
    page_of q = Num x -> (x == inject_Z p)%Q -> 1 <= p ->
    limit_of q = Num y -> (y == inject_Z l)%Q -> 1 <= l ->
    safe_integer p -> safe_integer l -> safe_integer ((p - 1) * l) ->
    exists f,
      parse_filter rt (queryStr_of q) = Ok f /\
      (forall cs, cast_filter rt f = Ok cs ->
         let found := filter (matches cs) coll in
         let records :=
           firstn (Z.to_nat l)
                  (skipn (Z.to_nat ((p - 1) * l))
                         (sort_documents sortBy found)) in
         app rt env req coll
         = ({| res_status := 200;
               res_body := list_body rt records (List.length found) |}, coll) /\
         (List.length records <= Z.to_nat l)%nat /\
         prop "results" (list_body rt records (List.length found))
         = Some (VNat (List.length records)) /\
         prop "total" (list_body rt records (List.length found))
         = Some (VNat (List.length found)) /\
         prop "totalPages" (list_body rt records (List.length found)) = None) /\
      (assoc "page" q = None -> p = 1) /\
      (assoc "limit" q = None -> l = 10) /\
      (assoc "sort" q = None -> sortBy = "-date").
Proof.
  intros env req coll sortBy x y p l q Hm Hpath Hsort Hnames
         Hx Hxp Hp Hy Hyl Hl _ _ _.
  destruct (parse_filter_total q) as [f Hf].
  exists f. split; [exact Hf | split; [| split; [| split]]].
  - intros cs Hcast found records.
    split; [| split; [| split; [| split]]].
    + rewrite (app_get env req coll Hm Hpath).
      rewrite (get_records_page req coll f sortBy cs x y p l); try assumption.
      reflexivity.
    + apply firstn_at_most.
    + reflexivity.
    + reflexivity.
    + reflexivity.
  - intros Hnone. unfold page_of in Hx. rewrite Hnone in Hx. simpl in Hx.
    inversion Hx. subst x.
    unfold Qeq in Hxp. simpl in Hxp. lia.
  - intros Hnone. unfold limit_of in Hy. rewrite Hnone in Hy. simpl in Hy.
    inversion Hy. subst y.
    unfold Qeq in Hyl. simpl in Hyl. lia.
  - intros Hnone. unfold sort_of in Hsort. rewrite Hnone in Hsort.
    simpl in Hsort. inversion Hsort. reflexivity.
Qed.

(** *** The operator rewrite on a filter value *)

Lemma description_gt_filter :
  JSON_parse (queryStr_of (req_query get_description_gt))
  = Some (QObj [("description", QStr "$gt")]).
Proof. vm_compute. reflexivity. Qed.

(** C5, at the request [GET /api/records?description=gt]. The rewrite of
    the operators also reaches the value of the filter: the filter given to
    [find] asks for the description [$gt], so the answer lists the records
    whose description is [$gt], whatever the collection; a record whose
    description is [gt], the value the request names, is not selected. *)
Theorem description_gt_rewritten :
  forall (env : Env) (coll : collection),
    let asked := [Cond "description" CEq (FStr "gt")] in
    let used := [Cond "description" CEq (FStr "$gt")] in
    JSON_parse (queryStr_of (req_query get_description_gt))
    = Some (QObj [("description", QStr "$gt")]) /\
    cast_filter rt (QObj [("description", QStr "$gt")]) = Ok used /\
    app rt env get_description_gt coll
    = ({| res_status := 200;
          res_body :=
            list_body rt
              (firstn 10 (sort_documents "-date" (filter (matches used) coll)))
              (List.length (filter (matches used) coll)) |}, coll) /\
    matches asked record_gt = true /\
    matches used record_gt = false.
Proof.
  intros env coll asked used.
  split; [exact description_gt_filter |].
  split; [reflexivity |].
  split; [| split; reflexivity].
  rewrite (app_get env get_description_gt coll eq_refl eq_refl).
  rewrite (get_records_page get_description_gt coll
             (QObj [("description", QStr "$gt")]) "-date" used 1 10 1 10).
  - reflexivity.
  - unfold parse_filter. rewrite description_gt_filter. reflexivity.
  - reflexivity.
  - reflexivity.
  - reflexivity.
  - reflexivity.
  - reflexivity.
  - lia.
  - reflexivity.
  - reflexivity.
  - lia.
Qed.

(** *** The [$group] stage *)

Section Groups.

Context {K : Type} (eqb : K -> K -> bool) (key : Legacy.IncomeRecord -> K).

Hypothesis eqb_spec : forall a b, eqb a b = true <-> a = b.

Let ids (gs : list (Legacy.Group K)) : list K := map Legacy.g_id gs.

Lemma eqb_same (a : K) : eqb a a = true.
Proof. apply eqb_spec. reflexivity. Qed.

Lemma accumulate_ids (k : K) (x : Q) (gs : list (Legacy.Group K)) (k' : K) :
  In k' (ids (Legacy.accumulate eqb k x gs)) <-> k' = k \/ In k' (ids gs).
Proof.
  induction gs as [| g rest IH]; simpl.
  - split; [intros [H | []]; left; symmetry; exact H
           | intros [H | []]; left; symmetry; exact H].
  - destruct (eqb k (Legacy.g_id g)) eqn:Hk; simpl.
    + apply eqb_spec in Hk. rewrite <- Hk.
      split; [intros [H | H]; [left; symmetry; exact H | right; right; exact H]
             | intros [H | [H | H]];
               [left; symmetry; exact H | left; exact H | right; exact H]].
    + rewrite IH. tauto.
Qed.

Lemma accumulate_NoDup (k : K) (x : Q) (gs : list (Legacy.Group K)) :
  NoDup (ids gs) -> NoDup (ids (Legacy.accumulate eqb k x gs)).
Proof.
  induction gs as [| g rest IH]; simpl; intros Hnd.
  - constructor; [intros [] | constructor].
  - inversion Hnd as [| i l Hnotin Hrest]; subst.
    destruct (eqb k (Legacy.g_id g)) eqn:Hk; simpl.
    + apply eqb_spec in Hk. rewrite Hk. constructor; assumption.
    + constructor; [| apply IH; exact Hrest].
      intros Hin. apply accumulate_ids in Hin. destruct Hin as [H | H].
      * rewrite <- H, eqb_same in Hk. discriminate.
      * apply Hnotin. exact H.
Qed.

Lemma accumulate_total (k : K) (x : Q) (gs : list (Legacy.Group K)) (k' : K) :
  (Legacy.total_of eqb k' (Legacy.accumulate eqb k x gs)
   == Legacy.total_of eqb k' gs + (if eqb k' k then x else 0))%Q.
Proof.
  induction gs as [| g rest IH]; simpl.
  - destruct (eqb k' k); ring.
  - destruct (eqb k (Legacy.g_id g)) eqn:Hk; simpl.
    + apply eqb_spec in Hk. rewrite <- Hk.
      destruct (eqb k' k); ring.
    + rewrite IH. ring.
Qed.

Lemma accumulate_count (k : K) (x : Q) (gs : list (Legacy.Group K)) (k' : K) :
  Legacy.count_of eqb k' (Legacy.accumulate eqb k x gs)
  = (Legacy.count_of eqb k' gs + (if eqb k' k then 1 else 0))%nat.
Proof.
  induction gs as [| g rest IH]; simpl.
  - destruct (eqb k' k); reflexivity.
  - destruct (eqb k (Legacy.g_id g)) eqn:Hk; simpl.
    + apply eqb_spec in Hk. rewrite <- Hk.
      destruct (eqb k' k); lia.
    + rewrite IH. lia.
Qed.

Let step (gs : list (Legacy.Group K)) (d : Legacy.IncomeRecord) :=
  Legacy.accumulate eqb (key d) (Legacy.amount d) gs.

Let has_key (k : K) (d : Legacy.IncomeRecord) : bool := eqb k (key d).

Lemma fold_ids (docs : Legacy.collection) (gs : list (Legacy.Group K)) (k : K) :
  In k (ids (fold_left step docs gs))
  <-> In k (ids gs) \/ exists d, In d docs /\ key d = k.
Proof.
  revert gs. induction docs as [| d rest IH]; intros gs; simpl.
  - split; [intros H; left; exact H | intros [H | [d [[] _]]]; exact H].
  - rewrite IH. unfold step. rewrite accumulate_ids. split.
    + intros [[H | H] | [d' [Hin Hk]]].
      * right. exists d. split; [left; reflexivity | symmetry; exact H].
      * left. exact H.
      * right. exists d'. split; [right; exact Hin | exact Hk].
    + intros [H | [d' [[Heq | Hin] Hk]]].
      * left. right. exact H.
      * left. left. rewrite <- Hk, Heq. reflexivity.
      * right. exists d'. split; assumption.
Qed.

Lemma fold_NoDup (docs : Legacy.collection) (gs : list (Legacy.Group K)) :
  NoDup (ids gs) -> NoDup (ids (fold_left step docs gs)).
Proof.
  revert gs. induction docs as [| d rest IH]; intros gs Hnd; simpl.
  - exact Hnd.
  - apply IH. apply accumulate_NoDup. exact Hnd.
Qed.

Lemma fold_total (docs : Legacy.collection) (gs : list (Legacy.Group K)) (k : K) :
  (Legacy.total_of eqb k (fold_left step docs gs)
   == Legacy.total_of eqb k gs
      + Legacy.sum_amounts (filter (has_key k) docs))%Q.
Proof.
  revert gs. induction docs as [| d rest IH]; intros gs; simpl.
  - ring.
  - rewrite IH. unfold step. rewrite accumulate_total.
    unfold has_key. destruct (eqb k (key d)); simpl; ring.
Qed.

Lemma fold_count (docs : Legacy.collection) (gs : list (Legacy.Group K)) (k : K) :
  Legacy.count_of eqb k (fold_left step docs gs)
  = (Legacy.count_of eqb k gs + List.length (filter (has_key k) docs))%nat.
Proof.
  revert gs. induction docs as [| d rest IH]; intros gs; simpl.
  - lia.
  - rewrite IH. unfold step. rewrite accumulate_count.
    unfold has_key. destruct (eqb k (key d)); simpl; lia.
Qed.

Lemma total_of_absent (k : K) (gs : list (Legacy.Group K)) :
  ~ In k (ids gs) ->
  (Legacy.total_of eqb k gs == 0)%Q /\ Legacy.count_of eqb k gs = 0%nat.
Proof.
  induction gs as [| g rest IH]; simpl; intros Hno.
  - split; reflexivity.
  - destruct (eqb k (Legacy.g_id g)) eqn:Hk.
    + exfalso. apply Hno. left. apply eqb_spec in Hk. symmetry. exact Hk.
    + destruct IH as [Ht Hc]; [intros H; apply Hno; right; exact H |].
      split; [rewrite Ht; ring | rewrite Hc; reflexivity].
Qed.

Lemma total_of_member (g : Legacy.Group K) (gs : list (Legacy.Group K)) :
  NoDup (ids gs) -> In g gs ->
  (Legacy.total_of eqb (Legacy.g_id g) gs == Legacy.g_total g)%Q /\
  Legacy.count_of eqb (Legacy.g_id g) gs = Legacy.g_count g.
Proof.
  induction gs as [| a rest IH]; simpl; intros Hnd Hin; [contradiction |].
  inversion Hnd as [| i l Hnotin Hrest]; subst.
  destruct Hin as [-> | Hin].
  - rewrite eqb_same.
    destruct (total_of_absent _ _ Hnotin) as [Ht Hc].
    split; [rewrite Ht; ring | rewrite Hc; lia].
  - destruct (eqb (Legacy.g_id g) (Legacy.g_id a)) eqn:Hk.
    + exfalso. apply eqb_spec in Hk. apply Hnotin. rewrite <- Hk.
      apply in_map. exact Hin.
    + destruct (IH Hrest Hin) as [Ht Hc].
      split; [rewrite Ht; ring | rewrite Hc; reflexivity].
Qed.

(** What [$group] returns: one group for each key met, holding the sum and
    the number of the documents of that key. *)
Lemma group_by_spec (docs : Legacy.collection) :
  let gs := Legacy.group_by eqb key docs in
  NoDup (ids gs) /\
  (forall k, In k (ids gs) <-> exists d, In d docs /\ key d = k) /\
  (forall g, In g gs ->
     (Legacy.g_total g
      == Legacy.sum_amounts (filter (has_key (Legacy.g_id g)) docs))%Q /\
     Legacy.g_count g = List.length (filter (has_key (Legacy.g_id g)) docs)).
Proof.
  intros gs. unfold gs, Legacy.group_by.
  assert (Hnd : NoDup (ids (fold_left step docs []))).
  { apply fold_NoDup. constructor. }
  split; [exact Hnd | split].
  - intros k. split; intros H.
    + apply (fold_ids docs [] k) in H. destruct H as [[] | H]. exact H.
    + apply (fold_ids docs [] k). right. exact H.
  - intros g Hin.
    destruct (total_of_member g (fold_left step docs []) Hnd Hin) as [Ht Hc].
    pose proof (fold_total docs [] (Legacy.g_id g)) as Hft.
    pose proof (fold_count docs [] (Legacy.g_id g)) as Hfc.
    simpl in Hft, Hfc.
    split.
    + apply (Qeq_trans _ _ _ (Qeq_sym _ _ Ht)).
      apply (Qeq_trans _ _ _ Hft). ring.
    + rewrite <- Hc. exact Hfc.
Qed.

End Groups.

(** *** Rounding *)

Lemma round_half_even_comp (x y : Q) :
  (x == y)%Q -> Legacy.round_half_even x = Legacy.round_half_even y.
Proof.
  intros H. unfold Legacy.round_half_even.
  assert (Hf : Qfloor x = Qfloor y) by (apply Qfloor_comp; exact H).
  assert (Hc : Qcompare (x - inject_Z (Qfloor x)) (1 # 2)
               = Qcompare (y - inject_Z (Qfloor y)) (1 # 2)).
  { rewrite Hf. apply Qcompare_comp; [rewrite H |]; reflexivity. }
  rewrite Hc, Hf. reflexivity.
Qed.

Lemma round2_comp (x y : Q) : (x == y)%Q -> Legacy.round2 x = Legacy.round2 y.
Proof.
  intros H. unfold Legacy.round2.
  rewrite (round_half_even_comp (x * 100) (y * 100)); [reflexivity |].
  rewrite H. reflexivity.
Qed.

(** The rounded integer is within one half of the number. *)
Lemma round_half_even_close (q : Q) :
  (q - (1 # 2) <= inject_Z (Legacy.round_half_even q) <= q + (1 # 2))%Q.
Proof.
  unfold Legacy.round_half_even.
  pose proof (Qfloor_le q) as Hlo.
  pose proof (Qlt_floor q) as Hhi.
  rewrite inject_Z_plus in Hhi. change (inject_Z 1) with 1%Q in Hhi.
  destruct (Qcompare_spec (q - inject_Z (Qfloor q)) (1 # 2)) as [He | Hl | Hg].
  - destruct (Z.even (Qfloor q));
      [| rewrite inject_Z_plus; change (inject_Z 1) with 1%Q]; lra.
  - lra.
  - rewrite inject_Z_plus. change (inject_Z 1) with 1%Q. lra.
Qed.

(** [round2] is within half a hundredth of the number, and is a whole
    number of hundredths. *)
Lemma round2_close (x : Q) :
  (x - (1 # 200) <= Legacy.round2 x <= x + (1 # 200))%Q /\
  exists z : Z, (Legacy.round2 x * 100 == inject_Z z)%Q.
Proof.
  unfold Legacy.round2. split.
  - pose proof (round_half_even_close (x * 100)) as H.
    set (z := inject_Z (Legacy.round_half_even (x * 100))) in *.
    unfold Qdiv. change (/ 100)%Q with (1 # 100)%Q. lra.
  - exists (Legacy.round_half_even (x * 100)). field.
Qed.

(** *** The statistics *)

Lemma filter_all {A : Type} (l : list A) : filter (fun _ => true) l = l.
Proof.
  induction l as [| a r IH]; simpl; [reflexivity | rewrite IH; reflexivity].
Qed.

(** The first [$group], with the key [null], returns nothing for an empty
    collection and one group for any other. *)
Lemma whole_group (coll : Legacy.collection) :
  coll <> [] ->
  exists g,
    Legacy.group_by (fun _ _ : unit => true) (fun _ => tt) coll = [g] /\
    (Legacy.g_total g == Legacy.sum_amounts coll)%Q /\
    Legacy.g_count g = List.length coll.
Proof.
  intros Hne.
  destruct (group_by_spec (fun _ _ : unit => true) (fun _ => tt)
              (fun a b => conj (fun _ => match a, b with tt, tt => eq_refl end)
                               (fun _ => eq_refl)) coll)
    as [Hnd [Hids Hsum]].
  destruct (Legacy.group_by (fun _ _ : unit => true) (fun _ => tt) coll)
    as [| g [| g' rest]] eqn:Hg.
  - exfalso. destruct coll as [| d r]; [apply Hne; reflexivity |].
    apply (proj2 (Hids tt)). exists d. split; [left |]; reflexivity.
  - exists g. split; [reflexivity |].
    destruct (Hsum g (or_introl eq_refl)) as [Ht Hc].
    rewrite filter_all in Ht, Hc. split; assumption.
  - exfalso. simpl in Hnd. inversion Hnd as [| i l Hnotin _]; subst.
    apply Hnotin. left. destruct (Legacy.g_id g), (Legacy.g_id g'). reflexivity.
Qed.

Lemma category_eqb_eq (a b : option string) :
  Legacy.category_eqb a b = true <-> a = b.
Proof.
  destruct a as [x |], b as [y |]; simpl; split; intros H;
    try discriminate; try reflexivity.
  - apply String.eqb_eq in H. rewrite H. reflexivity.
  - inversion H. apply String.eqb_refl.
Qed.

Lemma total_desc_total (a b : Legacy.Group (option string)) :
  Legacy.total_desc a b = true \/ Legacy.total_desc b a = true.
Proof.
  unfold Legacy.total_desc.
  destruct (Qlt_le_dec (Legacy.g_total a) (Legacy.g_total b)) as [H | H].
  - right. apply Qle_bool_iff. apply Qlt_le_weak. exact H.
  - left. apply Qle_bool_iff. exact H.
Qed.

Lemma total_desc_trans (a b c : Legacy.Group (option string)) :
  Legacy.total_desc a b = true -> Legacy.total_desc b c = true ->
  Legacy.total_desc a c = true.
Proof.
  unfold Legacy.total_desc. rewrite !Qle_bool_iff. intros H1 H2.
  apply (Qle_trans _ _ _ H2 H1).
Qed.

Lemma StronglySorted_weaken {A : Type} (R S : A -> A -> Prop) (l : list A) :
  (forall a b, R a b -> S a b) -> StronglySorted R l -> StronglySorted S l.
Proof.
  intros Himp Hs. induction Hs as [| a l Hs IH Hall]; constructor.
  - exact IH.
  - apply (Forall_impl _ (Himp a) Hall).
Qed.

(** The second pipeline: the groups of [$group], one for each category
    met, in descending order of their totals. *)
Lemma category_groups_spec (coll : Legacy.collection) :
  let gs := Legacy.category_groups coll in
  NoDup (map Legacy.g_id gs) /\
  (forall c, In c (map Legacy.g_id gs)
             <-> exists d, In d coll /\ Legacy.category d = c) /\
  (forall g, In g gs ->
     (Legacy.g_total g
      == Legacy.sum_amounts (filter (Legacy.in_category (Legacy.g_id g)) coll))%Q /\
     Legacy.g_count g
     = List.length (filter (Legacy.in_category (Legacy.g_id g)) coll)) /\
  StronglySorted (fun a b => (Legacy.g_total b <= Legacy.g_total a)%Q) gs.
Proof.
  intros gs. unfold gs, Legacy.category_groups.
  destruct (group_by_spec Legacy.category_eqb Legacy.category
              category_eqb_eq coll) as [Hnd [Hids Hsum]].
  pose proof (sort_by_perm Legacy.total_desc
                (Legacy.group_by Legacy.category_eqb Legacy.category coll))
    as Hperm.
  split; [| split; [| split]].
  - apply (Permutation_NoDup (Permutation_sym (Permutation_map _ Hperm))).
    exact Hnd.
  - intros c. rewrite <- Hids. split; intros H.
    + apply (Permutation_in _ (Permutation_map _ Hperm)). exact H.
    + apply (Permutation_in _ (Permutation_sym (Permutation_map _ Hperm))).
      exact H.
  - intros g Hin. apply Hsum. apply (Permutation_in _ Hperm). exact Hin.
  - apply (StronglySorted_weaken (fun a b => Legacy.total_desc a b = true)).
    + intros a b H. apply Qle_bool_iff. exact H.
    + apply sort_by_sorted.
      * exact total_desc_total.
      * exact total_desc_trans.
Qed.

(** C6, as the code has it. For a collection that is not empty the
    statistics carry [count], the number of records, [totalAmount], the sum
    of their amounts, and [average], their quotient rounded to two
    decimals.  [categories] has one entry for each category met, with the
    sum and the number of the records of that category, in descending order
    of the sums; entries of equal sums come in no order of their names. *)
Theorem stats_answer :
  forall coll : Legacy.collection,
    let gs := Legacy.category_groups coll in
    let body := res_body (Legacy.get_stats coll) in
    let mean := (Legacy.sum_amounts coll
                 / inject_Z (Z.of_nat (List.length coll)))%Q in
    res_status (Legacy.get_stats coll) = 200%nat /\
    (coll <> [] ->
       exists t a,
         body = VObj [ ("totalAmount", VNum t);
                       ("count", VNat (List.length coll));
                       ("average", VNum a);
                       ("categories", VArr (map Legacy.category_json gs)) ] /\
         (t == Legacy.sum_amounts coll)%Q /\
         a = Legacy.round2 mean /\
         (mean - (1 # 200) <= a <= mean + (1 # 200))%Q /\
         (exists z : Z, (a * 100 == inject_Z z)%Q)) /\
    prop "categories" body = Some (VArr (map Legacy.category_json gs)) /\
    NoDup (map Legacy.g_id gs) /\
    (forall c, In c (map Legacy.g_id gs)
               <-> exists d, In d coll /\ Legacy.category d = c) /\
    (forall g, In g gs ->
       prop "total" (Legacy.category_json g) = Some (VNum (Legacy.g_total g)) /\
       prop "count" (Legacy.category_json g) = Some (VNat (Legacy.g_count g)) /\
       (Legacy.g_total g
        == Legacy.sum_amounts
             (filter (Legacy.in_category (Legacy.g_id g)) coll))%Q /\
       Legacy.g_count g
       = List.length (filter (Legacy.in_category (Legacy.g_id g)) coll)) /\
    StronglySorted (fun a b => (Legacy.g_total b <= Legacy.g_total a)%Q) gs.
Proof.
  intros coll gs body mean.
  destruct (category_groups_spec coll) as [Hnd [Hids [Hsum Hsorted]]].
  split; [reflexivity |].
  split; [| split; [| split; [exact Hnd | split; [exact Hids | split]]]].
  - intros Hne.
    destruct (whole_group coll Hne) as [g [Hg [Ht Hc]]].
    exists (Legacy.g_total g), (Legacy.round2 mean).
    split; [| split; [exact Ht | split; [reflexivity | apply round2_close]]].
    unfold body, Legacy.get_stats, Legacy.stats_body, Legacy.stats_pipeline.
    rewrite Hg. simpl. rewrite Hc.
    rewrite (round2_comp (Legacy.average_of g) mean); [reflexivity |].
    unfold Legacy.average_of, mean. rewrite Ht, Hc. reflexivity.
  - unfold body, Legacy.get_stats, Legacy.stats_body, Legacy.stats_pipeline.
    destruct (Legacy.group_by (fun _ _ : unit => true) (fun _ => tt) coll);
      reflexivity.
  - intros g Hin. destruct (Hsum g Hin) as [Ht Hc].
    repeat split; assumption.
  - exact Hsorted.
Qed.

(** *** The identifiers stay unique *)

Lemma existsb_has_id (i : ObjectId) (coll : collection) :
  existsb (has_id i) coll = false -> ~ In i (map _id coll).
Proof.
  intros Hno Hin. apply in_map_iff in Hin. destruct Hin as [r [Hid Hin]].
  assert (Hyes : existsb (has_id i) coll = true).
  { apply existsb_exists. exists r. split; [exact Hin |].
    apply has_id_true. exact Hid. }
  rewrite Hyes in Hno. discriminate.
Qed.

Lemma append_fresh (r : IncomeRecord) (coll : collection) :
  NoDup (map _id coll) -> ~ In (_id r) (map _id coll) ->
  NoDup (map _id (coll ++ [r])).
Proof.
  induction coll as [| a rest IH]; simpl; intros Hnd Hfresh.
  - constructor; [intros [] | constructor].
  - inversion Hnd as [| x l Hnotin Hrest]; subst.
    constructor.
    + rewrite map_app, in_app_iff. simpl. intros [H | [H | []]].
      * apply Hnotin. exact H.
      * apply Hfresh. left. symmetry. exact H.
    + apply IH; [exact Hrest |]. intros H. apply Hfresh. right. exact H.
Qed.

Lemma remove_first_subset (i : ObjectId) (coll : collection) (r : IncomeRecord) :
  In r (remove_first i coll) -> In r coll.
Proof.
  induction coll as [| a rest IH]; simpl; [intros [] |].
  destruct (has_id i a).
  - intros H. right. exact H.
  - intros [H | H]; [left; exact H | right; apply IH; exact H].
Qed.

Lemma remove_first_NoDup (i : ObjectId) (coll : collection) :
  NoDup (map _id coll) -> NoDup (map _id (remove_first i coll)).
Proof.
  induction coll as [| a rest IH]; simpl; intros Hnd; [exact Hnd |].
  inversion Hnd as [| x l Hnotin Hrest]; subst.
  destruct (has_id i a); simpl; [exact Hrest |].
  constructor; [| apply IH; exact Hrest].
  intros Hin. apply in_map_iff in Hin. destruct Hin as [r [Hid Hin]].
  apply Hnotin. apply in_map_iff. exists r.
  split; [exact Hid | apply (remove_first_subset i rest r Hin)].
Qed.

(** X24. Whatever the request, the application keeps the identifiers of
    the collection distinct: the unique index of [_id] is an invariant. *)
Lemma app_keeps_ids_unique (env : Env) (req : Request) (coll : collection) :
  NoDup (map _id coll) -> NoDup (map _id (snd (app rt env req coll))).
Proof.
  intros Hnd. unfold app.
  destruct (req_path req) as [| a [| b [| c [| d rest]]]]; try exact Hnd.
  - destruct (api_records a b && is_method "POST" req).
    + unfold post_records, Model_create, insertOne.
      destruct (new_document rt env (create_input env (req_body req)))
        as [r | e]; simpl; [| exact Hnd].
      destruct (existsb (has_id (_id r)) coll) eqn:Hfresh; simpl;
        [exact Hnd |].
      apply append_fresh; [exact Hnd | apply existsb_has_id; exact Hfresh].
    + destruct (api_records a b && (is_method "GET" req || is_method "HEAD" req));
        [| exact Hnd].
      destruct (get_records rt req coll); exact Hnd.
  - destruct (api_records a b && is_method "DELETE" req); [| exact Hnd].
    unfold delete_record, Model_findByIdAndDelete.
    destruct (castObjectId rt c) as [i |]; simpl; [| exact Hnd].
    destruct (find (has_id i) coll); simpl; [| exact Hnd].
    apply remove_first_NoDup. exact Hnd.
Qed.

(* ------------------------------------------------------------------ *)
(** ** Further properties of [server.js] *)

(** *** Trimming *)

Lemma drop_while_idem (p : ascii -> bool) (l : list ascii) :
  drop_while p (drop_while p l) = drop_while p l.
Proof.
  induction l as [| c r IH]; [reflexivity |].
  simpl. destruct (p c) eqn:Hc; [exact IH |].
  simpl. rewrite Hc. reflexivity.
Qed.

Lemma drop_while_head (p : ascii -> bool) (l : list ascii) (c : ascii)
  (r : list ascii) :
  drop_while p l = c :: r -> p c = false.
Proof.
  induction l as [| a l IH]; simpl; [discriminate |].
  destruct (p a) eqn:Ha; [exact IH |].
  intros H. inversion H. subst. exact Ha.
Qed.

Lemma drop_while_snoc (p : ascii -> bool) (l : list ascii) (c : ascii) :
  p c = false -> drop_while p (l ++ [c]) = drop_while p l ++ [c].
Proof.
  intros Hc. induction l as [| a l IH]; simpl.
  - rewrite Hc. reflexivity.
  - destruct (p a); [exact IH | reflexivity].
Qed.

Lemma trim_chars_idem (l : list ascii) :
  trim_chars (trim_chars l) = trim_chars l.
Proof.
  unfold trim_chars.
  destruct (drop_while is_space l) as [| c r] eqn:Hl; [reflexivity |].
  pose proof (drop_while_head _ _ _ _ Hl) as Hc.
  assert (Hfirst : rev (drop_while is_space (rev (c :: r)))
                   = c :: rev (drop_while is_space (rev r))).
  { cbn [rev]. rewrite (drop_while_snoc _ _ _ Hc), rev_app_distr.
    reflexivity. }
  rewrite Hfirst.
  assert (Hkeep : drop_while is_space (c :: rev (drop_while is_space (rev r)))
                  = c :: rev (drop_while is_space (rev r))).
  { cbn [drop_while]. rewrite Hc. reflexivity. }
  rewrite Hkeep. cbn [rev]. rewrite rev_involutive.
  rewrite (drop_while_snoc _ _ _ Hc), drop_while_idem, rev_app_distr.
  reflexivity.
Qed.

Lemma trim_idem (s : string) : trim (trim s) = trim s.
Proof.
  unfold trim. rewrite list_ascii_of_string_of_list_ascii, trim_chars_idem.
  reflexivity.
Qed.

(** *** What a create stores *)

Lemma validate_description_ok (v : option value) (d : string) :
  validate_description rt v = inl d ->
  exists s, castString rt v = Cast s /\ d = trim s /\
            d <> "" /\ (String.length d <= 100)%nat.
Proof.
  unfold validate_description.
  destruct (castString rt v) as [| s |]; try discriminate.
  destruct (String.eqb_spec (trim s) "") as [He | Hne]; [discriminate |].
  destruct (100 <? String.length (trim s))%nat eqn:Hlen; [discriminate |].
  intros H. inversion H. subst d. exists s.
  apply Nat.ltb_ge in Hlen. repeat split; assumption.
Qed.

Lemma validate_amount_ok (v : option value) (a : Q) :
  validate_amount rt v = inl a -> (0 <= a)%Q.
Proof.
  unfold validate_amount.
  destruct (castNumber v) as [| q |]; try discriminate.
  destruct (Qle_bool 0 q) eqn:Hle; [| discriminate].
  intros H. inversion H. subst a. apply Qle_bool_iff. exact Hle.
Qed.

Lemma new_document_within_schema (env : Env) (i : CreateInput)
  (r : IncomeRecord) :
  new_document rt env i = Ok r -> within_schema rt r.
Proof.
  intros Hn.
  destruct (new_document_ok env i r Hn)
    as [d [a [t [c [Hd [Ha [_ [Hc Hr]]]]]]]].
  destruct (validate_description_ok _ _ Hd) as [s [_ [Hs [Hne Hlen]]]].
  subst r. unfold within_schema. cbn [description amount category
                                        createdAt updatedAt document].
  repeat split.
  - exact Hne.
  - rewrite Hs. apply trim_idem.
  - exact Hlen.
  - apply (validate_amount_ok _ _ Ha).
  - destruct (validate_category_enum _ _ Hc) as [[x [Hx Hin]] | [Hx [_ Hnull]]];
      subst c; assumption.
Qed.

(** X1. Whatever the request, the records of the collection stay within
    the schema: when every stored record has a trimmed, non-empty
    description of at most 100 characters, an amount of at least 0, a
    category of the enumeration and equal timestamps, so has every record
    stored after the request. *)
Theorem app_keeps_records_within_schema :
  forall (env : Env) (req : Request) (coll : collection),
    Forall (within_schema rt) coll ->
    Forall (within_schema rt) (snd (app rt env req coll)).
Proof.
  intros env req coll Hall. unfold app.
  destruct (req_path req) as [| a [| b [| c [| d rest]]]]; try exact Hall.
  - destruct (api_records a b && is_method "POST" req).
    + unfold post_records, Model_create, insertOne.
      destruct (new_document rt env (create_input env (req_body req)))
        as [r | e] eqn:Hn; simpl; [| exact Hall].
      destruct (existsb (has_id (_id r)) coll); simpl; [exact Hall |].
      apply Forall_app. split; [exact Hall |].
      constructor; [| constructor].
      apply (new_document_within_schema env _ r Hn).
    + destruct (api_records a b && (is_method "GET" req || is_method "HEAD" req));
        [| exact Hall].
      destruct (get_records rt req coll); exact Hall.
  - destruct (api_records a b && is_method "DELETE" req); [| exact Hall].
    unfold delete_record, Model_findByIdAndDelete.
    destruct (castObjectId rt c) as [i |]; simpl; [| exact Hall].
    destruct (find (has_id i) coll); simpl; [| exact Hall].
    apply Forall_forall. intros r Hr.
    apply (proj1 (Forall_forall _ _) Hall).
    apply (remove_first_subset i coll r Hr).
Qed.
(** *** Routes, answers and what a request can change *)

Lemma api_records_spec (a b : string) :
  api_records a b = true <-> lowercase a = "api" /\ lowercase b = "records".
Proof.
  unfold api_records, same_segment. rewrite andb_true_iff.
  change (lowercase "api") with "api".
  change (lowercase "records") with "records".
  split; intros [Ha Hb]; split; apply String.eqb_eq; assumption.
Qed.

Lemma is_method_true (m : string) (req : Request) :
  is_method m req = true -> req_method req = m.
Proof. unfold is_method. apply String.eqb_eq. Qed.

Lemma ValidationError_plain (errs : list fieldError) :
  plain (ValidationError errs).
Proof. split; reflexivity. Qed.

Lemma post_records_plain (env : Env) (req : Request) (coll : collection)
  (e : Error) :
  post_records rt env req coll = Throw e -> plain e.
Proof.
  unfold post_records, Model_create, insertOne. intros H.
  destruct (new_document rt env (create_input env (req_body req)))
    as [r | e'] eqn:Hn; simpl in H.
  - destruct (existsb (has_id (_id r)) coll); simpl in H; plain_throw.
  - inversion H. subst e'.
    destruct (new_document_throws env _ e Hn) as [errs [He _]].
    rewrite He. apply ValidationError_plain.
Qed.

Lemma delete_record_plain (id : string) (coll : collection) (e : Error) :
  delete_record rt id coll = Throw e -> plain e.
Proof.
  unfold delete_record, Model_findByIdAndDelete. intros H.
  destruct (castObjectId rt id) as [i |]; simpl in H; [| plain_throw].
  destruct (find (has_id i) coll); simpl in H; plain_throw.
Qed.

(** What a create that is answered has done. *)
Lemma post_records_created (env : Env) (req : Request) (coll : collection)
  (res : Response) (coll' : collection) :
  post_records rt env req coll = Ok (res, coll') ->
  exists r,
    new_document rt env (create_input env (req_body req)) = Ok r /\
    existsb (has_id (fresh env)) coll = false /\
    _id r = fresh env /\ createdAt r = stamp env /\ updatedAt r = stamp env /\
    res = {| res_status := 201; res_body := created_body rt r |} /\
    coll' = coll ++ [r].
Proof.
  unfold post_records, Model_create, insertOne.
  destruct (new_document rt env (create_input env (req_body req)))
    as [r | e] eqn:Hn; simpl; [| discriminate].
  destruct (new_document_ok env _ r Hn) as [d [a [t [c [_ [_ [_ [_ Hr]]]]]]]].
  assert (Hid : _id r = fresh env) by (rewrite Hr; reflexivity).
  rewrite Hid.
  destruct (existsb (has_id (fresh env)) coll) eqn:Hfresh; simpl;
    [discriminate |].
  intros H. inversion H. exists r.
  repeat split; try reflexivity; try assumption; rewrite Hr; reflexivity.
Qed.

(** What a delete that is answered has done. *)
Lemma delete_record_answered (id : string) (coll : collection)
  (res : Response) (coll' : collection) :
  delete_record rt id coll = Ok (res, coll') ->
  exists i, castObjectId rt id = Some i /\
    ((res = record_deleted /\ In i (map _id coll) /\
      coll' = remove_first i coll) \/
     (res = record_missing /\ coll' = coll)).
Proof.
  unfold delete_record, Model_findByIdAndDelete.
  destruct (castObjectId rt id) as [i |]; simpl; [| discriminate].
  destruct (find (has_id i) coll) as [r |] eqn:Hf; simpl;
    intros H; inversion H; exists i; split; try reflexivity.
  - left. repeat split.
    apply find_some in Hf. destruct Hf as [Hin Hid].
    apply in_map_iff. exists r. split; [apply has_id_true; exact Hid | exact Hin].
  - right. split; reflexivity.
Qed.

Lemma settle_throw (coll : collection) (e : Error) :
  plain e ->
  settle coll (Throw e)
  = ({| res_status := 500;
        res_body := VObj [ ("status", VStr "error");
                           ("message", VStr (message e)) ] |}, coll).
Proof.
  intros He. simpl. rewrite (error_middleware_plain e He). reflexivity.
Qed.

(** The application, route by route. *)
Lemma app_cases (env : Env) (req : Request) (coll : collection) :
  (~ routed req /\ app rt env req coll = (not_found req, coll)) \/
  (records_route req /\ req_method req = "POST" /\
   app rt env req coll = settle coll (post_records rt env req coll)) \/
  (records_route req /\
   (req_method req = "GET" \/ req_method req = "HEAD") /\
   app rt env req coll
   = settle coll (r <- get_records rt req coll ;; Ok (r, coll))) \/
  (exists id, record_route req id /\
              req_method req = "DELETE" /\
              app rt env req coll = settle coll (delete_record rt id coll)).
Proof.
  unfold app, routed, records_route, record_route.
  destruct (req_path req) as [| a [| b [| c [| d rest]]]];
    try (left; split; [| reflexivity];
         intros [[[a' [b' [H _]]] _] | [id [[a' [b' [H _]]] _]]];
         discriminate H).
  - destruct (api_records a b) eqn:Hab.
    + destruct (is_method "POST" req) eqn:Hpost.
      * right. left. split; [exists a, b; split; [reflexivity | exact Hab] |].
        split; [apply is_method_true; exact Hpost | reflexivity].
      * destruct (is_method "GET" req) eqn:Hget.
        { right. right. left.
          split; [exists a, b; split; [reflexivity | exact Hab] |].
          split; [left; apply is_method_true; exact Hget | reflexivity]. }
        destruct (is_method "HEAD" req) eqn:Hhead.
        { right. right. left.
          split; [exists a, b; split; [reflexivity | exact Hab] |].
          split; [right; apply is_method_true; exact Hhead | reflexivity]. }
        left. split; [| reflexivity].
        unfold is_method in Hpost, Hget, Hhead.
        apply String.eqb_neq in Hpost, Hget, Hhead.
        intros [[_ [H | [H | H]]] | [id [[a' [b' [H _]]] _]]];
          [contradiction | contradiction | contradiction | discriminate H].
    + left. split; [| reflexivity].
      intros [[[a' [b' [H Hab']]] _] | [id [[a' [b' [H _]]] _]]];
        [| discriminate H].
      inversion H. subst. rewrite Hab in Hab'. discriminate Hab'.
  - destruct (api_records a b) eqn:Hab.
    + destruct (is_method "DELETE" req) eqn:Hdel.
      * right. right. right. exists c.
        split; [exists a, b; split; [reflexivity | exact Hab] |].
        split; [apply is_method_true; exact Hdel | reflexivity].
      * left. split; [| reflexivity].
        unfold is_method in Hdel. apply String.eqb_neq in Hdel.
        intros [[[a' [b' [H _]]] _] | [id [_ H]]];
          [discriminate H | contradiction].
    + left. split; [| reflexivity].
      intros [[[a' [b' [H _]]] _] | [id [[a' [b' [H Hab']]] _]]];
        [discriminate H |].
      inversion H. subst. rewrite Hab in Hab'. discriminate Hab'.
Qed.

(** X2. A request changes the collection in two ways only.  Either it is
    a create answered 201, and one record is appended, with the fresh
    identifier, which no stored record had, and the time of the request as
    its creation time; or it is a delete answered 204, and the record with
    the identifier of the path, which was stored, is taken out.  Under
    every other answer the collection is as it was; no request modifies a
    stored record.  The path of a create is [/api/records] and the path of
    a delete [/api/records/:id] as Express reads them, whatever the case
    of their letters. *)
Theorem app_changes_by_create_or_delete_only :
  forall (env : Env) (req : Request) (coll : collection),
    let res := fst (app rt env req coll) in
    let coll' := snd (app rt env req coll) in
    (res_status res = 201%nat /\ req_method req = "POST" /\
     records_route req /\
     exists r, coll' = coll ++ [r] /\ _id r = fresh env /\
               createdAt r = stamp env /\
               ~ In (fresh env) (map _id coll))
    \/
    (res_status res = 204%nat /\ req_method req = "DELETE" /\
     exists id i, record_route req id /\
                  castObjectId rt id = Some i /\
                  In i (map _id coll) /\
                  coll' = remove_first i coll)
    \/
    (res_status res <> 201%nat /\ res_status res <> 204%nat /\ coll' = coll).
Proof.
  intros env req coll res coll'. subst res coll'.
  destruct (app_cases env req coll)
    as [[_ H] | [[Hp [Hm H]] | [[Hp [Hm H]] | [id [Hp [Hm H]]]]]];
    rewrite H; clear H.
  - right. right. repeat split; discriminate.
  - destruct (post_records rt env req coll) as [[res coll'] | e] eqn:Hpost.
    + left.
      destruct (post_records_created env req coll res coll' Hpost)
        as [r [_ [Hfresh [Hid [Hc [_ [Hres Hcoll]]]]]]].
      simpl. subst res.
      split; [reflexivity | split; [exact Hm | split; [exact Hp |]]].
      exists r. repeat split; try assumption.
      apply existsb_has_id. exact Hfresh.
    + right. right.
      rewrite (settle_throw coll e (post_records_plain env req coll e Hpost)).
      repeat split; discriminate.
  - right. right.
    destruct (get_records rt req coll) as [res | e] eqn:Hget.
    + simpl. unfold get_records in Hget.
      destruct (build_query rt (req_query req)); simpl in Hget;
        [| discriminate].
      destruct (Query_exec rt _ coll); simpl in Hget; [| discriminate].
      destruct (parse_filter rt _); simpl in Hget; [| discriminate].
      destruct (Model_countDocuments rt _ coll); simpl in Hget;
        [| discriminate].
      inversion Hget. repeat split; discriminate.
    + change (r <- Throw e ;; Ok (r, coll)) with (@Throw (Response * collection) e).
      rewrite (settle_throw coll e (get_records_plain req coll e Hget)).
      repeat split; discriminate.
  - destruct (delete_record rt id coll) as [[res coll'] | e] eqn:Hdel.
    + destruct (delete_record_answered id coll res coll' Hdel)
        as [i [Hcast [[Hres [Hin Hcoll]] | [Hres Hcoll]]]]; simpl; subst res.
      * right. left.
        split; [reflexivity | split; [exact Hm |]].
        exists id, i. repeat split; assumption.
      * right. right. repeat split; try discriminate. exact Hcoll.
    + right. right.
      rewrite (settle_throw coll e (delete_record_plain id coll e Hdel)).
      repeat split; discriminate.
Qed.

Lemma get_records_status (req : Request) (coll : collection) (res : Response) :
  get_records rt req coll = Ok res -> res_status res = 200%nat.
Proof.
  unfold get_records. intros Hget.
  destruct (build_query rt (req_query req)); simpl in Hget; [| discriminate].
  destruct (Query_exec rt _ coll); simpl in Hget; [| discriminate].
  destruct (parse_filter rt _); simpl in Hget; [| discriminate].
  destruct (Model_countDocuments rt _ coll); simpl in Hget; [| discriminate].
  inversion Hget. reflexivity.
Qed.

Lemma app_status_cases (env : Env) (req : Request) (coll : collection) :
  let s := res_status (fst (app rt env req coll)) in
  (s = 200 \/ s = 201 \/ s = 204 \/ s = 404 \/ s = 500)%nat /\
  (s = 200%nat -> records_route req /\
                  (req_method req = "GET" \/ req_method req = "HEAD")) /\
  (s = 201%nat -> records_route req /\ req_method req = "POST") /\
  (s = 204%nat -> exists id, record_route req id /\
                             req_method req = "DELETE") /\
  (~ routed req -> app rt env req coll = (not_found req, coll)).
Proof.
  intros s. subst s.
  destruct (app_cases env req coll)
    as [[Hno H] | [[Hp [Hm H]] | [[Hp [Hm H]] | [id [Hp [Hm H]]]]]];
    rewrite H; clear H.
  - simpl. repeat split; try discriminate. tauto.
  - assert (Hr : routed req) by (left; split; [exact Hp | tauto]).
    destruct (post_records rt env req coll) as [[res coll'] | e] eqn:Hpost.
    + destruct (post_records_created env req coll res coll' Hpost)
        as [r [_ [_ [_ [_ [_ [Hres _]]]]]]].
      subst res. simpl.
      repeat split; try discriminate; try assumption; try tauto.
    + rewrite (settle_throw coll e (post_records_plain env req coll e Hpost)).
      simpl. repeat split; try discriminate; try tauto.
  - assert (Hr : routed req) by (left; split; [exact Hp | tauto]).
    destruct (get_records rt req coll) as [res | e] eqn:Hget.
    + simpl. rewrite (get_records_status req coll res Hget).
      repeat split; try discriminate; try assumption; try tauto.
    + change (r <- Throw e ;; Ok (r, coll)) with (@Throw (Response * collection) e).
      rewrite (settle_throw coll e (get_records_plain req coll e Hget)).
      simpl. repeat split; try discriminate; try tauto.
  - assert (Hr : routed req) by (right; exists id; split; assumption).
    destruct (delete_record rt id coll) as [[res coll'] | e] eqn:Hdel.
    + destruct (delete_record_answered id coll res coll' Hdel)
        as [i [_ [[Hres _] | [Hres _]]]]; simpl; subst res; simpl;
        repeat split; try discriminate; try tauto.
      intros _. exists id. split; assumption.
    + rewrite (settle_throw coll e (delete_record_plain id coll e Hdel)).
      simpl. repeat split; try discriminate; try tauto.
Qed.

(** X3. The routes and their handlers, reached with a parsed body and a
    path without percent-escapes, answer with 200, 201, 204, 404 or 500 and
    no other status, so no failure of a handler is answered 400: 200 only
    to a [GET] or [HEAD] of [/api/records], 201 only to a [POST] of
    [/api/records], 204 only to a [DELETE] of [/api/records/:id], the paths
    being read as Express reads them, without regard to the case of the
    letters of [api] and [records].  A request outside these three routes, such as a [GET],
    [PUT] or [PATCH] of [/api/records/:id], reaches the catch-all handler:
    404, status "fail" and a message that names the URL.  (The CORS
    middleware, the body parser and the rate limiter stand before the
    routes and answer on their own.) *)
Theorem app_status_by_route :
  forall (env : Env) (req : Request) (coll : collection),
    let s := res_status (fst (app rt env req coll)) in
    (s = 200 \/ s = 201 \/ s = 204 \/ s = 404 \/ s = 500)%nat /\
    (s = 200%nat -> records_route req /\
                    (req_method req = "GET" \/ req_method req = "HEAD")) /\
    (s = 201%nat -> records_route req /\ req_method req = "POST") /\
    (s = 204%nat -> exists id, record_route req id /\
                               req_method req = "DELETE") /\
    (~ routed req ->
       app rt env req coll
       = ({| res_status := 404;
             res_body :=
               VObj [ ("status", VStr "fail");
                      ("message",
                       VStr ("Can't find " ++ req_originalUrl req
                               ++ " on this server!")) ] |}, coll)) /\
    (forall a b, api_records a b = true <->
                 lowercase a = "api" /\ lowercase b = "records").
Proof.
  intros env req coll s.
  destruct (app_status_cases env req coll) as [H1 [H2 [H3 [H4 H5]]]].
  split; [exact H1 |].
  split; [exact H2 |].
  split; [exact H3 |].
  split; [exact H4 |].
  split; [exact H5 | apply api_records_spec].
Qed.

(** *** More on create and delete *)

Lemma validate_description_string (s : string) :
  validate_description rt (Some (VStr s))
  = if String.eqb (trim s) ""
    then inr ("description", "Description is required")
    else if (100 <? String.length (trim s))%nat
         then inr ("description", "Description cannot exceed 100 characters")
         else inl (trim s).
Proof. reflexivity. Qed.

Lemma app_post_refused (env : Env) (req : Request) (coll : collection)
  (fe : fieldError) :
  req_method req = "POST" ->
  req_path req = ["api"; "records"] ->
  In fe (errors_of (validate_description rt (prop "description" (req_body req)))
         ++ errors_of (validate_amount rt (prop "amount" (req_body req)))
         ++ errors_of (validate_date rt (or_now env (prop "date" (req_body req))))
         ++ errors_of (validate_category rt (prop "category" (req_body req)))) ->
  exists errs,
    In fe errs /\
    app rt env req coll
    = ({| res_status := 500;
          res_body := VObj [ ("status", VStr "error");
                             ("message", VStr (validation_message errs)) ] |},
       coll).
Proof.
  intros Hm Hp Hin.
  destruct (new_document_rejects env (create_input env (req_body req)) fe Hin)
    as [errs [Hn Hfe]].
  exists errs. split; [exact Hfe |].
  rewrite (app_post_rejected env req coll errs Hm Hp Hn). reflexivity.
Qed.

(** X4. The description of a create is stored trimmed, and its two
    validators see the trimmed text: a description of white space only is
    refused as missing, one of more than 100 characters after trimming is
    refused as too long (both answered 500, nothing stored), and any other
    is stored without the white space at its ends. *)
Theorem create_trims_description :
  forall (env : Env) (req : Request) (coll : collection) (s : string),
    req_method req = "POST" ->
    req_path req = ["api"; "records"] ->
    prop "description" (req_body req) = Some (VStr s) ->
    (trim s = "" ->
       exists errs,
         In ("description", "Description is required") errs /\
         app rt env req coll
         = ({| res_status := 500;
               res_body := VObj [ ("status", VStr "error");
                                  ("message",
                                   VStr (validation_message errs)) ] |}, coll))
    /\
    ((100 < String.length (trim s))%nat ->
       exists errs,
         In ("description", "Description cannot exceed 100 characters") errs /\
         app rt env req coll
         = ({| res_status := 500;
               res_body := VObj [ ("status", VStr "error");
                                  ("message",
                                   VStr (validation_message errs)) ] |}, coll))
    /\
    (trim s <> "" -> (String.length (trim s) <= 100)%nat ->
       forall (a : Q) (t : Z) (c : option string),
         validate_amount rt (prop "amount" (req_body req)) = inl a ->
         validate_date rt (or_now env (prop "date" (req_body req))) = inl t ->
         validate_category rt (prop "category" (req_body req)) = inl c ->
         existsb (has_id (fresh env)) coll = false ->
         app rt env req coll
         = ({| res_status := 201;
               res_body := created_body rt (document env (trim s) a t c) |},
            coll ++ [document env (trim s) a t c])).
Proof.
  intros env req coll s Hm Hp Hd.
  split; [| split].
  - intros Hempty.
    apply (app_post_refused env req coll _ Hm Hp).
    rewrite Hd, validate_description_string, Hempty. left. reflexivity.
  - intros Hlong.
    apply (app_post_refused env req coll _ Hm Hp).
    rewrite Hd, validate_description_string.
    apply Nat.ltb_lt in Hlong. rewrite Hlong.
    destruct (String.eqb_spec (trim s) "") as [He | _].
    + rewrite He in Hlong. discriminate Hlong.
    + left. reflexivity.
  - intros Hne Hlen a t c Ha Ht Hc Hfresh.
    apply app_post_accepted; try assumption.
    rewrite Hd, validate_description_string.
    destruct (String.eqb_spec (trim s) "") as [He | _]; [contradiction |].
    apply Nat.ltb_ge in Hlen. rewrite Hlen. reflexivity.
Qed.

(** X5. The date of a create. When the body has no [date], or one that is
    falsy ([null], [false], 0 or the empty string), the record is stored
    with the time of the request: the number 0 does not give the date of
    the epoch.  A truthy
    [date] is cast by Mongoose, and one that cannot be cast is refused on
    the [date] path, answered 500, nothing stored. *)
Theorem create_date_or_now :
  forall (env : Env) (req : Request) (coll : collection),
    req_method req = "POST" ->
    req_path req = ["api"; "records"] ->
    (forall (d : string) (a : Q) (c : option string),
        validate_description rt (prop "description" (req_body req)) = inl d ->
        validate_amount rt (prop "amount" (req_body req)) = inl a ->
        validate_category rt (prop "category" (req_body req)) = inl c ->
        existsb (has_id (fresh env)) coll = false ->
        (prop "date" (req_body req) = None \/
         exists v, prop "date" (req_body req) = Some v /\ truthy v = false) ->
        app rt env req coll
        = ({| res_status := 201;
              res_body := created_body rt (document env d a (now env) c) |},
           coll ++ [document env d a (now env) c]))
    /\
    (forall (d : string) (a : Q) (c : option string) (v : value) (t : Z),
        validate_description rt (prop "description" (req_body req)) = inl d ->
        validate_amount rt (prop "amount" (req_body req)) = inl a ->
        validate_category rt (prop "category" (req_body req)) = inl c ->
        existsb (has_id (fresh env)) coll = false ->
        prop "date" (req_body req) = Some v -> truthy v = true ->
        (forall t', v <> VDate t') -> castDate rt v = Some t ->
        app rt env req coll
        = ({| res_status := 201;
              res_body := created_body rt (document env d a t c) |},
           coll ++ [document env d a t c]))
    /\
    (forall v : value,
        prop "date" (req_body req) = Some v -> truthy v = true ->
        (forall t', v <> VDate t') -> castDate rt v = None ->
        exists errs,
          In ("date", failure_message rt (CastFailure "date" v "date")) errs /\
          app rt env req coll
          = ({| res_status := 500;
                res_body := VObj [ ("status", VStr "error");
                                   ("message",
                                    VStr (validation_message errs)) ] |}, coll)).
Proof.
  intros env req coll Hm Hp.
  assert (Hcast : forall v, (forall t', v <> VDate t') ->
            validate_date rt v
            = match castDate rt v with
              | Some t => inl t
              | None => inr ("date",
                             failure_message rt (CastFailure "date" v "date"))
              end).
  { intros v Hv. destruct v; try reflexivity. exfalso. apply (Hv t). reflexivity. }
  split; [| split].
  - intros d a c Hd Ha Hc Hfresh Hdate.
    apply app_post_accepted; try assumption.
    destruct Hdate as [Hnone | [v [Hsome Hfalsy]]].
    + rewrite Hnone. reflexivity.
    + rewrite Hsome. unfold or_now. rewrite Hfalsy. reflexivity.
  - intros d a c v t Hd Ha Hc Hfresh Hsome Htruthy Hv Ht.
    apply app_post_accepted; try assumption.
    rewrite Hsome. unfold or_now. rewrite Htruthy.
    rewrite (Hcast v Hv), Ht. reflexivity.
  - intros v Hsome Htruthy Hv Ht.
    apply (app_post_refused env req coll _ Hm Hp).
    rewrite Hsome. unfold or_now. rewrite Htruthy.
    rewrite (Hcast v Hv), Ht.
    apply in_or_app. right. apply in_or_app. right.
    apply in_or_app. left. left. reflexivity.
Qed.

(** X6. A delete whose path parameter is no identifier fails in Mongoose's
    cast: it is answered 500 with the message of the cast error, and the
    collection is as it was. *)
Theorem delete_malformed_identifier :
  forall (env : Env) (req : Request) (raw : string) (coll : collection),
    req_method req = "DELETE" ->
    req_path req = ["api"; "records"; raw] ->
    castObjectId rt raw = None ->
    app rt env req coll
    = ({| res_status := 500;
          res_body :=
            VObj [ ("status", VStr "error");
                   ("message",
                    VStr (failure_message rt (ObjectIdFailure raw))) ] |},
       coll).
Proof.
  intros env req raw coll Hm Hp Hcast.
  rewrite (app_delete env req raw coll Hm Hp).
  unfold delete_record, Model_findByIdAndDelete. rewrite Hcast. reflexivity.
Qed.

Lemma find_appended (i : ObjectId) (coll : collection) (r : IncomeRecord) :
  existsb (has_id i) coll = false -> _id r = i ->
  find (has_id i) (coll ++ [r]) = Some r
  /\ remove_first i (coll ++ [r]) = coll.
Proof.
  intros Hno Hid. induction coll as [| a rest IH]; simpl.
  - rewrite (proj2 (has_id_true i r) Hid). split; reflexivity.
  - simpl in Hno. apply orb_false_iff in Hno. destruct Hno as [Ha Hrest].
    rewrite Ha. destruct (IH Hrest) as [Hf Hr]. rewrite Hf, Hr.
    split; reflexivity.
Qed.

(** X7. Create and delete undo each other: after a create answered 201, a
    delete of the identifier the new record was given is answered 204 and
    leaves the collection exactly as it was before the create. *)
Theorem create_then_delete_restores :
  forall (env env' : Env) (post del : Request) (raw : string)
         (coll : collection),
    req_method post = "POST" -> req_path post = ["api"; "records"] ->
    req_method del = "DELETE" -> req_path del = ["api"; "records"; raw] ->
    castObjectId rt raw = Some (fresh env) ->
    res_status (fst (app rt env post coll)) = 201%nat ->
    app rt env' del (snd (app rt env post coll)) = (record_deleted, coll).
Proof.
  intros env env' post del raw coll Hm Hp Hm' Hp' Hcast Hcreated.
  rewrite (app_post env post coll Hm Hp) in Hcreated |- *.
  destruct (post_records rt env post coll) as [[res coll'] | e] eqn:Hpost.
  - destruct (post_records_created env post coll res coll' Hpost)
      as [r [_ [Hfresh [Hid [_ [_ [_ Hcoll]]]]]]].
    simpl. subst coll'.
    rewrite (app_delete env' del raw _ Hm' Hp').
    unfold delete_record, Model_findByIdAndDelete. rewrite Hcast.
    destruct (find_appended (fresh env) coll r Hfresh Hid) as [Hf Hr].
    rewrite Hf. simpl. rewrite Hr. reflexivity.
  - rewrite (settle_throw coll e (post_records_plain env post coll e Hpost))
      in Hcreated.
    discriminate Hcreated.
Qed.
(** *** More on the list *)

(** What a list request that is answered 200 carries. *)
Lemma get_records_ok (req : Request) (coll : collection) (res : Response) :
  get_records rt req coll = Ok res ->
  exists f sortBy cs order docs,
    parse_filter rt (queryStr_of (req_query req)) = Ok f /\
    sort_of rt (req_query req) = Ok sortBy /\
    sort_order rt (Some sortBy) = Ok order /\
    cast_filter rt f = Ok cs /\
    finite_option rt "skip" (Some (skip_of (req_query req))) = Ok tt /\
    finite_option rt "limit" (Some (limit_of (req_query req))) = Ok tt /\
    apply_skip rt (Some (skip_of (req_query req)))
      (order (filter (matches cs) coll)) = Ok docs /\
    res = {| res_status := 200;
             res_body :=
               list_body rt
                 (apply_limit (Some (limit_of (req_query req))) docs)
                 (List.length (filter (matches cs) coll)) |}.
Proof.
  unfold get_records. intros H.
  destruct (build_query rt (req_query req)) as [qy | e] eqn:Hb;
    simpl in H; [| discriminate].
  destruct (build_query_ok _ _ Hb) as [f [sortBy [Hf [Hs Hqy]]]].
  subst qy. unfold Query_exec in H. cbn [q_sort q_filter q_skip q_limit] in H.
  destruct (cast_filter rt f) as [cs | e] eqn:Hc; cbn [bind] in H;
    [| discriminate].
  destruct (sort_order rt (Some sortBy)) as [order | e] eqn:Ho;
    cbn [bind] in H; [| discriminate].
  destruct (finite_option rt "skip" (Some (skip_of (req_query req))))
    as [[] | e] eqn:Hfs; cbn [bind] in H; [| discriminate].
  destruct (finite_option rt "limit" (Some (limit_of (req_query req))))
    as [[] | e] eqn:Hfl; cbn [bind] in H; [| discriminate].
  destruct (apply_skip rt (Some (skip_of (req_query req)))
              (order (filter (matches cs) coll)))
    as [docs | e] eqn:Hsk; cbn [bind] in H; [| discriminate].
  rewrite Hf in H. cbn [bind] in H.
  unfold Model_countDocuments in H. rewrite Hc in H. cbn [bind] in H.
  inversion H.
  exists f, sortBy, cs, order, docs. repeat split; assumption.
Qed.

(** The handler reads [req.query] through four of its parts. *)
Lemma get_records_reads (req1 req2 : Request) (coll : collection) :
  filter_part (req_query req1) = filter_part (req_query req2) ->
  assoc "sort" (req_query req1) = assoc "sort" (req_query req2) ->
  assoc "page" (req_query req1) = assoc "page" (req_query req2) ->
  assoc "limit" (req_query req1) = assoc "limit" (req_query req2) ->
  get_records rt req1 coll = get_records rt req2 coll.
Proof.
  intros Hf Hs Hp Hl.
  unfold get_records, build_query, skip_of, page_of, limit_of, sort_of,
    queryStr_of.
  change (fold_left (fun o el => delete_key el o) excludedFields
            (req_query req1)) with (filter_part (req_query req1)).
  change (fold_left (fun o el => delete_key el o) excludedFields
            (req_query req2)) with (filter_part (req_query req2)).
  rewrite Hf, Hs, Hp, Hl. reflexivity.
Qed.

Lemma delete_key_comm {A : Type} (a b : string) (o : list (string * A)) :
  delete_key a (delete_key b o) = delete_key b (delete_key a o).
Proof.
  induction o as [| [k v] r IH]; [reflexivity |].
  cbn [delete_key].
  destruct (String.eqb b k) eqn:Hb; destruct (String.eqb a k) eqn:Ha;
    cbn [delete_key]; rewrite ?Ha, ?Hb; try rewrite IH; reflexivity.
Qed.

Lemma assoc_delete_other {A : Type} (k k' : string) (o : list (string * A)) :
  k <> k' -> assoc k (delete_key k' o) = assoc k o.
Proof.
  intros Hne. induction o as [| [x v] r IH]; [reflexivity |].
  cbn [delete_key assoc].
  destruct (String.eqb_spec k' x) as [Hx | Hx].
  - subst x. destruct (String.eqb_spec k k') as [He | _]; [contradiction |].
    exact IH.
  - cbn [assoc]. rewrite IH. reflexivity.
Qed.

Lemma delete_key_idem {A : Type} (k : string) (o : list (string * A)) :
  delete_key k (delete_key k o) = delete_key k o.
Proof.
  induction o as [| [x v] r IH]; [reflexivity |].
  cbn [delete_key]. destruct (String.eqb k x) eqn:Hk; [exact IH |].
  cbn [delete_key]. rewrite Hk, IH. reflexivity.
Qed.

Lemma filter_part_fields (q : ParsedQs) :
  filter_part q = filter_part (delete_key "fields" q).
Proof.
  unfold filter_part, excludedFields. cbn [fold_left].
  rewrite (delete_key_comm "fields" "limit"
             (delete_key "sort" (delete_key "page" (delete_key "fields" q)))).
  rewrite (delete_key_comm "fields" "sort"
             (delete_key "page" (delete_key "fields" q))).
  rewrite (delete_key_comm "fields" "page" (delete_key "fields" q)).
  rewrite delete_key_idem.
  rewrite (delete_key_comm "fields" "limit"
             (delete_key "sort" (delete_key "page" q))).
  rewrite (delete_key_comm "fields" "sort" (delete_key "page" q)).
  rewrite (delete_key_comm "fields" "page" q).
  reflexivity.
Qed.

(** X8. The [fields] parameter is taken out of the filter and read nowhere
    else: two list requests whose query strings differ in [fields] only
    are answered alike.  The list has no projection. *)
Theorem fields_parameter_is_ignored :
  forall (env : Env) (req1 req2 : Request) (coll : collection),
    req_path req1 = ["api"; "records"] -> req_method req1 = "GET" ->
    req_path req2 = ["api"; "records"] -> req_method req2 = "GET" ->
    delete_key "fields" (req_query req1) = delete_key "fields" (req_query req2) ->
    app rt env req1 coll = app rt env req2 coll.
Proof.
  intros env req1 req2 coll Hp1 Hm1 Hp2 Hm2 Hsame.
  rewrite (app_get env req1 coll Hm1 Hp1), (app_get env req2 coll Hm2 Hp2).
  assert (Hk : forall k, k <> "fields" ->
                         assoc k (req_query req1) = assoc k (req_query req2)).
  { intros k Hne.
    rewrite <- (assoc_delete_other k "fields" (req_query req1) Hne),
      <- (assoc_delete_other k "fields" (req_query req2) Hne), Hsame.
    reflexivity. }
  rewrite (get_records_reads req1 req2 coll).
  - reflexivity.
  - rewrite (filter_part_fields (req_query req1)),
      (filter_part_fields (req_query req2)), Hsame. reflexivity.
  - apply Hk. discriminate.
  - apply Hk. discriminate.
  - apply Hk. discriminate.
Qed.

(** X9. The [total] of a list answer is the number of stored records the
    filter selects, whatever [page], [limit], [sort] and [fields] are: two
    list requests with the same filter part that are both answered carry
    the same [total], which is at most the size of the collection. *)
Theorem total_ignores_paging_and_sort :
  forall (req1 req2 : Request) (coll : collection) (res1 res2 : Response),
    filter_part (req_query req1) = filter_part (req_query req2) ->
    get_records rt req1 coll = Ok res1 ->
    get_records rt req2 coll = Ok res2 ->
    exists (f : qs) (cs : list clause),
      parse_filter rt (queryStr_of (req_query req1)) = Ok f /\
      cast_filter rt f = Ok cs /\
      prop "total" (res_body res1)
      = Some (VNat (List.length (filter (matches cs) coll))) /\
      prop "total" (res_body res2) = prop "total" (res_body res1) /\
      (List.length (filter (matches cs) coll) <= List.length coll)%nat.
Proof.
  intros req1 req2 coll res1 res2 Hsame H1 H2.
  destruct (get_records_ok req1 coll res1 H1)
    as [f1 [s1 [cs1 [o1 [d1 [Hf1 [_ [_ [Hc1 [_ [_ [_ Hr1]]]]]]]]]]]].
  destruct (get_records_ok req2 coll res2 H2)
    as [f2 [s2 [cs2 [o2 [d2 [Hf2 [_ [_ [Hc2 [_ [_ [_ Hr2]]]]]]]]]]]].
  assert (Hq : queryStr_of (req_query req2) = queryStr_of (req_query req1)).
  { unfold queryStr_of.
    change (fold_left (fun o el => delete_key el o) excludedFields
              (req_query req1)) with (filter_part (req_query req1)).
    change (fold_left (fun o el => delete_key el o) excludedFields
              (req_query req2)) with (filter_part (req_query req2)).
    rewrite Hsame. reflexivity. }
  rewrite Hq, Hf1 in Hf2. inversion Hf2. subst f2.
  rewrite Hc1 in Hc2. inversion Hc2. subst cs2.
  exists f1, cs1. subst res1 res2.
  repeat split; try assumption; try reflexivity.
  apply filter_length_le.
Qed.

(** *** The order of the list *)

Lemma before_newest (a b : IncomeRecord) :
  before (sort_keys "-date") a b = (date b <=? date a).
Proof.
  unfold before. cbn. unfold Z.leb.
  destruct (date b ?= date a); reflexivity.
Qed.

Lemma StronglySorted_skipn {A : Type} (R : A -> A -> Prop) (n : nat)
  (l : list A) :
  StronglySorted R l -> StronglySorted R (skipn n l).
Proof.
  revert l. induction n as [| n IH]; intros l Hs; [exact Hs |].
  destruct l as [| a l]; [exact Hs |].
  simpl. apply IH. apply (StronglySorted_inv Hs).
Qed.

Lemma in_firstn {A : Type} (n : nat) (l : list A) (x : A) :
  In x (firstn n l) -> In x l.
Proof.
  revert n. induction l as [| a l IH]; intros n H.
  - rewrite firstn_nil in H. exact H.
  - destruct n as [| n]; [destruct H |].
    destruct H as [H | H]; [left; exact H | right; apply (IH n H)].
Qed.

Lemma StronglySorted_firstn {A : Type} (R : A -> A -> Prop) (n : nat)
  (l : list A) :
  StronglySorted R l -> StronglySorted R (firstn n l).
Proof.
  revert n. induction l as [| a l IH]; intros n Hs.
  - rewrite firstn_nil. constructor.
  - destruct n as [| n]; [constructor |].
    destruct (StronglySorted_inv Hs) as [Hl Hall].
    simpl. constructor; [apply IH; exact Hl |].
    apply Forall_forall. intros x Hx.
    apply (proj1 (Forall_forall _ _) Hall).
    apply (in_firstn _ _ _ Hx).
Qed.

Lemma in_skipn {A : Type} (n : nat) (l : list A) (x : A) :
  In x (skipn n l) -> In x l.
Proof.
  revert l. induction n as [| n IH]; intros l H; [exact H |].
  destruct l as [| a l]; [exact H |].
  right. apply IH. exact H.
Qed.

Lemma apply_skip_ok (n : option number) (docs out : list IncomeRecord) :
  apply_skip rt n docs = Ok out ->
  0 <= integer_of n /\ out = skipn (Z.to_nat (integer_of n)) docs.
Proof.
  unfold apply_skip.
  destruct (integer_of n <? 0) eqn:Hneg; [discriminate |].
  intros H. inversion H. apply Z.ltb_ge in Hneg. split; [exact Hneg | reflexivity].
Qed.

Lemma apply_limit_window (n : option number) (docs : list IncomeRecord) :
  apply_limit n docs = docs \/
  apply_limit n docs = firstn (Z.to_nat (Z.abs (integer_of n))) docs.
Proof.
  unfold apply_limit.
  destruct (Z.abs (integer_of n) =? 0); [left | right]; reflexivity.
Qed.

(** X10. Without a [sort] parameter the list is ordered newest first:
    whenever such a request is answered 200, its records are stored
    records that the filter selects, in descending order of [date]. *)
Theorem default_order_is_newest_first :
  forall (req : Request) (coll : collection) (res : Response),
    qs_truthy (assoc "sort" (req_query req)) = false ->
    get_records rt req coll = Ok res ->
    exists (f : qs) (cs : list clause) (records : list IncomeRecord)
           (total : nat),
      parse_filter rt (queryStr_of (req_query req)) = Ok f /\
      cast_filter rt f = Ok cs /\
      res = {| res_status := 200; res_body := list_body rt records total |} /\
      StronglySorted (fun a b => date b <= date a) records /\
      (forall r, In r records -> In r coll /\ matches cs r = true).
Proof.
  intros req coll res Hsort Hget.
  destruct (get_records_ok req coll res Hget)
    as [f [sortBy [cs [order [docs
          [Hf [Hs [Ho [Hc [_ [_ [Hskip Hres]]]]]]]]]]]].
  unfold sort_of in Hs. rewrite Hsort in Hs. inversion Hs. subst sortBy.
  unfold sort_order in Ho.
  change (names_fields "-date") with true in Ho.
  inversion Ho. subst order.
  destruct (apply_skip_ok _ _ _ Hskip) as [_ Hdocs].
  set (found := filter (matches cs) coll) in *.
  assert (Hsorted : StronglySorted (fun a b => date b <= date a)
                      (sort_documents "-date" found)).
  { unfold sort_documents.
    apply (StronglySorted_weaken
             (fun a b => before (sort_keys "-date") a b = true)).
    - intros a b H. rewrite before_newest in H. apply Z.leb_le. exact H.
    - apply sort_by_sorted.
      + intros a b. rewrite !before_newest.
        destruct (Z.leb_spec (date b) (date a)); [left; reflexivity |].
        right. apply Z.leb_le. lia.
      + intros a b c. rewrite !before_newest. intros H1 H2.
        apply Z.leb_le in H1, H2. apply Z.leb_le. lia. }
  assert (Hin : forall r, In r (sort_documents "-date" found) ->
                          In r coll /\ matches cs r = true).
  { intros r Hr. unfold sort_documents in Hr.
    apply (Permutation_in _ (sort_by_perm _ found)) in Hr.
    apply filter_In in Hr. exact Hr. }
  exists f, cs. eexists. eexists.
  split; [exact Hf | split; [exact Hc | split; [exact Hres | split]]].
  - destruct (apply_limit_window (Some (limit_of (req_query req))) docs)
      as [-> | ->]; subst docs.
    + apply StronglySorted_skipn. exact Hsorted.
    + apply StronglySorted_firstn, StronglySorted_skipn. exact Hsorted.
  - intros r Hr. apply Hin.
    destruct (apply_limit_window (Some (limit_of (req_query req))) docs)
      as [Hl | Hl]; rewrite Hl in Hr; subst docs.
    + apply (in_skipn _ _ _ Hr).
    + apply (in_skipn _ _ _ (in_firstn _ _ _ Hr)).
Qed.
(** X11. A page is a window of the listing: for a sort that names its
    fields one by one and whole numbers [page] and [limit] of at least 1,
    within the range in which JavaScript computes [(page-1)*limit] exactly,
    record number [j] of the answer is record number [(page-1)*limit + j]
    of the filtered and sorted listing, the answer carries
    [min limit (total - (page-1)*limit)] records, and a page past the end
    is answered 200 with no record. *)
Theorem page_is_a_window_of_the_listing :
  forall (env : Env) (req : Request) (coll : collection)
         (f : qs) (sortBy : string) (cs : list clause) (x y : Q) (p l : Z),
    let q := req_query req in
    req_method req = "GET" ->
    req_path req = ["api"; "records"] ->
    parse_filter rt (queryStr_of q) = Ok f ->
    sort_of rt q = Ok sortBy ->
    names_fields sortBy = true ->
    cast_filter rt f = Ok cs ->
    page_of q = Num x -> (x == inject_Z p)%Q -> 1 <= p ->
    limit_of q = Num y -> (y == inject_Z l)%Q -> 1 <= l ->
    safe_integer p -> safe_integer l -> safe_integer ((p - 1) * l) ->
    let found := filter (matches cs) coll in
    let listing := sort_documents sortBy found in
    let offset := Z.to_nat ((p - 1) * l) in
    exists records : list IncomeRecord,
      app rt env req coll
      = ({| res_status := 200;
            res_body := list_body rt records (List.length found) |}, coll) /\
      Permutation listing found /\
      (forall j, (j < Z.to_nat l)%nat ->
                 nth_error records j = nth_error listing (offset + j)) /\
      List.length records
      = Nat.min (Z.to_nat l) (List.length found - offset) /\
      ((List.length found <= offset)%nat -> records = []).
Proof.
  intros env req coll f sortBy cs x y p l q Hm Hpath Hf Hsort Hnames Hcast
         Hx Hxp Hp Hy Hyl Hl _ _ _ found listing offset.
  exists (firstn (Z.to_nat l) (skipn offset listing)).
  assert (Hperm : Permutation listing found)
    by (unfold listing, sort_documents; apply sort_by_perm).
  assert (Hlen : List.length (firstn (Z.to_nat l) (skipn offset listing))
                 = Nat.min (Z.to_nat l) (List.length found - offset)).
  { rewrite length_firstn, length_skipn, (Permutation_length Hperm).
    reflexivity. }
  split; [| split; [exact Hperm | split; [| split; [exact Hlen |]]]].
  - rewrite (app_get env req coll Hm Hpath).
    rewrite (get_records_page req coll f sortBy cs x y p l); try assumption.
    reflexivity.
  - intros j Hj. rewrite nth_error_firstn, nth_error_skipn.
    apply Nat.ltb_lt in Hj. rewrite Hj. reflexivity.
  - intros Hpast. apply length_zero_iff_nil. rewrite Hlen. lia.
Qed.

(** X12. A [sort] parameter that is no string, as when the query string
    names [sort] twice or writes [sort[a]=b], has no [split]: the handler
    throws a [TypeError] and the request is answered 500. *)
Theorem sort_that_is_no_string_fails :
  forall (env : Env) (req : Request) (coll : collection) (v : qs),
    req_method req = "GET" ->
    req_path req = ["api"; "records"] ->
    assoc "sort" (req_query req) = Some v ->
    (forall s, v <> QStr s) ->
    app rt env req coll
    = ({| res_status := 500;
          res_body :=
            VObj [ ("status", VStr "error");
                   ("message",
                    VStr (failure_message rt
                            (NotAFunction "req.query.sort.split"))) ] |},
       coll).
Proof.
  intros env req coll v Hm Hp Hsort Hv.
  assert (Hget : get_records rt req coll
                 = Throw (library_error rt "TypeError"
                            (NotAFunction "req.query.sort.split"))).
  { unfold get_records, build_query.
    destruct (parse_filter_total (req_query req)) as [f Hf]. rewrite Hf.
    unfold sort_of. rewrite Hsort.
    destruct v as [s | items | fields]; [exfalso; apply (Hv s); reflexivity | |];
      reflexivity. }
  rewrite (app_get_throw env req coll _ Hm Hp Hget). reflexivity.
Qed.

(** *** The filter, value by value *)

Lemma verbatim_unescaped (c : ascii) :
  verbatim c = true -> escape_char c = [c].
Proof.
  destruct c as [b0 b1 b2 b3 b4 b5 b6 b7].
  destruct b0, b1, b2, b3, b4, b5, b6, b7; intros H;
    first [discriminate H | reflexivity].
Qed.

Lemma plain_unescaped (l : list ascii) :
  forallb verbatim l = true -> flat_map escape_char l = l.
Proof.
  induction l as [| c r IH]; [reflexivity |].
  cbn [forallb flat_map]. intros H.
  apply andb_true_iff in H. destruct H as [Hc Hr].
  rewrite (verbatim_unescaped c Hc), (IH Hr). reflexivity.
Qed.

Lemma replace_keeps_verbatim (pw : bool) (l : list ascii) :
  forallb verbatim l = true ->
  forallb verbatim (replace_operators pw l) = true.
Proof.
  revert pw. induction l as [| c r IH]; intros pw H; [reflexivity |].
  cbn [forallb] in H. apply andb_true_iff in H. destruct H as [Hc Hr].
  cbn [replace_operators].
  destruct (negb pw && operator_at (c :: r)); cbn [forallb];
    rewrite Hc, (IH (is_word c) Hr); reflexivity.
Qed.

Lemma parse_string_verbatim (l acc rest : list ascii) :
  forallb verbatim l = true ->
  parse_string acc (l ++ dquote :: rest)
  = Some (string_of_list_ascii (rev acc ++ l), rest).
Proof.
  revert acc. induction l as [| c r IH]; intros acc H.
  - rewrite app_nil_l, app_nil_r. reflexivity.
  - cbn [forallb] in H. apply andb_true_iff in H. destruct H as [Hc Hr].
    rewrite <- app_comm_cons, (parse_verbatim c acc _ Hc), (IH _ Hr).
    cbn [rev]. rewrite <- app_assoc. reflexivity.
Qed.

(** A string without escapes is read back as its own rewrite. *)
Lemma parse_literal_plain (s : string) (rest : list ascii) :
  plain_text s = true ->
  parse_string [] (replace_operators false
                     (flat_map escape_char (list_ascii_of_string s))
                   ++ dquote :: rest)
  = Some (replace_ops s, rest).
Proof.
  unfold plain_text, replace_ops. intros H.
  rewrite (plain_unescaped _ H).
  rewrite (parse_string_verbatim _ [] rest (replace_keeps_verbatim false _ H)).
  reflexivity.
Qed.

Lemma parse_elements_as (g : qs -> qs) (items : list qs) :
  items <> [] ->
  Forall (fun x => reads_as x (g x)) items ->
  forall fuel acc rest,
    (elements_size items <= fuel)%nat ->
    parse_elements fuel acc
      (commas (map rewritten items) ++ "]"%char :: rest)
    = Some (QArr (rev acc ++ map g items), rest).
Proof.
  intros Hne Hall. induction Hall as [| x r Hx Hr IH]; [contradiction |].
  destruct r as [| y r'].
  - intros fuel acc rest Hfuel.
    cbn [elements_size fold_right] in Hfuel.
    destruct fuel as [| fuel]; [lia |].
    cbn [map commas].
    rewrite (parse_elements_last fuel acc _ rest (g x)); [reflexivity |].
    apply Hx. lia.
  - intros fuel acc rest Hfuel.
    change (elements_size (x :: y :: r'))
      with (S (qs_size x + elements_size (y :: r'))) in Hfuel.
    destruct fuel as [| fuel]; [lia |].
    change (commas (map rewritten (x :: y :: r')))
      with (rewritten x ++ ","%char :: commas (map rewritten (y :: r'))).
    rewrite <- app_assoc, <- app_comm_cons.
    rewrite (parse_elements_more fuel acc _
               (commas (map rewritten (y :: r')) ++ "]"%char :: rest) (g x)).
    + rewrite IH by (try discriminate; lia).
      cbn [rev map]. rewrite <- app_assoc. reflexivity.
    + apply Hx. lia.
Qed.

Lemma parse_members_as (h : string -> string) (g : qs -> qs)
  (fields : list (string * qs)) :
  fields <> [] ->
  Forall (fun kv =>
            (forall rest,
                parse_string [] (replace_operators false
                                   (flat_map escape_char
                                      (list_ascii_of_string (fst kv)))
                                 ++ dquote :: rest)
                = Some (h (fst kv), rest)) /\
            reads_as (snd kv) (g (snd kv))) fields ->
  forall fuel acc rest,
    (members_size fields <= fuel)%nat ->
    parse_members fuel acc
      (commas (map (fun kv => literal (fst kv) ++ ":"%char
                                 :: rewritten (snd kv)) fields)
         ++ "}"%char :: rest)
    = Some (QObj (rev acc ++ map (fun kv => (h (fst kv), g (snd kv))) fields),
            rest).
Proof.
  intros Hne Hall.
  induction Hall as [| [k v] r [Hk Hv] Hr IH]; [contradiction |].
  cbn [fst snd] in Hk, Hv.
  destruct r as [| y r'].
  - intros fuel acc rest Hfuel.
    cbn [members_size fold_right snd] in Hfuel.
    destruct fuel as [| fuel]; [lia |].
    cbn [map commas fst snd]. unfold literal.
    right_nested.
    rewrite (parse_members_last fuel acc _ _ rest (h k) (g v) (Hk _));
      [reflexivity |].
    apply Hv. lia.
  - intros fuel acc rest Hfuel.
    change (members_size ((k, v) :: y :: r'))
      with (S (qs_size v + members_size (y :: r'))) in Hfuel.
    destruct fuel as [| fuel]; [lia |].
    set (f := fun kv : string * qs =>
                literal (fst kv) ++ ":"%char :: rewritten (snd kv)) in *.
    change (commas (map f ((k, v) :: y :: r')))
      with ((literal k ++ ":"%char :: rewritten v)
              ++ ","%char :: commas (map f (y :: r'))).
    unfold literal.
    right_nested.
    rewrite (parse_members_more fuel acc _ _
               (commas (map f (y :: r')) ++ "}"%char :: rest) (h k) (g v)
               (Hk _)).
    + rewrite IH by (try discriminate; lia).
      cbn [rev map fst snd]. rewrite <- app_assoc. reflexivity.
    + apply Hv. lia.
Qed.

(** A value is read back with each of its keys and strings read on its
    own. *)
Lemma value_reads_as (p : string -> bool) (h : string -> string) :
  (forall s rest,
      p s = true ->
      parse_string [] (replace_operators false
                         (flat_map escape_char (list_ascii_of_string s))
                       ++ dquote :: rest)
      = Some (h s, rest)) ->
  forall v, qs_forall p v = true -> reads_as v (qs_map h v).
Proof.
  intros Hread v.
  induction v as [s | items IH | fields IH] using qs_induction;
    intros Hplain.
  - cbn [qs_forall] in Hplain. intros fuel rest Hfuel.
    destruct fuel as [| fuel]; [cbn in Hfuel; lia |].
    cbn [rewritten qs_map]. unfold literal.
    right_nested.
    rewrite parse_value_string, (Hread s rest Hplain).
    reflexivity.
  - cbn [qs_forall] in Hplain.
    assert (Hall : Forall (fun x => reads_as x (qs_map h x)) items).
    { apply Forall_forall. intros x Hx.
      apply (proj1 (Forall_forall _ _) IH x Hx).
      apply (proj1 (forallb_forall _ _) Hplain x Hx). }
    destruct items as [| x r].
    + intros fuel rest Hfuel.
      destruct fuel as [| fuel]; [cbn in Hfuel; lia |].
      reflexivity.
    + intros fuel rest Hfuel.
      change (qs_size (QArr (x :: r))) with (S (elements_size (x :: r)))
        in Hfuel.
      destruct fuel as [| fuel]; [lia |].
      cbn [rewritten qs_map].
      right_nested.
      destruct (rewritten_opens x) as [c [t [Hc Hopen]]].
      assert (Hhead : exists t', commas (map rewritten (x :: r)) = c :: t').
      { destruct r as [| y r']; cbn [map commas]; rewrite Hc;
          eexists; reflexivity. }
      destruct Hhead as [t' Ht'].
      pose proof (parse_elements_as (qs_map h) (x :: r)
                    ltac:(discriminate) Hall fuel [] rest) as Hparse.
      rewrite Ht' in Hparse |- *. rewrite <- !app_comm_cons in Hparse |- *.
      rewrite (parse_value_array fuel c _ Hopen).
      apply Hparse. lia.
  - cbn [qs_forall] in Hplain.
    assert (Hall : Forall
              (fun kv : string * qs =>
                 (forall rest,
                     parse_string [] (replace_operators false
                                        (flat_map escape_char
                                           (list_ascii_of_string (fst kv)))
                                      ++ dquote :: rest)
                     = Some (h (fst kv), rest)) /\
                 reads_as (snd kv) (qs_map h (snd kv))) fields).
    { apply Forall_forall. intros kv Hkv.
      pose proof (proj1 (forallb_forall _ _) Hplain kv Hkv) as Hp.
      apply andb_true_iff in Hp. destruct Hp as [Hk Hv].
      split.
      - intros rest. apply Hread. exact Hk.
      - apply (proj1 (Forall_forall _ _) IH kv Hkv). exact Hv. }
    destruct fields as [| [k x] r].
    + intros fuel rest Hfuel.
      destruct fuel as [| fuel]; [cbn in Hfuel; lia |].
      reflexivity.
    + intros fuel rest Hfuel.
      change (qs_size (QObj ((k, x) :: r)))
        with (S (members_size ((k, x) :: r))) in Hfuel.
      destruct fuel as [| fuel]; [lia |].
      cbn [rewritten qs_map].
      right_nested.
      pose proof (parse_members_as h (qs_map h)
                    ((k, x) :: r) ltac:(discriminate) Hall fuel [] rest)
        as Hparse.
      set (f := fun kv : string * qs =>
                  literal (fst kv) ++ ":"%char :: rewritten (snd kv)) in *.
      assert (Hhead : exists t', commas (map f ((k, x) :: r)) = dquote :: t').
      { destruct r as [| y r']; cbn [map commas]; unfold f at 1, literal;
          cbn [fst]; rewrite <- !app_comm_cons; eexists; reflexivity. }
      destruct Hhead as [t' Ht'].
      rewrite Ht' in Hparse |- *. rewrite <- !app_comm_cons in Hparse |- *.
      rewrite (parse_value_object fuel dquote _ eq_refl).
      apply Hparse. lia.
Qed.

(** A value without escapes is read back with each of its keys and strings
    rewritten on its own. *)
Lemma plain_value_reads_as (v : qs) :
  qs_forall plain_text v = true -> reads_as v (qs_map replace_ops v).
Proof.
  apply (value_reads_as plain_text replace_ops).
  intros s rest Hs. apply parse_literal_plain. exact Hs.
Qed.

Lemma replace_ops_chars (s : string) :
  list_ascii_of_string (replace_ops s)
  = replace_operators false (list_ascii_of_string s).
Proof. unfold replace_ops. apply list_ascii_of_string_of_list_ascii. Qed.

Lemma JSON_parse_plain (o : ParsedQs) :
  qs_forall plain_text (QObj o) = true ->
  JSON_parse (replace_ops (JSON_stringify o))
  = Some (qs_map replace_ops (QObj o)).
Proof.
  intros Hplain.
  unfold JSON_parse, JSON_stringify.
  rewrite !replace_ops_chars, !list_ascii_of_string_of_list_ascii.
  pose proof (replace_stringify (QObj o) false []) as Hrep.
  rewrite app_nil_r in Hrep. cbn [replace_operators] in Hrep.
  rewrite app_nil_r in Hrep. rewrite Hrep.
  pose proof (plain_value_reads_as (QObj o) Hplain
                (S (List.length (rewritten (QObj o)))) []) as Hv.
  rewrite app_nil_r in Hv. rewrite Hv.
  - reflexivity.
  - pose proof (size_le_length (QObj o)). lia.
Qed.

Lemma qs_map_fixed (f : string -> string) (v : qs) :
  qs_forall (fun s => String.eqb (f s) s) v = true -> qs_map f v = v.
Proof.
  induction v as [s | items IH | fields IH] using qs_induction;
    cbn [qs_forall qs_map]; intros H.
  - apply String.eqb_eq in H. rewrite H. reflexivity.
  - f_equal. induction items as [| x r IHr]; [reflexivity |].
    cbn [forallb] in H. apply andb_true_iff in H. destruct H as [Hx Hr].
    inversion IH as [| x' r' Px Pr]; subst.
    cbn [map]. rewrite (Px Hx), (IHr Pr Hr). reflexivity.
  - f_equal. induction fields as [| [k x] r IHr]; [reflexivity |].
    cbn [forallb fst snd] in H.
    apply andb_true_iff in H. destruct H as [Hkx Hr].
    apply andb_true_iff in Hkx. destruct Hkx as [Hk Hx].
    inversion IH as [| kv' r' Px Pr]; subst. cbn [snd] in Px.
    cbn [map fst snd].
    apply String.eqb_eq in Hk. rewrite Hk, (Px Hx), (IHr Pr Hr).
    reflexivity.
Qed.

(** X13. The rewrite of the serialised query reaches every key and every
    string value alike.  For a query string whose keys and values hold no
    control character, double quote or backslash, the filter given to
    [find] is the query object, without the excluded fields, in which each
    key and each string value has been rewritten on its own: [gte], [gt],
    [lte] and [lt] standing as whole words become [$gte], [$gt], [$lte]
    and [$lt], in a key as in a value. *)
Theorem filter_is_the_query_rewritten :
  forall q : ParsedQs,
    qs_forall plain_text (QObj (filter_part q)) = true ->
    parse_filter rt (queryStr_of q)
    = Ok (qs_map replace_ops (QObj (filter_part q))).
Proof.
  intros q Hplain. unfold parse_filter, queryStr_of.
  change (fold_left (fun o el => delete_key el o) excludedFields q)
    with (filter_part q).
  rewrite (JSON_parse_plain (filter_part q) Hplain). reflexivity.
Qed.

(** X14. A query string that names no operator comes back from the
    serialisation, the rewrite and the parse as it went in: when no key
    and no value holds one of the four operator words as a whole word (and
    none needs an escape), the filter given to [find] is the query object
    itself, without the excluded fields. *)
Theorem operator_free_query_is_the_filter :
  forall q : ParsedQs,
    qs_forall plain_text (QObj (filter_part q)) = true ->
    qs_forall operator_free (QObj (filter_part q)) = true ->
    parse_filter rt (queryStr_of q) = Ok (QObj (filter_part q)).
Proof.
  intros q Hplain Hfree. unfold parse_filter, queryStr_of.
  change (fold_left (fun o el => delete_key el o) excludedFields q)
    with (filter_part q).
  rewrite (JSON_parse_plain (filter_part q) Hplain).
  rewrite (qs_map_fixed replace_ops (QObj (filter_part q)) Hfree).
  reflexivity.
Qed.

(** *** Filters that work as meant *)

Lemma numeral_char_inert (c : ascii) :
  numeral_char c = true ->
  verbatim c = true /\ Ascii.eqb c "g" = false /\ Ascii.eqb c "l" = false.
Proof.
  destruct c as [b0 b1 b2 b3 b4 b5 b6 b7].
  destruct b0, b1, b2, b3, b4, b5, b6, b7; intros H;
    first [discriminate H | repeat split].
Qed.

Lemma numeral_plain (s : string) :
  forallb numeral_char (list_ascii_of_string s) = true ->
  plain_text s = true /\ replace_ops s = s.
Proof.
  unfold plain_text, replace_ops. intros H.
  assert (Hl : forall pw l, forallb numeral_char l = true ->
                 forallb verbatim l = true /\ replace_operators pw l = l).
  { intros pw l. revert pw. induction l as [| c r IH]; intros pw Hn.
    - split; reflexivity.
    - cbn [forallb] in Hn. apply andb_true_iff in Hn. destruct Hn as [Hc Hr].
      destruct (numeral_char_inert c Hc) as [Hv [Hg Hlt]].
      destruct (IH (is_word c) Hr) as [Hvr Hrep].
      split.
      + cbn [forallb]. rewrite Hv, Hvr. reflexivity.
      + cbn [replace_operators].
        rewrite (operator_at_head c r Hg Hlt), andb_false_r, Hrep.
        reflexivity. }
  destruct (Hl false _ H) as [Hv Hrep].
  split; [exact Hv |].
  rewrite Hrep. apply string_of_list_ascii_of_string.
Qed.

Lemma parse_filter_plain (q : ParsedQs) (o : ParsedQs) :
  filter_part q = o ->
  qs_forall plain_text (QObj o) = true ->
  parse_filter rt (queryStr_of q) = Ok (qs_map replace_ops (QObj o)).
Proof.
  intros Ho Hplain. unfold parse_filter, queryStr_of.
  change (fold_left (fun o el => delete_key el o) excludedFields q)
    with (filter_part q).
  rewrite Ho, (JSON_parse_plain o Hplain). reflexivity.
Qed.

Lemma amount_condition (c : cmp) (n : Q) (r : IncomeRecord) :
  matches [Cond "amount" c (FNum n)] r = true <-> compares c (amount r) n.
Proof.
  unfold matches. cbn [forallb]. rewrite andb_true_r.
  change (holds r (Cond "amount" c (FNum n)))
    with (cmp_holds c (Qcompare (amount r) n)).
  destruct c; cbn [compares cmp_holds].
  - rewrite Qeq_alt. destruct (amount r ?= n)%Q; split; congruence.
  - rewrite Qle_alt. rewrite <- Qgt_alt, Qgt_alt.
    destruct (Qcompare_spec (amount r) n) as [He | Hlt | Hgt].
    + split; [intros _ | reflexivity].
      rewrite He. rewrite (proj1 (Qeq_alt n n) (Qeq_refl n)). discriminate.
    + split; [discriminate |]. intros H. exfalso. apply H.
      apply Qgt_alt. exact Hlt.
    + split; [intros _ | reflexivity].
      rewrite (proj1 (Qlt_alt n (amount r)) Hgt). discriminate.
  - rewrite Qlt_alt.
    destruct (Qcompare_spec (amount r) n) as [He | Hlt | Hgt].
    + split; [discriminate |]. rewrite He.
      rewrite (proj1 (Qeq_alt n n) (Qeq_refl n)). discriminate.
    + split; [discriminate |]. intros H. exfalso.
      apply (Qlt_irrefl n). apply (Qlt_trans _ _ _ (proj2 (Qlt_alt _ _) H) Hlt).
    + split; [intros _ | reflexivity]. apply Qlt_alt. exact Hgt.
  - rewrite Qle_alt. destruct (amount r ?= n)%Q; split; congruence.
  - rewrite Qlt_alt. destruct (amount r ?= n)%Q; split; congruence.
Qed.

(** One entry with one value or one operator, cast. *)
Lemma cast_filter_value (k : string) (t : ftype) (s : string) (x : fval) :
  starts_with_dollar k = false ->
  schema_path k = Some t ->
  cast_operand rt t k (QStr s) = Ok x ->
  cast_filter rt (QObj [(k, QStr s)]) = Ok [Cond k CEq x].
Proof.
  intros Hk Ht Hx. unfold cast_filter, cast_entries, cast_entry.
  cbn [bind]. rewrite Hk, Ht, Hx. reflexivity.
Qed.

Lemma cast_filter_operator (k : string) (t : ftype) (o : string) (c : cmp)
  (v : qs) (x : fval) :
  starts_with_dollar k = false ->
  schema_path k = Some t ->
  is_operator o = true ->
  operator_of o = Some c ->
  cast_operand rt t k v = Ok x ->
  cast_filter rt (QObj [(k, QObj [(o, v)])]) = Ok [Cond k c x].
Proof.
  intros Hk Ht Ho Hc Hx. unfold cast_filter, cast_entries, cast_entry.
  cbn [bind]. rewrite Hk, Ht. unfold has_operator. cbn [existsb fst].
  rewrite Ho. cbn [orb].
  unfold cast_operators, cast_operator. cbn [bind].
  rewrite Hc, Hx. reflexivity.
Qed.

(** X15. A comparison on the amount works as meant: for [amount[op]=s]
    with [op] one of [gte], [gt], [lte], [lt] and [s] a decimal numeral,
    the filter given to [find] is [{ amount: { $op: s } }], Mongoose casts
    it to the one condition on [amount], and the records it selects are
    those whose amount stands in that relation to the number [s] reads. *)
Theorem amount_comparison_selects :
  forall (q : ParsedQs) (op : string) (c : cmp) (s : string) (n : Q),
    In (op, c) comparison_words ->
    filter_part q = [("amount", QObj [(op, QStr s)])] ->
    s <> "" ->
    forallb numeral_char (list_ascii_of_string s) = true ->
    StringToNumber s = Num n ->
    let filter := QObj [("amount", QObj [(("$" ++ op)%string, QStr s)])] in
    parse_filter rt (queryStr_of q) = Ok filter /\
    cast_filter rt filter = Ok [Cond "amount" c (FNum n)] /\
    (forall r, matches [Cond "amount" c (FNum n)] r = true
               <-> compares c (amount r) n).
Proof.
  intros q op c s n Hop Hq Hne Hnum Hn filter. subst filter.
  destruct (numeral_plain s Hnum) as [Hplain Hfree].
  assert (Hcast : cast_operand rt TNumber "amount" (QStr s) = Ok (FNum n)).
  { unfold cast_operand.
    destruct (String.eqb_spec s "") as [He | _]; [contradiction |].
    rewrite Hn. reflexivity. }
  split; [| split].
  - rewrite (parse_filter_plain q _ Hq).
    + cbn [qs_map map fst snd]. rewrite Hfree.
      destruct Hop as [H | [H | [H | [H | []]]]]; inversion H; reflexivity.
    + cbn [qs_forall forallb fst snd]. rewrite Hplain.
      destruct Hop as [H | [H | [H | [H | []]]]]; inversion H; reflexivity.
  - destruct Hop as [H | [H | [H | [H | []]]]]; inversion H; subst op c;
      apply (cast_filter_operator "amount" TNumber);
      first [reflexivity | exact Hcast].
  - intros r. apply amount_condition.
Qed.

Lemma string_compare_refl (s : string) : String.compare s s = Eq.
Proof.
  pose proof (String.compare_antisym s s) as H.
  destruct (String.compare s s); [reflexivity | discriminate H | discriminate H].
Qed.

Lemma text_condition (k s : string) (r : IncomeRecord) (x : string) :
  field_of r k = FStr x ->
  (matches [Cond k CEq (FStr s)] r = true <-> x = s).
Proof.
  intros Hf. unfold matches. cbn [forallb holds]. rewrite andb_true_r, Hf.
  cbn [fval_compare].
  split.
  - destruct (String.compare x s) eqn:Hc; try discriminate.
    intros _. apply String.compare_eq_iff. exact Hc.
  - intros ->. rewrite string_compare_refl. reflexivity.
Qed.

(** X16. An equality on a text path, for a value the rewrite leaves
    alone: for [category=s] or [description=s], with [s] free of operator
    words and of escapes, the filter given to [find] is the query object
    itself.  Mongoose casts its value with the setters of the path, so the
    [trim] of [description] is applied to it: the filter selects the
    records whose category is exactly [s], or whose description is [s]
    without the white space at its ends, and with it every stored
    description that the request names as it stands.  Every category of
    the enumeration is a value the rewrite leaves alone. *)
Theorem text_filter_selects_equal :
  forall (q : ParsedQs) (k s : string),
    k = "category" \/ k = "description" ->
    filter_part q = [(k, QStr s)] ->
    plain_text s = true ->
    operator_free s = true ->
    let cast := [Cond k CEq (FStr (apply_setters k s))] in
    parse_filter rt (queryStr_of q) = Ok (QObj [(k, QStr s)]) /\
    cast_filter rt (QObj [(k, QStr s)]) = Ok cast /\
    (forall r, matches cast r = true
               <-> (if String.eqb k "category"
                    then category r = Some s
                    else description r = trim s)) /\
    (forall r, within_schema rt r -> k = "description" ->
               description r = s -> matches cast r = true) /\
    (forall c, In c categories -> plain_text c = true /\ operator_free c = true).
Proof.
  intros q k s Hk Hq Hplain Hfree cast. subst cast.
  apply String.eqb_eq in Hfree.
  assert (Hsel : forall r,
             matches [Cond k CEq (FStr (apply_setters k s))] r = true
             <-> (if String.eqb k "category"
                  then category r = Some s
                  else description r = trim s)).
  { intros r. destruct Hk as [-> | ->].
    - change (String.eqb "category" "category") with true. cbv iota.
      change (apply_setters "category" s) with s.
      destruct (category r) as [x |] eqn:Hc.
      + rewrite (text_condition "category" s r x).
        * split; [intros ->; reflexivity | intros H; inversion H; reflexivity].
        * unfold field_of. cbn [String.eqb Ascii.eqb Bool.eqb].
          rewrite Hc. reflexivity.
      + split; [| discriminate].
        unfold matches. cbn [forallb holds]. unfold field_of.
        cbn [String.eqb Ascii.eqb Bool.eqb]. rewrite Hc. discriminate.
    - change (String.eqb "description" "category") with false. cbv iota.
      change (apply_setters "description" s) with (trim s).
      apply (text_condition "description" (trim s) r (description r)).
      reflexivity. }
  split; [| split; [| split; [exact Hsel | split]]].
  - rewrite (parse_filter_plain q _ Hq).
    + cbn [qs_map map fst snd]. rewrite Hfree.
      destruct Hk as [-> | ->]; reflexivity.
    + cbn [qs_forall forallb fst snd]. rewrite Hplain.
      destruct Hk as [-> | ->]; reflexivity.
  - destruct Hk as [-> | ->].
    + apply (cast_filter_value "category" TString); reflexivity.
    + apply (cast_filter_value "description" TString); reflexivity.
  - intros r [_ [Htrim _]] -> Hd. apply Hsel.
    change (String.eqb "description" "category") with false. cbv iota.
    rewrite <- Hd. symmetry. exact Htrim.
  - intros c Hc. simpl in Hc.
    destruct Hc as [<- | [<- | [<- | [<- | [<- | []]]]]];
      split; reflexivity.
Qed.

(** *** The filter always parses *)

Lemma reread_spec (s : string) (rest : list ascii) :
  parse_string [] (replace_operators false
                     (flat_map escape_char (list_ascii_of_string s))
                   ++ dquote :: rest)
  = Some (reread s, rest).
Proof.
  destruct (parse_literal s) as [s' Hs].
  unfold reread. rewrite (Hs []). apply Hs.
Qed.

Lemma JSON_parse_rewritten (o : ParsedQs) :
  JSON_parse (replace_ops (JSON_stringify o)) = Some (qs_map reread (QObj o)).
Proof.
  unfold JSON_parse, JSON_stringify.
  rewrite !replace_ops_chars, !list_ascii_of_string_of_list_ascii.
  pose proof (replace_stringify (QObj o) false []) as Hrep.
  rewrite app_nil_r in Hrep. cbn [replace_operators] in Hrep.
  rewrite app_nil_r in Hrep. rewrite Hrep.
  pose proof (value_reads_as (fun _ => true) reread
                (fun s rest _ => reread_spec s rest) (QObj o)) as Hv.
  assert (Hall : forall v, qs_forall (fun _ => true) v = true).
  { intros v. induction v as [s | items IH | fields IH] using qs_induction;
      cbn [qs_forall]; [reflexivity | |].
    - apply forallb_forall. intros x Hx.
      apply (proj1 (Forall_forall _ _) IH x Hx).
    - apply forallb_forall. intros kv Hkv.
      apply (proj1 (Forall_forall _ _) IH kv Hkv). }
  specialize (Hv (Hall _) (S (List.length (rewritten (QObj o)))) []).
  rewrite app_nil_r in Hv. rewrite Hv.
  - reflexivity.
  - pose proof (size_le_length (QObj o)). lia.
Qed.

(** X17. [JSON.parse] never throws in the list handler. Whatever the query
    string, the text the handler has rewritten is read, and the filter it
    gives has the shape of the query object without the excluded fields:
    an object with the same entries in the same order and the same
    nesting, in which only the texts of the keys and of the string values
    have changed, each on its own; a text without escapes has changed to
    its own rewrite. *)
Theorem list_filter_keeps_the_shape :
  (forall q : ParsedQs,
      parse_filter rt (queryStr_of q)
      = Ok (qs_map reread (QObj (filter_part q)))) /\
  (forall (q : ParsedQs),
      exists fields,
        parse_filter rt (queryStr_of q) = Ok (QObj fields) /\
        List.length fields = List.length (filter_part q)) /\
  (forall s : string, plain_text s = true -> reread s = replace_ops s).
Proof.
  assert (H : forall q : ParsedQs,
             parse_filter rt (queryStr_of q)
             = Ok (qs_map reread (QObj (filter_part q)))).
  { intros q. unfold parse_filter, queryStr_of.
    change (fold_left (fun o el => delete_key el o) excludedFields q)
      with (filter_part q).
    rewrite (JSON_parse_rewritten (filter_part q)). reflexivity. }
  split; [exact H | split].
  - intros q. eexists. split; [rewrite H; reflexivity |].
    apply length_map.
  - intros s Hs.
    pose proof (reread_spec s []) as H1.
    rewrite (parse_literal_plain s [] Hs) in H1.
    inversion H1. reflexivity.
Qed.

(** *** The sort parameter *)

Lemma list_ascii_of_append (s1 s2 : string) :
  list_ascii_of_string (s1 ++ s2)
  = list_ascii_of_string s1 ++ list_ascii_of_string s2.
Proof.
  induction s1 as [| c s1 IH]; [reflexivity |].
  cbn [append list_ascii_of_string]. rewrite IH. reflexivity.
Qed.

Lemma split_chars_cons (sep : ascii) (cur l : list ascii) :
  exists x rest, split_chars sep cur l = x :: rest.
Proof.
  revert cur. induction l as [| c r IH]; intros cur; cbn [split_chars].
  - eexists. eexists. reflexivity.
  - destruct (Ascii.eqb c sep); [eexists; eexists; reflexivity | apply IH].
Qed.

Lemma join_split_chars (cur l : list ascii) :
  list_ascii_of_string (join " " (split_chars "," cur l))
  = rev cur ++ map comma_to_space l.
Proof.
  revert cur. induction l as [| c r IH]; intros cur.
  - cbn [split_chars join map].
    rewrite list_ascii_of_string_of_list_ascii, app_nil_r. reflexivity.
  - cbn [split_chars map]. unfold comma_to_space at 1.
    destruct (Ascii.eqb c ",") eqn:Hc.
    + destruct (split_chars_cons "," [] r) as [x [rest Hx]].
      pose proof (IH []) as IH0. rewrite Hx in IH0 |- *.
      change (join " " (string_of_list_ascii (rev cur) :: x :: rest))
        with (string_of_list_ascii (rev cur) ++ " " ++ join " " (x :: rest))%string.
      rewrite !list_ascii_of_append, list_ascii_of_string_of_list_ascii, IH0.
      reflexivity.
    + rewrite IH. cbn [rev]. rewrite <- app_assoc. reflexivity.
Qed.

(** X18. The handler turns the comma separated [sort] parameter into the
    space separated list Mongoose reads: in the string given to [sort]
    every comma of the parameter has become a space and every other
    character is as it was.  The fields may as well be separated by spaces
    in the request. *)
Theorem sort_commas_become_spaces :
  forall (q : ParsedQs) (s : string),
    assoc "sort" q = Some (QStr s) ->
    s <> "" ->
    exists sortBy : string,
      sort_of rt q = Ok sortBy /\
      list_ascii_of_string sortBy
      = map comma_to_space (list_ascii_of_string s) /\
      ~ In ","%char (list_ascii_of_string sortBy).
Proof.
  intros q s Hs Hne.
  exists (join " " (split "," s)).
  assert (Hchars : list_ascii_of_string (join " " (split "," s))
                   = map comma_to_space (list_ascii_of_string s)).
  { unfold split. rewrite join_split_chars. reflexivity. }
  split; [| split; [exact Hchars |]].
  - unfold sort_of. rewrite Hs. cbn [qs_truthy].
    destruct (String.eqb_spec s "") as [He | _]; [contradiction |].
    reflexivity.
  - rewrite Hchars. intros Hin. apply in_map_iff in Hin.
    destruct Hin as [c [Hc _]]. unfold comma_to_space in Hc.
    destruct (Ascii.eqb c ",") eqn:He; [discriminate Hc |].
    subst c. rewrite Ascii.eqb_refl in He. discriminate He.
Qed.

(** *** Create, then list *)

Lemma cast_filter_empty : cast_filter rt (QObj []) = Ok [].
Proof. reflexivity. Qed.

Lemma filter_everything (coll : collection) : filter (matches []) coll = coll.
Proof.
  induction coll as [| r rest IH]; [reflexivity |].
  cbn [filter matches forallb]. f_equal. exact IH.
Qed.

(** A list request that is answered against one collection is answered
    against every collection when it has no filter: whether a query fails
    is decided by its [sort], [page] and [limit]. *)
Lemma get_records_unfiltered (req : Request) (coll : collection)
  (res : Response) :
  filter_part (req_query req) = [] ->
  get_records rt req coll = Ok res ->
  exists sortBy order,
    sort_of rt (req_query req) = Ok sortBy /\
    sort_order rt (Some sortBy) = Ok order /\
    0 <= integer_of (Some (skip_of (req_query req))) /\
    forall coll',
      get_records rt req coll'
      = Ok {| res_status := 200;
              res_body :=
                list_body rt
                  (apply_limit (Some (limit_of (req_query req)))
                     (skipn (Z.to_nat (integer_of
                                         (Some (skip_of (req_query req)))))
                        (order coll')))
                  (List.length coll') |}.
Proof.
  intros Hnone Hget.
  destruct (get_records_ok req coll res Hget)
    as [f [sortBy [cs [order [docs
          [Hf [Hs [Ho [Hc [Hfs [Hfl [Hskip _]]]]]]]]]]]].
  destruct (apply_skip_ok _ _ _ Hskip) as [Hpos _].
  assert (Hempty : parse_filter rt (queryStr_of (req_query req))
                   = Ok (QObj [])).
  { unfold parse_filter, queryStr_of.
    change (fold_left (fun o el => delete_key el o) excludedFields
              (req_query req)) with (filter_part (req_query req)).
    rewrite Hnone. reflexivity. }
  exists sortBy, order.
  split; [exact Hs | split; [exact Ho | split; [exact Hpos |]]].
  intros coll'.
  unfold get_records, build_query. rewrite Hempty, Hs.
  cbn [bind]. unfold Query_exec, Model_countDocuments.
  cbn [q_filter q_sort q_skip q_limit Query_limit Query_skip Query_sort
       Model_find].
  rewrite cast_filter_empty. cbn [bind]. rewrite Ho, Hfs, Hfl. cbn [bind].
  rewrite !filter_everything.
  unfold apply_skip.
  apply Z.ltb_ge in Hpos. rewrite Hpos. reflexivity.
Qed.

(** X19. A created record is counted: the [total] of a list request
    without a filter is the number of stored records, and after a create
    answered 201 the same request is answered with a [total] one higher. *)
Theorem created_record_is_counted :
  forall (env : Env) (post list : Request) (coll : collection)
         (res : Response),
    req_method post = "POST" -> req_path post = ["api"; "records"] ->
    res_status (fst (app rt env post coll)) = 201%nat ->
    filter_part (req_query list) = [] ->
    get_records rt list coll = Ok res ->
    prop "total" (res_body res) = Some (VNat (List.length coll)) /\
    exists res',
      get_records rt list (snd (app rt env post coll)) = Ok res' /\
      prop "total" (res_body res') = Some (VNat (S (List.length coll))).
Proof.
  intros env post list coll res Hm Hp Hcreated Hnone Hget.
  destruct (get_records_unfiltered list coll res Hnone Hget)
    as [sortBy [order [_ [_ [_ Hall]]]]].
  split.
  - rewrite (Hall coll) in Hget. inversion Hget. reflexivity.
  - eexists. split; [apply Hall |].
    cbn [res_body list_body prop assoc String.eqb Ascii.eqb Bool.eqb].
    rewrite (app_post env post coll Hm Hp) in Hcreated |- *.
    destruct (post_records rt env post coll) as [[r coll'] | e] eqn:Hpost.
    + destruct (post_records_created env post coll r coll' Hpost)
        as [x [_ [_ [_ [_ [_ [_ Hcoll]]]]]]].
      simpl. subst coll'. rewrite length_app, Nat.add_1_r. reflexivity.
    + rewrite (settle_throw coll e (post_records_plain env post coll e Hpost))
        in Hcreated.
      discriminate Hcreated.
Qed.

(* ------------------------------------------------------------------ *)
(** ** The paging of the client script *)

Lemma firstn_add {A : Type} (a b : nat) (l : list A) :
  firstn (a + b) l = firstn a l ++ firstn b (skipn a l).
Proof.
  revert l. induction a as [| a IH]; intros l; [reflexivity |].
  destruct l as [| x l];
    [cbn [Nat.add firstn skipn app]; rewrite firstn_nil; reflexivity |].
  cbn [Nat.add firstn skipn app]. rewrite IH. reflexivity.
Qed.

(** From a start inside the array on, [slice] is a window of the array. *)
Lemma slice_window {A : Type} (start n : Z) (l : list A) :
  0 <= start -> 0 <= n ->
  Client.slice start (start + n) l
  = firstn (Z.to_nat n) (skipn (Z.to_nat start) l).
Proof.
  intros Hs Hn. unfold Client.slice.
  assert (H1 : (start <? 0) = false) by (apply Z.ltb_ge; exact Hs).
  assert (H2 : (start + n <? 0) = false) by (apply Z.ltb_ge; lia).
  rewrite H1, H2.
  set (len := Z.of_nat (List.length l)).
  destruct (Z.le_gt_cases len start) as [Hout | Hin].
  - rewrite !skipn_all2 by lia. rewrite !firstn_nil. reflexivity.
  - rewrite (Z.min_l start len) by lia.
    destruct (Z.le_gt_cases (start + n) len) as [Hfit | Hover].
    + rewrite (Z.min_l (start + n) len) by lia.
      f_equal. lia.
    + rewrite (Z.min_r (start + n) len) by lia.
      rewrite !firstn_all2; [reflexivity | |]; rewrite length_skipn; lia.
Qed.

Lemma page_window {A : Type} (p n : Z) (records : list A) :
  1 <= p ->
  Client.paginatedRecords {| Client.currentPage := p; Client.totalPages := n |}
                          records
  = firstn 5 (skipn (Z.to_nat ((p - 1) * 5)) records).
Proof.
  intros Hp. unfold Client.paginatedRecords, Client.RECORDS_PER_PAGE.
  cbn [Client.currentPage].
  rewrite slice_window by lia. reflexivity.
Qed.

(** [Math.ceil(length / 5)] is the least number of pages of five that hold
    the records. *)
Lemma totalPages_bounds {A : Type} (records : list A) (st : Client.Pager) :
  let n := Client.totalPages (Client.updatePagination true records st) in
  5 * (n - 1) < Z.of_nat (List.length records) <= 5 * n.
Proof.
  unfold Client.updatePagination, Client.RECORDS_PER_PAGE.
  cbn [Client.totalPages].
  set (a := Z.of_nat (List.length records)).
  assert (Hq : (inject_Z a / inject_Z 5 == a # 5)%Q).
  { unfold Qeq, Qdiv, Qmult, Qinv, inject_Z. simpl. lia. }
  rewrite (Qceiling_comp _ _ Hq).
  unfold Qceiling, Qfloor, Qopp. cbn [Qnum Qden].
  pose proof (Z.div_mod (- a) 5 ltac:(lia)) as Hdm.
  pose proof (Z.mod_pos_bound (- a) 5 ltac:(lia)) as Hmod.
  lia.
Qed.

Lemma pages_concat {A : Type} (records : list A) (n : nat) :
  List.concat (map (fun p => firstn 5 (skipn ((p - 1) * 5) records)) (seq 1 n))
  = firstn (n * 5) records.
Proof.
  induction n as [| n IH]; [reflexivity |].
  rewrite seq_S, map_app, concat_app, IH.
  cbn [map List.concat Nat.add]. rewrite app_nil_r.
  replace (S n - 1)%nat with n by lia.
  replace (S n * 5)%nat with (n * 5 + 5)%nat by lia.
  rewrite firstn_add. reflexivity.
Qed.

(** X20. The pages of the client cover the records: with [totalPages] as
    [updatePagination] computes it, the rows of the pages 1 to
    [totalPages], one after the other, are the fetched records, each once
    and in order; each of these pages shows between one and five records,
    and a page past [totalPages] shows none. *)
Theorem client_pages_cover_the_records :
  forall (A : Type) (records : list A),
    let n := Client.totalPages
               (Client.updatePagination true records Client.initial) in
    let page := fun p : Z =>
      Client.paginatedRecords
        {| Client.currentPage := p; Client.totalPages := n |} records in
    List.concat (map (fun p => page (Z.of_nat p)) (seq 1 (Z.to_nat n))) = records /\
    (forall p, 1 <= p <= n ->
               page p <> [] /\ (List.length (page p) <= 5)%nat) /\
    (forall p, n < p -> page p = []).
Proof.
  intros A records n page.
  pose proof (totalPages_bounds records Client.initial) as Hn.
  fold n in Hn. cbv zeta in Hn.
  assert (Hn0 : 0 <= n) by lia.
  split; [| split].
  - rewrite (map_ext_in _ (fun p => firstn 5 (skipn ((p - 1) * 5) records))).
    + rewrite pages_concat. apply firstn_all2. lia.
    + intros p Hp. apply in_seq in Hp. unfold page.
      rewrite page_window by lia. do 2 f_equal. lia.
  - intros p Hp. unfold page. rewrite page_window by lia. split.
    + intros Hempty. apply (f_equal (@List.length A)) in Hempty.
      rewrite length_firstn, length_skipn in Hempty. cbn [List.length] in Hempty.
      lia.
    + apply firstn_le_length.
  - intros p Hp. unfold page. rewrite page_window by lia.
    rewrite skipn_all2 by lia. reflexivity.
Qed.

(** The pager between 1 and the number of pages of the records. *)
Lemma on_click_within {A : Type} (records : list A) (c : Client.click)
  (st : Client.Pager) :
  let n := Client.totalPages
             (Client.updatePagination true records Client.initial) in
  1 <= Client.currentPage st <= Z.max 1 n ->
  Client.totalPages st = n ->
  1 <= Client.currentPage (Client.on_click true records c st) <= Z.max 1 n /\
  Client.totalPages (Client.on_click true records c st) = n.
Proof.
  intros n Hcp Htp. unfold Client.on_click.
  destruct c; unfold Client.previousPage, Client.nextPage.
  - destruct (Z.ltb_spec 1 (Client.currentPage st)) as [Hgo | Hstay].
    + cbn [Client.updatePagination Client.currentPage Client.totalPages].
      split; [lia | reflexivity].
    + split; assumption.
  - destruct (Z.ltb_spec (Client.currentPage st) (Client.totalPages st))
      as [Hgo | Hstay].
    + cbn [Client.updatePagination Client.currentPage Client.totalPages].
      split; [lia | reflexivity].
    + split; assumption.
Qed.

Lemma clicks_within {A : Type} (records : list A)
  (clicks : list Client.click) (s : Client.Pager) :
  let n := Client.totalPages
             (Client.updatePagination true records Client.initial) in
  1 <= Client.currentPage s <= Z.max 1 n ->
  Client.totalPages s = n ->
  1 <= Client.currentPage
         (fold_left (fun st c => Client.on_click true records c st) clicks s)
    <= Z.max 1 n /\
  Client.totalPages
    (fold_left (fun st c => Client.on_click true records c st) clicks s) = n.
Proof.
  intros n. revert s.
  induction clicks as [| c rest IH]; intros s Hcp Htp; [split; assumption |].
  cbn [fold_left].
  destruct (on_click_within records c s Hcp Htp) as [Hcp' Htp'].
  apply IH; assumption.
Qed.

(** X21. While the fetched records stay the same, paging never leaves
    them: after the first fetch and any sequence of clicks on the two
    paging buttons, [currentPage] is at least 1 and at most [totalPages]
    (at most 1 when there is no record), [totalPages] is as the first
    fetch set it, and when there are records the page shown is not
    empty. *)
Theorem client_paging_stays_on_the_records :
  forall (A : Type) (records : list A) (clicks : list Client.click),
    let loaded := Client.updatePagination true records Client.initial in
    let st := fold_left (fun st c => Client.on_click true records c st)
                        clicks loaded in
    1 <= Client.currentPage st <= Z.max 1 (Client.totalPages loaded) /\
    Client.totalPages st = Client.totalPages loaded /\
    (records <> [] -> Client.paginatedRecords st records <> []).
Proof.
  intros A records clicks loaded st.
  pose proof (totalPages_bounds records Client.initial) as Hn.
  fold loaded in Hn. cbv zeta in Hn.
  assert (Hinv : 1 <= Client.currentPage st
                      <= Z.max 1 (Client.totalPages loaded) /\
                 Client.totalPages st = Client.totalPages loaded).
  { subst st. apply clicks_within; [| reflexivity].
    cbn [loaded Client.updatePagination Client.currentPage Client.initial].
    lia. }
  destruct Hinv as [Hcp Htp].
  split; [exact Hcp | split; [exact Htp |]].
  intros Hne.
  assert (Hlen : (0 < List.length records)%nat).
  { destruct records; [contradiction | cbn; lia]. }
  destruct st as [cp tp]. cbn [Client.currentPage Client.totalPages] in *.
  rewrite page_window by lia.
  intros Hempty. apply (f_equal (@List.length A)) in Hempty.
  rewrite length_firstn, length_skipn in Hempty. cbn [List.length] in Hempty.
  lia.
Qed.

(* ------------------------------------------------------------------ *)
(** ** The earlier server: delete and paging *)

Lemma legacy_remove_first_unique (i : ObjectId) (coll : Legacy.collection) :
  NoDup (map Legacy._id coll) ->
  Legacy.remove_first i coll
  = filter (fun r => negb (Legacy.has_id i r)) coll.
Proof.
  induction coll as [| a rest IH]; intros Hnd; [reflexivity |].
  inversion Hnd as [| x l Hnotin Hrest]; subst.
  cbn [Legacy.remove_first filter].
  destruct (Legacy.has_id i a) eqn:Ha; cbn [negb].
  - unfold Legacy.has_id in Ha. apply N.eqb_eq in Ha.
    clear IH Hrest Hnd. induction rest as [| b rest IH]; [reflexivity |].
    cbn [filter].
    assert (Hb : Legacy.has_id i b = false).
    { unfold Legacy.has_id. apply N.eqb_neq. intros Hb.
      apply Hnotin. left. rewrite Hb, Ha. reflexivity. }
    rewrite Hb. cbn [negb]. f_equal. apply IH.
    intros Hin. apply Hnotin. right. exact Hin.
  - f_equal. apply IH. exact Hrest.
Qed.

Lemma legacy_remove_first_absent (i : ObjectId) (coll : Legacy.collection) :
  (forall r, In r coll -> Legacy._id r <> i) ->
  Legacy.remove_first i coll = coll.
Proof.
  induction coll as [| a rest IH]; intros Hno; [reflexivity |].
  cbn [Legacy.remove_first].
  assert (Ha : Legacy.has_id i a = false).
  { unfold Legacy.has_id. apply N.eqb_neq. apply Hno. left. reflexivity. }
  rewrite Ha. f_equal. apply IH. intros r Hr. apply Hno. right. exact Hr.
Qed.

(** X22. The delete route of the earlier server answers 204 whether or
    not a record has the identifier: a stored record with the identifier
    is removed, a delete of an identifier that is not stored changes
    nothing and is answered 204 all the same, so a repeated delete is
    answered 204 twice.  Only an identifier that fails the cast is
    answered 500. *)
Theorem legacy_delete_answers_204_always :
  forall (raw : string) (coll : Legacy.collection),
    (forall i : ObjectId,
        castObjectId rt raw = Some i ->
        NoDup (map Legacy._id coll) ->
        let others := filter (fun r => negb (Legacy.has_id i r)) coll in
        Legacy.delete_record rt raw coll
        = ({| Legacy.code := 204; Legacy.body := None |}, others) /\
        (forall r, In r others -> Legacy._id r <> i) /\
        Legacy.delete_record rt raw others
        = ({| Legacy.code := 204; Legacy.body := None |}, others))
    /\
    (castObjectId rt raw = None ->
       Legacy.delete_record rt raw coll
       = ({| Legacy.code := 500;
             Legacy.body :=
               Some (VObj [("error", VStr "Failed to delete record")]) |},
          coll)).
Proof.
  intros raw coll. split.
  - intros i Hcast Hnd others.
    assert (Hgone : forall r, In r others -> Legacy._id r <> i).
    { intros r Hr. apply filter_In in Hr. destruct Hr as [_ Hr].
      apply negb_true_iff in Hr. unfold Legacy.has_id in Hr.
      apply N.eqb_neq. exact Hr. }
    unfold Legacy.delete_record. rewrite Hcast.
    rewrite (legacy_remove_first_unique i coll Hnd).
    rewrite (legacy_remove_first_absent i others Hgone).
    repeat split. exact Hgone.
  - intros Hcast. unfold Legacy.delete_record. rewrite Hcast. reflexivity.
Qed.

Lemma ceiling_bounds (a l : Z) :
  1 <= l ->
  let n := Qceiling (inject_Z a / inject_Z l) in
  l * (n - 1) < a <= l * n.
Proof.
  intros Hl n. subst n.
  assert (Hq : (inject_Z a / inject_Z l == a # Z.to_pos l)%Q).
  { unfold Qeq, Qdiv, Qmult, Qinv, inject_Z. cbn [Qnum Qden].
    destruct l as [| l' | l']; try lia. cbn [Qnum Qden Z.to_pos]. lia. }
  rewrite (Qceiling_comp _ _ Hq).
  unfold Qceiling, Qfloor, Qopp. cbn [Qnum Qden].
  rewrite Z2Pos.id by lia.
  pose proof (Z.div_mod (- a) l ltac:(lia)) as Hdm.
  pose proof (Z.mod_pos_bound (- a) l ltac:(lia)) as Hmod.
  nia.
Qed.

Lemma digit_char (c : ascii) :
  is_digit c = true ->
  is_space c = false /\ Ascii.eqb c "-" = false /\ Ascii.eqb c "+" = false /\
  Ascii.eqb c "x" = false /\ Ascii.eqb c "X" = false.
Proof.
  destruct c as [b0 b1 b2 b3 b4 b5 b6 b7].
  destruct b0, b1, b2, b3, b4, b5, b6, b7; intros H;
    first [discriminate H | repeat split].
Qed.

Lemma take_while_all (p : ascii -> bool) (l : list ascii) :
  forallb p l = true -> take_while p l = l /\ drop_while p l = [].
Proof.
  induction l as [| c r IH]; intros H; [split; reflexivity |].
  cbn [forallb] in H. apply andb_true_iff in H. destruct H as [Hc Hr].
  cbn [take_while drop_while]. rewrite Hc.
  destruct (IH Hr) as [Ht Hd]. rewrite Ht, Hd. split; reflexivity.
Qed.

Lemma digits_untrimmed (l : list ascii) :
  forallb is_digit l = true -> trim_chars l = l.
Proof.
  intros H. unfold trim_chars.
  assert (Hkeep : forall m, forallb is_digit m = true ->
                            drop_while is_space m = m).
  { intros m Hm. destruct m as [| c r]; [reflexivity |].
    cbn [forallb] in Hm. apply andb_true_iff in Hm. destruct Hm as [Hc _].
    cbn [drop_while]. rewrite (proj1 (digit_char c Hc)). reflexivity. }
  rewrite (Hkeep l H).
  rewrite (Hkeep (rev l)); [apply rev_involutive |].
  apply forallb_forall. intros c Hc. apply in_rev in Hc.
  apply (proj1 (forallb_forall _ _) H c Hc).
Qed.

Lemma digit_no_letter (c : ascii) :
  is_digit c = true ->
  Ascii.eqb c "x" = false /\ Ascii.eqb c "X" = false /\
  Ascii.eqb c "o" = false /\ Ascii.eqb c "O" = false /\
  Ascii.eqb c "b" = false /\ Ascii.eqb c "B" = false /\
  Ascii.eqb c "I" = false.
Proof.
  destruct c as [b0 b1 b2 b3 b4 b5 b6 b7].
  destruct b0, b1, b2, b3, b4, b5, b6, b7; intros H;
    first [discriminate H | repeat split].
Qed.

(** Digits alone are neither a literal of another radix nor an infinity. *)
Lemma digits_decimal (l : list ascii) :
  forallb is_digit l = true ->
  radix_literal l = None /\
  String.eqb (string_of_list_ascii l) "Infinity" = false.
Proof.
  intros H. split.
  - destruct l as [| z [| p [| d ds]]]; try reflexivity.
    cbn [forallb] in H.
    apply andb_true_iff in H. destruct H as [_ H].
    apply andb_true_iff in H. destruct H as [Hp _].
    destruct (digit_no_letter p Hp) as [H1 [H2 [H3 [H4 [H5 [H6 _]]]]]].
    unfold radix_literal. rewrite H1, H2, H3, H4, H5, H6.
    destruct (Ascii.eqb z "0"); reflexivity.
  - destruct l as [| c r]; [reflexivity |].
    cbn [forallb] in H. apply andb_true_iff in H. destruct H as [Hc _].
    destruct (digit_no_letter c Hc) as [_ [_ [_ [_ [_ [_ HI]]]]]].
    cbn [string_of_list_ascii String.eqb]. rewrite HI. reflexivity.
Qed.

(** A string of decimal digits reads as the same whole number as a number
    and through [parseInt]. *)
Lemma digits_read (s : string) :
  s <> "" ->
  forallb is_digit (list_ascii_of_string s) = true ->
  StringToNumber s = Num (inject_Z (digits_val (list_ascii_of_string s))) /\
  Legacy.parseInt s = Num (inject_Z (digits_val (list_ascii_of_string s))).
Proof.
  intros Hne Hd.
  destruct (list_ascii_of_string s) as [| c r] eqn:Hl.
  { exfalso. apply Hne. rewrite <- (string_of_list_ascii_of_string s), Hl.
    reflexivity. }
  pose proof Hd as Hd'.
  cbn [forallb] in Hd'. apply andb_true_iff in Hd'. destruct Hd' as [Hc Hr].
  destruct (digit_char c Hc) as [Hsp [Hminus [Hplus _]]].
  destruct (take_while_all is_digit (c :: r) Hd) as [Htake Hdrop].
  split.
  - destruct (digits_decimal (c :: r) Hd) as [Hradix Hinf].
    unfold StringToNumber. rewrite Hl, (digits_untrimmed _ Hd), Hradix.
    rewrite Hminus, Hplus. cbn [orb]. rewrite Hinf.
    rewrite Htake, Hdrop. cbn [app].
    unfold decimal. rewrite app_nil_r. reflexivity.
  - unfold Legacy.parseInt. rewrite Hl.
    cbn [drop_while]. rewrite Hsp, Hminus, Hplus. cbn [orb].
    destruct r as [| x r'].
    + rewrite Htake. reflexivity.
    + cbn [forallb] in Hr. apply andb_true_iff in Hr. destruct Hr as [Hx _].
      destruct (digit_char x Hx) as [_ [_ [_ [Hx1 Hx2]]]].
      rewrite Hx1, Hx2, andb_false_r, Htake. reflexivity.
Qed.

(** X23. The paging numbers of the earlier list route. For a [page] and a
    [limit] that read as whole numbers of at least 1 (1 and 10 when
    absent), the offset given to [skip] is [(page-1)*limit], and
    [totalPages] is the least number of pages of [limit] records that
    hold [total] records: the offset of a page lies below [total], so
    that the page has a record, exactly when the page is at most
    [totalPages].  Written in decimal digits, [limit] reaches the query
    through [parseInt] as the same number, and [page] is answered as
    [currentPage]. *)
Theorem legacy_total_pages :
  forall (q : ParsedQs) (total : nat) (x y : Q) (p l : Z),
    Legacy.number_of 1 (assoc "page" q) = Num x -> (x == inject_Z p)%Q ->
    Legacy.number_of 10 (assoc "limit" q) = Num y -> (y == inject_Z l)%Q ->
    1 <= p -> 1 <= l ->
    exists (s : Q) (n : Z),
      Legacy.skip_of q = Num s /\ (s == inject_Z ((p - 1) * l))%Q /\
      Legacy.totalPages_of total q = VNum (inject_Z n) /\
      l * (n - 1) < Z.of_nat total <= l * n /\
      ((p - 1) * l < Z.of_nat total <-> p <= n) /\
      (assoc "page" q = None ->
         p = 1 /\ Legacy.currentPage_of q = VNum 1) /\
      (assoc "limit" q = None ->
         l = 10 /\ Legacy.limit_of q = Num 10) /\
      (forall ps, assoc "page" q = Some (QStr ps) -> ps <> "" ->
                  forallb is_digit (list_ascii_of_string ps) = true ->
                  Legacy.currentPage_of q = VNum (inject_Z p)) /\
      (forall ls, assoc "limit" q = Some (QStr ls) -> ls <> "" ->
                  forallb is_digit (list_ascii_of_string ls) = true ->
                  Legacy.limit_of q = Num (inject_Z l)).
Proof.
  intros q total x y p l Hx Hxp Hy Hyl Hp Hl.
  exists ((x - 1) * y)%Q,
         (Qceiling (inject_Z (Z.of_nat total) / inject_Z l)).
  pose proof (ceiling_bounds (Z.of_nat total) l Hl) as Hn. cbv zeta in Hn.
  assert (Hwhole : forall (a b : Z), (inject_Z a == inject_Z b)%Q -> a = b).
  { intros a b H. unfold Qeq in H. simpl in H. lia. }
  split; [| split; [| split; [| split; [exact Hn |
    split; [| split; [| split; [| split]]]]]]].
  - unfold Legacy.skip_of. rewrite Hx, Hy. reflexivity.
  - rewrite Hxp, Hyl.
    unfold Zminus. rewrite inject_Z_mult, inject_Z_plus, inject_Z_opp.
    reflexivity.
  - unfold Legacy.totalPages_of. rewrite Hy.
    assert (Hnz : Qeq_bool y 0 = false).
    { destruct (Qeq_bool y 0) eqn:He; [| reflexivity].
      apply Qeq_bool_iff in He. rewrite Hyl in He.
      unfold Qeq in He. simpl in He. lia. }
    rewrite Hnz. do 2 f_equal. apply Qceiling_comp. rewrite Hyl. reflexivity.
  - split; intros H; nia.
  - intros Hnone. unfold Legacy.currentPage_of, Legacy.parseInt_of.
    unfold Legacy.number_of in Hx. rewrite Hnone in Hx |- *.
    inversion Hx. subst x. split; [| reflexivity].
    symmetry. apply (Hwhole 1 p). exact Hxp.
  - intros Hnone. unfold Legacy.limit_of, Legacy.parseInt_of.
    unfold Legacy.number_of in Hy. rewrite Hnone in Hy |- *.
    inversion Hy. subst y. split; [| reflexivity].
    symmetry. apply (Hwhole 10 l). exact Hyl.
  - intros ps Hps Hne Hd.
    unfold Legacy.currentPage_of, Legacy.parseInt_of.
    unfold Legacy.number_of in Hx. rewrite Hps in Hx |- *.
    cbn [qs_toString] in Hx |- *.
    destruct (digits_read ps Hne Hd) as [Hnum Hint].
    rewrite Hnum in Hx. inversion Hx. subst x.
    rewrite Hint, (Hwhole _ _ Hxp). reflexivity.
  - intros ls Hls Hne Hd.
    unfold Legacy.limit_of, Legacy.parseInt_of.
    unfold Legacy.number_of in Hy. rewrite Hls in Hy |- *.
    cbn [qs_toString] in Hy |- *.
    destruct (digits_read ls Hne Hd) as [Hnum Hint].
    rewrite Hnum in Hy. inversion Hy. subst y.
    rewrite Hint, (Hwhole _ _ Hyl). reflexivity.
Qed.

(* ------------------------------------------------------------------ *)
(** ** The statistics add up *)

Lemma sum_totals_cons {K : Type} (g : Legacy.Group K)
  (gs : list (Legacy.Group K)) :
  Legacy.sum_totals (g :: gs) = (Legacy.g_total g + Legacy.sum_totals gs)%Q.
Proof. reflexivity. Qed.

Lemma sum_counts_cons {K : Type} (g : Legacy.Group K)
  (gs : list (Legacy.Group K)) :
  Legacy.sum_counts (g :: gs) = (Legacy.g_count g + Legacy.sum_counts gs)%nat.
Proof. reflexivity. Qed.

Lemma sum_amounts_cons (d : Legacy.IncomeRecord) (docs : Legacy.collection) :
  Legacy.sum_amounts (d :: docs)
  = (Legacy.amount d + Legacy.sum_amounts docs)%Q.
Proof. reflexivity. Qed.

Lemma accumulate_sums {K : Type} (eqb : K -> K -> bool) (k : K) (x : Q)
  (gs : list (Legacy.Group K)) :
  (Legacy.sum_totals (Legacy.accumulate eqb k x gs)
   == Legacy.sum_totals gs + x)%Q /\
  Legacy.sum_counts (Legacy.accumulate eqb k x gs)
  = S (Legacy.sum_counts gs).
Proof.
  induction gs as [| g rest [IHt IHc]].
  - cbn [Legacy.accumulate]. rewrite sum_totals_cons, sum_counts_cons.
    cbn [Legacy.g_total Legacy.g_count].
    change (Legacy.sum_totals (@nil (Legacy.Group K))) with 0%Q.
    change (Legacy.sum_counts (@nil (Legacy.Group K))) with 0%nat.
    split; [ring | reflexivity].
  - cbn [Legacy.accumulate]. destruct (eqb k (Legacy.g_id g)).
    + rewrite !sum_totals_cons, !sum_counts_cons.
      cbn [Legacy.g_total Legacy.g_count].
      split; [ring | reflexivity].
    + rewrite !sum_totals_cons, !sum_counts_cons.
      split; [rewrite IHt; ring | rewrite IHc; lia].
Qed.

Lemma group_by_sums {K : Type} (eqb : K -> K -> bool)
  (key : Legacy.IncomeRecord -> K) (docs : Legacy.collection) :
  (Legacy.sum_totals (Legacy.group_by eqb key docs)
   == Legacy.sum_amounts docs)%Q /\
  Legacy.sum_counts (Legacy.group_by eqb key docs) = List.length docs.
Proof.
  unfold Legacy.group_by.
  assert (H : forall gs,
             (Legacy.sum_totals
                (fold_left (fun gs d => Legacy.accumulate eqb (key d)
                                          (Legacy.amount d) gs) docs gs)
              == Legacy.sum_totals gs + Legacy.sum_amounts docs)%Q /\
             Legacy.sum_counts
               (fold_left (fun gs d => Legacy.accumulate eqb (key d)
                                         (Legacy.amount d) gs) docs gs)
             = (Legacy.sum_counts gs + List.length docs)%nat).
  { induction docs as [| d rest IH]; intros gs.
    - cbn [fold_left List.length].
      change (Legacy.sum_amounts []) with 0%Q.
      split; [ring | lia].
    - cbn [fold_left].
      destruct (IH (Legacy.accumulate eqb (key d) (Legacy.amount d) gs))
        as [Ht Hc].
      destruct (accumulate_sums eqb (key d) (Legacy.amount d) gs)
        as [At Ac].
      split.
      + rewrite Ht, At, sum_amounts_cons. ring.
      + rewrite Hc, Ac. cbn [List.length]. lia. }
  destruct (H []) as [Ht Hc].
  change (Legacy.sum_totals (@nil (Legacy.Group K))) with 0%Q in Ht.
  split; [rewrite Ht; ring | rewrite Hc; reflexivity].
Qed.

Lemma sums_permuted {K : Type} (l l' : list (Legacy.Group K)) :
  Permutation l l' ->
  (Legacy.sum_totals l == Legacy.sum_totals l')%Q /\
  Legacy.sum_counts l = Legacy.sum_counts l'.
Proof.
  intros Hp. induction Hp as [| g l l' Hp [IHt IHc] | g h l
                             | l l' l'' H1 [IH1t IH1c] H2 [IH2t IH2c]].
  - split; reflexivity.
  - rewrite !sum_totals_cons, !sum_counts_cons.
    split; [rewrite IHt; reflexivity | rewrite IHc; reflexivity].
  - rewrite !sum_totals_cons, !sum_counts_cons.
    split; [ring | lia].
  - split; [rewrite IH1t; exact IH2t | rewrite IH1c; exact IH2c].
Qed.

(** X25. The two halves of the statistics agree: the sums of the entries
    of [categories] add up to the sum of all amounts, which is
    [totalAmount], and their counts add up to the number of records, which
    is [count]; every record is counted in exactly one category. *)
Theorem stats_categories_add_up :
  forall coll : Legacy.collection,
    let gs := Legacy.category_groups coll in
    (Legacy.sum_totals gs == Legacy.sum_amounts coll)%Q /\
    Legacy.sum_counts gs = List.length coll /\
    prop "categories" (res_body (Legacy.get_stats coll))
    = Some (VArr (map Legacy.category_json gs)) /\
    (coll <> [] ->
       exists t,
         prop "totalAmount" (res_body (Legacy.get_stats coll)) = Some (VNum t) /\
         prop "count" (res_body (Legacy.get_stats coll))
         = Some (VNat (Legacy.sum_counts gs)) /\
         (t == Legacy.sum_totals gs)%Q).
Proof.
  intros coll gs.
  destruct (group_by_sums Legacy.category_eqb Legacy.category coll)
    as [Ht Hc].
  destruct (sums_permuted _ _
              (sort_by_perm Legacy.total_desc
                 (Legacy.group_by Legacy.category_eqb Legacy.category coll)))
    as [Pt Pc].
  assert (Htotal : (Legacy.sum_totals gs == Legacy.sum_amounts coll)%Q).
  { unfold gs, Legacy.category_groups. rewrite Pt. exact Ht. }
  assert (Hcount : Legacy.sum_counts gs = List.length coll).
  { unfold gs, Legacy.category_groups. rewrite Pc. exact Hc. }
  split; [exact Htotal | split; [exact Hcount | split]].
  - destruct coll as [| d rest]; [reflexivity |].
    destruct (whole_group (d :: rest) ltac:(discriminate)) as [g [Hg _]].
    unfold Legacy.get_stats, Legacy.stats_body, Legacy.stats_pipeline.
    rewrite Hg. reflexivity.
  - intros Hne.
    destruct (whole_group coll Hne) as [g [Hg [Hgt Hgc]]].
    exists (Legacy.g_total g).
    unfold Legacy.get_stats, Legacy.stats_body, Legacy.stats_pipeline.
    rewrite Hg. cbn [map res_body]. rewrite Hcount, Hgc.
    repeat split.
    rewrite Hgt, Htotal. reflexivity.
Qed.

(* ------------------------------------------------------------------ *)
(** ** More on the list of [server.js] *)

(** X27. The plain list request never fails: a [GET] of [/api/records]
    without a query string is answered 200 with the ten newest records
    (all of them when there are fewer) and the size of the collection as
    [total], whatever the collection holds. *)
Theorem plain_list_always_answers :
  forall (env : Env) (req : Request) (coll : collection),
    req_method req = "GET" ->
    req_path req = ["api"; "records"] ->
    req_query req = [] ->
    let records := firstn 10 (sort_documents "-date" coll) in
    app rt env req coll
    = ({| res_status := 200;
          res_body := list_body rt records (List.length coll) |}, coll) /\
    List.length records = Nat.min 10 (List.length coll) /\
    StronglySorted (fun a b => date b <= date a) records.
Proof.
  intros env req coll Hm Hp Hq records.
  assert (Hperm : Permutation (sort_documents "-date" coll) coll)
    by (unfold sort_documents; apply sort_by_perm).
  split; [| split].
  - rewrite (app_get env req coll Hm Hp).
    rewrite (get_records_page req coll (QObj []) "-date" [] 1 10 1 10);
      try (rewrite Hq; reflexivity); try reflexivity; try lia.
    rewrite filter_everything. reflexivity.
  - unfold records. rewrite length_firstn, (Permutation_length Hperm).
    reflexivity.
  - unfold records. apply StronglySorted_firstn. unfold sort_documents.
    apply (StronglySorted_weaken
             (fun a b => before (sort_keys "-date") a b = true)).
    + intros a b H. rewrite before_newest in H. apply Z.leb_le. exact H.
    + apply sort_by_sorted.
      * intros a b. rewrite !before_newest.
        destruct (Z.leb_spec (date b) (date a)); [left; reflexivity |].
        right. apply Z.leb_le. lia.
      * intros a b c. rewrite !before_newest. intros H1 H2.
        apply Z.leb_le in H1, H2. apply Z.leb_le. lia.
Qed.

Lemma cast_unknown_operator (k : string) (v : qs) :
  is_operator k = true ->
  operator_of k = None ->
  other_condition rt "amount" k v = None ->
  cast_filter rt (QObj [("amount", QObj [(k, v)])])
  = Throw (library_error rt "CastError" (QueryCastFailure "Number" v "amount")).
Proof.
  intros Hd Hk Ho. unfold cast_filter, cast_entries, cast_entry.
  cbn [bind].
  change (starts_with_dollar "amount") with false. cbv iota.
  change (schema_path "amount") with (Some TNumber). cbv iota.
  unfold has_operator. cbn [existsb fst]. rewrite Hd. cbn [orb].
  unfold cast_operators, cast_operator. cbn [bind].
  rewrite Hk, Ho. reflexivity.
Qed.

Lemma cast_known_operator (k : string) (v : qs)
  (selects : IncomeRecord -> bool) :
  is_operator k = true ->
  operator_of k = None ->
  other_condition rt "amount" k v = Some selects ->
  cast_filter rt (QObj [("amount", QObj [(k, v)])]) = Ok [Other selects].
Proof.
  intros Hd Hk Ho. unfold cast_filter, cast_entries, cast_entry.
  cbn [bind].
  change (starts_with_dollar "amount") with false. cbv iota.
  change (schema_path "amount") with (Some TNumber). cbv iota.
  unfold has_operator. cbn [existsb fst]. rewrite Hd. cbn [orb].
  unfold cast_operators, cast_operator. cbn [bind].
  rewrite Hk, Ho. reflexivity.
Qed.

(** X28. A comparison written with its dollar does not work: for
    [amount[$op]=s], with [op] one of [gte], [gt], [lte], [lt], the rewrite
    doubles the dollar and the filter given to [find] is
    [{ amount: { $$op: s } }].  [$$op] is none of the four comparisons;
    where Mongoose knows no operator of that name it refuses the filter
    with a cast error that carries the operand [s] and the path [amount],
    and the request is answered 500 with the message of that error.  An
    operator of that name, were there one, would be the whole
    condition. *)
Theorem dollar_operator_is_doubled :
  forall (env : Env) (req : Request) (coll : collection)
         (op : string) (c : cmp) (s : string),
    req_method req = "GET" ->
    req_path req = ["api"; "records"] ->
    In (op, c) comparison_words ->
    filter_part (req_query req)
    = [("amount", QObj [(("$" ++ op)%string, QStr s)])] ->
    forallb numeral_char (list_ascii_of_string s) = true ->
    qs_truthy (assoc "sort" (req_query req)) = false ->
    let filter := QObj [("amount", QObj [(("$$" ++ op)%string, QStr s)])] in
    parse_filter rt (queryStr_of (req_query req)) = Ok filter /\
    operator_of ("$$" ++ op) = None /\
    (other_condition rt "amount" ("$$" ++ op) (QStr s) = None ->
       app rt env req coll
       = ({| res_status := 500;
             res_body :=
               VObj [ ("status", VStr "error");
                      ("message",
                       VStr (failure_message rt
                               (QueryCastFailure "Number" (QStr s)
                                                 "amount"))) ] |},
          coll)) /\
    (forall selects,
        other_condition rt "amount" ("$$" ++ op) (QStr s) = Some selects ->
        cast_filter rt filter = Ok [Other selects]).
Proof.
  intros env req coll op c s Hm Hp Hop Hq Hnum Hsort filter. subst filter.
  destruct (numeral_plain s Hnum) as [Hplain Hfree].
  assert (Hf : parse_filter rt (queryStr_of (req_query req))
               = Ok (QObj [("amount",
                            QObj [(("$$" ++ op)%string, QStr s)])])).
  { rewrite (parse_filter_plain (req_query req) _ Hq).
    - cbn [qs_map map fst snd]. rewrite Hfree.
      destruct Hop as [H | [H | [H | [H | []]]]]; inversion H; reflexivity.
    - cbn [qs_forall forallb fst snd]. rewrite Hplain.
      destruct Hop as [H | [H | [H | [H | []]]]]; inversion H; reflexivity. }
  assert (Hnone : operator_of ("$$" ++ op) = None)
    by (destruct Hop as [H | [H | [H | [H | []]]]]; inversion H; reflexivity).
  assert (Hdollar : is_operator ("$$" ++ op) = true)
    by (destruct Hop as [H | [H | [H | [H | []]]]]; inversion H; reflexivity).
  split; [exact Hf | split; [exact Hnone | split]].
  - intros Hother.
    pose proof (cast_unknown_operator _ _ Hdollar Hnone Hother) as Hcast.
    assert (Hget : get_records rt req coll
                   = Throw (library_error rt "CastError"
                              (QueryCastFailure "Number" (QStr s) "amount"))).
    { unfold get_records, build_query. rewrite Hf.
      unfold sort_of. rewrite Hsort.
      cbn [bind]. unfold Query_exec.
      cbn [q_filter q_sort q_skip q_limit Query_limit Query_skip Query_sort
           Model_find].
      rewrite Hcast. reflexivity. }
    rewrite (app_get_throw env req coll _ Hm Hp Hget). reflexivity.
  - intros selects Hother.
    apply (cast_known_operator _ _ selects Hdollar Hnone Hother).
Qed.

End Properties.

(** Deleting [record_pay] from a collection of two, then deleting it
    again. *)
Lemma delete_by_id_outcomes_witness :
  app plain_runtime sample_env delete_2 [record_gt; record_pay]
  = (record_deleted, [record_gt])
  /\ app plain_runtime sample_env delete_2 [record_gt]
     = (record_missing, [record_gt]).
Proof.
  assert (Hnd : NoDup (map _id [record_gt; record_pay])).
  { simpl. constructor.
    - simpl. intros [H | []]. discriminate H.
    - constructor; [intros [] | constructor]. }
  destruct (delete_by_id_outcomes plain_runtime sample_env delete_2 "2" 2%N
              [record_gt; record_pay] eq_refl eq_refl eq_refl Hnd)
    as [_ [_ [Hpresent _]]].
  destruct Hpresent as [_ [H1 [_ [_ H2]]]].
  - exists record_pay. split; [right; left; reflexivity | reflexivity].
  - split; [exact H1 | exact H2].
Defined.

(** A create with amount -1 is rejected, one with amount 0 is stored. *)
Lemma create_amount_bound_witness :
  (exists errs,
      post_records plain_runtime sample_env post_negative []
      = Throw (ValidationError errs) /\
      In ("amount", "Amount must be positive") errs /\
      snd (app plain_runtime sample_env post_negative []) = [])
  /\ app plain_runtime sample_env post_zero []
     = ({| res_status := 201;
           res_body := created_body plain_runtime
                         (document sample_env "Nothing yet" 0 1000 (Some "Other")) |},
        [document sample_env "Nothing yet" 0 1000 (Some "Other")]).
Proof.
  split.
  - apply (proj1 (create_amount_bound plain_runtime sample_env post_negative []
                    (-1) eq_refl eq_refl eq_refl)).
    reflexivity.
  - apply (proj2 (create_amount_bound plain_runtime sample_env post_zero []
                    0 eq_refl eq_refl eq_refl));
      reflexivity.
Defined.

(** The same create with and without [_id], [createdAt], [updatedAt] and
    [owner] in its body. *)
Lemma create_reads_four_paths_witness :
  app plain_runtime sample_env post_freelance [record_gt]
  = app plain_runtime sample_env post_freelance_extra [record_gt]
  /\ create_input sample_env (VObj [("_id", VStr "99"); ("amount", VNum 1)])
     = create_input sample_env (VObj [("amount", VNum 1)]).
Proof.
  split.
  - apply (proj1 (create_reads_four_paths plain_runtime)); try reflexivity.
    intros k Hk. simpl in Hk.
    destruct Hk as [<- | [<- | [<- | [<- | []]]]]; reflexivity.
  - apply (proj2 (create_reads_four_paths plain_runtime)).
    simpl. intros [H | [H | [H | [H | []]]]]; discriminate H.
Defined.

(** C3 fails as stated: a create with the category [Gift], which the
    enumeration of [server.js] does not list, stores no record at all,
    with category [Other] or otherwise. *)
Lemma category_gift_not_stored :
  prop "category" (req_body post_gift) = Some (VStr "Gift")
  /\ ~ In "Gift" categories
  /\ res_status (fst (app plain_runtime sample_env post_gift [])) = 500%nat
  /\ snd (app plain_runtime sample_env post_gift []) = [].
Proof.
  repeat split.
  simpl. intros [H | [H | [H | [H | [H | []]]]]]; discriminate H.
Qed.

(** A create without category, and one with the category [Gift]. *)
Lemma create_category_default_or_reject_witness :
  app plain_runtime sample_env post_zero []
  = ({| res_status := 201;
        res_body := created_body plain_runtime
                      (document sample_env "Nothing yet" 0 1000 (Some "Other")) |},
     [document sample_env "Nothing yet" 0 1000 (Some "Other")])
  /\ (exists errs msg,
         post_records plain_runtime sample_env post_gift []
         = Throw (ValidationError errs) /\
         In ("category", msg) errs /\
         app plain_runtime sample_env post_gift []
         = (error_middleware (ValidationError errs), []))
  /\ (exists r,
         [document sample_env "Freelance gig" 250 1000 (Some "Freelance")]
         = [] ++ [r] /\
         ((exists c, category r = Some c /\ In c categories) \/
          (category r = None /\
           prop "category" (req_body post_freelance) = Some VNull /\
           enum_accepts_null plain_runtime = true))).
Proof.
  pose proof (create_category_default_or_reject plain_runtime sample_env
                post_zero [] eq_refl eq_refl) as [Hdefault _].
  pose proof (create_category_default_or_reject plain_runtime sample_env
                post_gift [] eq_refl eq_refl) as [_ [Hreject _]].
  pose proof (create_category_default_or_reject plain_runtime sample_env
                post_freelance [] eq_refl eq_refl) as [_ [_ Hstored]].
  split; [| split].
  - apply (proj2 (Hdefault eq_refl "Nothing yet" 0%Q 1000
                    eq_refl eq_refl eq_refl eq_refl)).
  - apply (Hreject (VStr "Gift") eq_refl).
    + intros s Hs. inversion Hs. subst s. simpl.
      intros [H | [H | [H | [H | [H | []]]]]]; discriminate H.
    + discriminate.
  - apply (Hstored {| res_status := 201;
                      res_body := created_body plain_runtime
                        (document sample_env "Freelance gig" 250 1000 (Some "Freelance")) |}).
    reflexivity.
Defined.

(** C7 fails as stated: the create with amount -1 fails the validation
    and is answered 500, not 400. *)
Lemma negative_amount_answered_500 :
  new_document plain_runtime sample_env
    (create_input sample_env (req_body post_negative))
  = Throw (ValidationError [("amount", "Amount must be positive")])
  /\ res_status (fst (app plain_runtime sample_env post_negative [])) = 500%nat
  /\ res_status (fst (app plain_runtime sample_env post_negative [])) <> 400%nat.
Proof.
  split; [reflexivity | split; [reflexivity | discriminate]].
Qed.

(** The answer to a create with a blank description and the amount -1:
    both paths are listed. *)
Lemma validation_failure_answer_witness :
  In ("description", "Description is required")
     (path_failures plain_runtime
        (create_input sample_env (req_body post_blank_negative)))
  /\ In ("amount", "Amount must be positive")
        (path_failures plain_runtime
           (create_input sample_env (req_body post_blank_negative)))
  /\ app plain_runtime sample_env post_blank_negative []
     = ({| res_status := 500;
           res_body :=
             VObj [ ("status", VStr "error");
                    ("message",
                     VStr "IncomeRecord validation failed: description: Description is required, amount: Amount must be positive") ] |},
        []).
Proof.
  assert (Hfinite : finite_amount (prop "amount" (req_body post_blank_negative)))
    by (intros s n H; discriminate H).
  destruct (validation_failure_answer plain_runtime sample_env
              post_blank_negative [] eq_refl eq_refl Hfinite)
    as [Hbad [_ [_ [_ [Hanswer _]]]]].
  split; [| split].
  - apply Hbad. right. left. exists "  ". repeat split.
  - apply Hbad. do 5 right. left. exists (-1)%Q. repeat split.
  - apply Hanswer. discriminate.
Defined.

(** C9 fails as stated on [server.js]: [GET /health] is answered 404 by
    the catch-all handler. *)
Lemma health_is_not_found :
  app plain_runtime sample_env get_health []
  = ({| res_status := 404;
        res_body := VObj [ ("status", VStr "fail");
                           ("message",
                            VStr "Can't find /health on this server!") ] |},
     [])
  /\ res_status (fst (app plain_runtime sample_env get_health [])) <> 200%nat.
Proof.
  split; [reflexivity | discriminate].
Qed.

(** The two answers to a health request. *)
Lemma health_route_answers_witness :
  app plain_runtime sample_env get_health [record_gt]
  = (not_found get_health, [record_gt])
  /\ res_status (Legacy.get_health plain_runtime 1000) = 200%nat.
Proof.
  split.
  - apply (proj1 (health_route_answers plain_runtime) sample_env get_health
             [record_gt] eq_refl).
  - apply (proj2 (health_route_answers plain_runtime) 1000).
Defined.

(** C8 fails as stated: with [page=-1] the page stays -1, the query is
    built with [skip] -20 and awaited, the store refuses it and the answer
    is 500, not 400. *)
Lemma negative_page_reaches_store :
  page_of (req_query get_page_minus_1) = Num (-1)
  /\ build_query plain_runtime (req_query get_page_minus_1)
     = Ok {| q_filter := QObj []; q_sort := Some "-date";
             q_skip := Some (Num (-20)); q_limit := Some (Num 10) |}
  /\ res_status (fst (app plain_runtime sample_env get_page_minus_1 [record_gt]))
     = 500%nat
  /\ res_status (fst (app plain_runtime sample_env get_page_minus_1 [record_gt]))
     <> 400%nat.
Proof.
  split; [reflexivity | split; [reflexivity | split; [reflexivity |]]].
  discriminate.
Qed.

(** Paging of a request without [page], and of the request with
    [page=-1]. *)
Lemma paging_defaults_only_witness :
  page_of (req_query get_all) = Num 1
  /\ limit_of (req_query get_all) = Num 10
  /\ page_of (req_query get_page_minus_1) = Num (-1 * 1)
  /\ (exists s, skip_of (req_query get_page_2_limit_1) = Num s /\ (0 <= s)%Q)
  /\ res_status (fst (app plain_runtime sample_env get_page_minus_1 [record_gt]))
     = 500%nat.
Proof.
  pose proof (paging_defaults_only plain_runtime sample_env get_all [])
    as [Hpage [_ [Hlimit _]]].
  pose proof (paging_defaults_only plain_runtime sample_env get_page_minus_1
                [record_gt]) as [_ [Hgiven [_ [_ [_ Hrefused]]]]].
  pose proof (paging_defaults_only plain_runtime sample_env get_page_2_limit_1
                []) as [_ [_ [_ [_ [Hskip _]]]]].
  split; [| split; [| split; [| split]]].
  - apply Hpage. reflexivity.
  - apply Hlimit. reflexivity.
  - apply (proj2 (Hgiven (-1)%Q eq_refl)). discriminate.
  - apply (Hskip 2%Q 1%Q); try reflexivity; discriminate.
  - apply (proj1 (Hrefused (-20)%Q eq_refl eq_refl eq_refl ltac:(discriminate))).
Defined.

(** C4 fails as stated: the answer to a list request carries no
    [totalPages]; and a request with [page=-1], with [sort] given twice,
    with a [sort] of two empty names (under a Mongoose that refuses it) or
    with an amount that is no number is answered 500, with no records. *)
Lemma list_answer_without_totalPages :
  res_status (fst (app plain_runtime sample_env get_all [record_gt; record_pay]))
  = 200%nat
  /\ prop "totalPages"
       (res_body (fst (app plain_runtime sample_env get_all
                         [record_gt; record_pay]))) = None
  /\ prop "total"
       (res_body (fst (app plain_runtime sample_env get_all
                         [record_gt; record_pay]))) = Some (VNat 2)
  /\ (forall req, In req [get_page_minus_1; get_sort_twice; get_sort_comma;
                          get_amount_abc] ->
        res_status (fst (app plain_runtime sample_env req
                           [record_gt; record_pay])) = 500%nat /\
        prop "data" (res_body (fst (app plain_runtime sample_env req
                                      [record_gt; record_pay]))) = None).
Proof.
  split; [reflexivity | split; [reflexivity | split; [reflexivity |]]].
  intros req [<- | [<- | [<- | [<- | []]]]]; split; reflexivity.
Qed.

(** The second page of size 1 of a collection of two: the older record. *)
Lemma list_answer_witness :
  app plain_runtime sample_env get_page_2_limit_1 [record_gt; record_pay]
  = ({| res_status := 200;
        res_body := list_body plain_runtime [record_gt] 2 |},
     [record_gt; record_pay]).
Proof.
  destruct (list_answer plain_runtime sample_env get_page_2_limit_1
              [record_gt; record_pay] "-date" 2 1 2 1
              eq_refl eq_refl eq_refl eq_refl
              eq_refl ltac:(reflexivity) ltac:(lia)
              eq_refl ltac:(reflexivity) ltac:(lia)
              ltac:(unfold safe_integer; lia) ltac:(unfold safe_integer; lia)
              ltac:(unfold safe_integer; lia))
    as [f [Hf [Hanswer _]]].
  assert (Hempty : f = QObj []) by (inversion Hf; reflexivity).
  rewrite Hempty in Hanswer.
  apply (proj1 (Hanswer [] eq_refl)).
Defined.

(** On a collection that holds a record described as [gt], the request
    [GET /api/records?description=gt] lists nothing. *)
Lemma description_gt_lists_nothing :
  description record_gt = "gt"
  /\ app plain_runtime sample_env get_description_gt [record_gt; record_pay]
     = ({| res_status := 200; res_body := list_body plain_runtime [] 0 |},
        [record_gt; record_pay]).
Proof.
  split; reflexivity.
Qed.

(** The translation of a suffix of a key: [amount[gte]=6] lists the records
    whose amount is at least 6. *)
Lemma amount_gte_6_lists_pay :
  JSON_parse (queryStr_of (req_query get_amount_gte_6))
  = Some (QObj [("amount", QObj [("$gte", QStr "6")])])
  /\ app plain_runtime sample_env get_amount_gte_6 [record_gt; record_pay]
     = ({| res_status := 200;
           res_body := list_body plain_runtime [record_pay] 1 |},
        [record_gt; record_pay]).
Proof.
  split; reflexivity.
Qed.

(** C6 fails as stated: the statistics of an empty collection carry
    neither [count] nor [average], and two categories of equal totals
    come in the order they were met, [Salary] before [Freelance]. *)
Lemma stats_empty_and_equal_totals :
  res_body (Legacy.get_stats []) = VObj [("categories", VArr [])]
  /\ prop "count" (res_body (Legacy.get_stats [])) = None
  /\ prop "average" (res_body (Legacy.get_stats [])) = None
  /\ map Legacy.g_id (Legacy.category_groups [salary_100; freelance_100])
     = [Some "Salary"; Some "Freelance"]
  /\ Legacy.sorted_by Legacy.total_then_name
       (Legacy.category_groups [salary_100; freelance_100]) = false.
Proof.
  repeat split.
Qed.

(** The statistics of three records in two categories. *)
Lemma stats_answer_witness :
  (exists t a,
      res_body (Legacy.get_stats [salary_100; freelance_100; freelance_third])
      = VObj [ ("totalAmount", VNum t);
               ("count", VNat 3);
               ("average", VNum a);
               ("categories",
                VArr (map Legacy.category_json
                        (Legacy.category_groups
                           [salary_100; freelance_100; freelance_third]))) ] /\
      (t == 100 + 100 + (1 # 3))%Q /\
      (a == 6678 # 100)%Q)
  /\ Legacy.g_count
       {| Legacy.g_id := Some "Freelance"; Legacy.g_total := 301 # 3;
          Legacy.g_count := 2 |}
     = List.length
         (filter (Legacy.in_category (Some "Freelance"))
                 [salary_100; freelance_100; freelance_third]).
Proof.
  pose proof (stats_answer [salary_100; freelance_100; freelance_third])
    as [_ [Hall [_ [_ [_ [Hgroup _]]]]]].
  split.
  - destruct Hall as [t [a [Hbody [Ht [Ha _]]]]]; [discriminate |].
    exists t, a. split; [exact Hbody | split].
    + rewrite Ht. reflexivity.
    + rewrite Ha. reflexivity.
  - apply (Hgroup {| Legacy.g_id := Some "Freelance"; Legacy.g_total := 301 # 3;
                     Legacy.g_count := 2 |}).
    left. reflexivity.
Defined.

(** A create into a collection of one record within the schema. *)
Lemma app_keeps_records_within_schema_witness :
  Forall (within_schema plain_runtime)
         (snd (app plain_runtime sample_env post_freelance [record_gt])).
Proof.
  apply app_keeps_records_within_schema.
  constructor; [| constructor].
  unfold within_schema. simpl.
  repeat split; try reflexivity; try discriminate.
  - unfold Qle. simpl. lia.
  - tauto.
Defined.
(** A description given with white space around it. *)
Lemma create_trims_description_witness :
  app plain_runtime sample_env post_padded [record_gt]
  = ({| res_status := 201;
        res_body := created_body plain_runtime
                      (document sample_env "Side job" 40 1000 (Some "Other")) |},
     [record_gt; document sample_env "Side job" 40 1000 (Some "Other")]).
Proof.
  apply (proj2 (proj2 (create_trims_description plain_runtime sample_env
                         post_padded [record_gt] "  Side job  "
                         eq_refl eq_refl eq_refl)));
    try reflexivity.
  - discriminate.
  - simpl. lia.
Defined.

(** A create with the date 0, and one with the date 500. *)
Lemma create_date_or_now_witness :
  app plain_runtime sample_env post_date_0 []
  = ({| res_status := 201;
        res_body := created_body plain_runtime
                      (document sample_env "Old debt" 1 1000 (Some "Other")) |},
     [document sample_env "Old debt" 1 1000 (Some "Other")])
  /\ app plain_runtime sample_env post_date_500 []
     = ({| res_status := 201;
           res_body := created_body plain_runtime
                         (document sample_env "Old debt" 1 500 (Some "Other")) |},
        [document sample_env "Old debt" 1 500 (Some "Other")]).
Proof.
  split.
  - apply (proj1 (create_date_or_now plain_runtime sample_env post_date_0 []
                    eq_refl eq_refl)); try reflexivity.
    right. exists (VNum 0). split; reflexivity.
  - apply (proj1 (proj2 (create_date_or_now plain_runtime sample_env
                           post_date_500 [] eq_refl eq_refl))
             "Old debt" 1%Q (Some "Other") (VNum 500) 500);
      try reflexivity.
    intros t' H. discriminate H.
Defined.

(** A delete of [/api/records/stats]. *)
Lemma delete_malformed_identifier_witness :
  app plain_runtime sample_env delete_stats [record_gt]
  = ({| res_status := 500;
        res_body := VObj [ ("status", VStr "error");
                           ("message", VStr "Cast to ObjectId failed") ] |},
     [record_gt]).
Proof.
  apply (delete_malformed_identifier plain_runtime sample_env delete_stats
           "stats" [record_gt]); reflexivity.
Defined.

(** A create into a collection of two, then the delete of the new record. *)
Lemma create_then_delete_restores_witness :
  app plain_runtime sample_env delete_7
      (snd (app plain_runtime sample_env post_freelance [record_gt; record_pay]))
  = (record_deleted, [record_gt; record_pay]).
Proof.
  apply (create_then_delete_restores plain_runtime sample_env sample_env
           post_freelance delete_7 "7" [record_gt; record_pay]);
    reflexivity.
Defined.
(** The list with and without [fields=amount]. *)
Lemma fields_parameter_is_ignored_witness :
  app plain_runtime sample_env get_fields_amount [record_gt; record_pay]
  = app plain_runtime sample_env get_all [record_gt; record_pay].
Proof.
  apply (fields_parameter_is_ignored plain_runtime sample_env
           get_fields_amount get_all [record_gt; record_pay]);
    reflexivity.
Defined.

(** The whole list and its second page of one record: the same total. *)
Lemma total_ignores_paging_and_sort_witness :
  exists res1 res2,
    get_records plain_runtime get_all [record_gt; record_pay] = Ok res1 /\
    get_records plain_runtime get_page_2_limit_1 [record_gt; record_pay]
    = Ok res2 /\
    prop "total" (res_body res1) = Some (VNat 2) /\
    prop "total" (res_body res2) = prop "total" (res_body res1).
Proof.
  destruct (get_records plain_runtime get_all [record_gt; record_pay])
    as [res1 | e] eqn:H1; [| vm_compute in H1; discriminate H1].
  destruct (get_records plain_runtime get_page_2_limit_1 [record_gt; record_pay])
    as [res2 | e] eqn:H2; [| vm_compute in H2; discriminate H2].
  exists res1, res2.
  destruct (total_ignores_paging_and_sort plain_runtime get_all
              get_page_2_limit_1 [record_gt; record_pay] res1 res2
              eq_refl H1 H2)
    as [f [cs [Hf [Hc [Ht [Hsame _]]]]]].
  vm_compute in Hf. inversion Hf. subst f.
  vm_compute in Hc. inversion Hc. subst cs.
  repeat split; assumption.
Defined.

(** The list of two records, the newer one first. *)
Lemma default_order_is_newest_first_witness :
  exists records total,
    get_records plain_runtime get_all [record_gt; record_pay]
    = Ok {| res_status := 200;
            res_body := list_body plain_runtime records total |} /\
    StronglySorted (fun a b => date b <= date a) records.
Proof.
  destruct (get_records plain_runtime get_all [record_gt; record_pay])
    as [res | e] eqn:H; [| vm_compute in H; discriminate H].
  destruct (default_order_is_newest_first plain_runtime get_all
              [record_gt; record_pay] res eq_refl H)
    as [f [cs [records [total [_ [_ [Hres [Hsorted _]]]]]]]].
  exists records, total. rewrite Hres. split; [reflexivity | exact Hsorted].
Defined.

(** The second page of one record out of two. *)
Lemma page_is_a_window_of_the_listing_witness :
  exists records,
    app plain_runtime sample_env get_page_2_limit_1 [record_gt; record_pay]
    = ({| res_status := 200;
          res_body := list_body plain_runtime records 2 |},
       [record_gt; record_pay]) /\
    nth_error records 0 = Some record_gt /\
    List.length records = 1%nat.
Proof.
  destruct (page_is_a_window_of_the_listing plain_runtime sample_env
              get_page_2_limit_1 [record_gt; record_pay]
              (QObj []) "-date" [] 2 1 2 1)
    as [records [Happ [_ [Hnth [Hlen _]]]]];
    try reflexivity; try lia; try (unfold safe_integer; lia).
  exists records. split; [exact Happ | split].
  - rewrite (Hnth 0%nat); [reflexivity | simpl; lia].
  - rewrite Hlen. reflexivity.
Defined.

(** [sort] given twice, and [sort] given as an object. *)
Lemma sort_that_is_no_string_fails_witness :
  res_status (fst (app plain_runtime sample_env get_sort_twice [record_gt]))
  = 500%nat
  /\ res_status (fst (app plain_runtime sample_env get_sort_nested [record_gt]))
     = 500%nat.
Proof.
  split.
  - rewrite (sort_that_is_no_string_fails plain_runtime sample_env
               get_sort_twice [record_gt]
               (QArr [QStr "date"; QStr "amount"]));
      try reflexivity.
    intros s H. discriminate H.
  - rewrite (sort_that_is_no_string_fails plain_runtime sample_env
               get_sort_nested [record_gt] (QObj [("date", QStr "1")]));
      try reflexivity.
    intros s H. discriminate H.
Defined.

(** A range on the amount and a description that reads [lt]. *)
Lemma filter_is_the_query_rewritten_witness :
  parse_filter plain_runtime (queryStr_of (req_query get_range_and_note))
  = Ok (QObj [("amount", QObj [("$gte", QStr "5"); ("$lt", QStr "300")]);
              ("description", QStr "$lt")]).
Proof.
  rewrite (filter_is_the_query_rewritten plain_runtime
             (req_query get_range_and_note) eq_refl).
  reflexivity.
Defined.

(** A filter on the category [Salary], sorted by amount. *)
Lemma operator_free_query_is_the_filter_witness :
  parse_filter plain_runtime (queryStr_of (req_query get_salary_sorted))
  = Ok (QObj [("category", QStr "Salary")]).
Proof.
  rewrite (operator_free_query_is_the_filter plain_runtime
             (req_query get_salary_sorted) eq_refl eq_refl).
  reflexivity.
Defined.

(** The filter of [amount[lte]=100]: it selects [record_gt], of amount 5,
    and not [record_pay], of amount 250. *)
Lemma amount_comparison_selects_witness :
  parse_filter plain_runtime (queryStr_of (req_query get_amount_lte_100))
  = Ok (QObj [("amount", QObj [("$lte", QStr "100")])])
  /\ matches [Cond "amount" CLte (FNum 100)] record_gt = true
  /\ ~ compares CLte (amount record_pay) 100.
Proof.
  destruct (amount_comparison_selects plain_runtime
              (req_query get_amount_lte_100) "lte" CLte "100" 100)
    as [Hf [_ Hsel]]; try reflexivity.
  - simpl. tauto.
  - discriminate.
  - split; [exact Hf | split].
    + apply Hsel. unfold compares, Qle. simpl. lia.
    + unfold compares, Qle. simpl. lia.
Defined.

(** The filter of [description=%20pay%20]: it selects the record whose
    description is [pay]. *)
Lemma text_filter_selects_equal_witness :
  parse_filter plain_runtime (queryStr_of (req_query get_description_padded))
  = Ok (QObj [("description", QStr " pay ")])
  /\ cast_filter plain_runtime (QObj [("description", QStr " pay ")])
     = Ok [Cond "description" CEq (FStr "pay")]
  /\ matches [Cond "description" CEq (FStr "pay")] record_pay = true.
Proof.
  destruct (text_filter_selects_equal plain_runtime
              (req_query get_description_padded) "description" " pay ")
    as [Hf [Hc [Hsel _]]]; try reflexivity.
  - right. reflexivity.
  - split; [exact Hf | split; [exact Hc |]].
    apply (Hsel record_pay). reflexivity.
Defined.

(** The sort parameter [-amount,date]. *)
Lemma sort_commas_become_spaces_witness :
  sort_of plain_runtime (req_query get_sort_two_keys) = Ok "-amount date"
  /\ sort_keys "-amount date" = [("amount", true); ("date", false)].
Proof.
  destruct (sort_commas_become_spaces plain_runtime
              (req_query get_sort_two_keys) "-amount,date" eq_refl)
    as [sortBy [Hs _]].
  - discriminate.
  - split; reflexivity.
Defined.

(** A create into a collection of two, and the list before and after. *)
Lemma created_record_is_counted_witness :
  exists res res',
    get_records plain_runtime get_all [record_gt; record_pay] = Ok res /\
    prop "total" (res_body res) = Some (VNat 2) /\
    get_records plain_runtime get_all
      (snd (app plain_runtime sample_env post_freelance [record_gt; record_pay]))
    = Ok res' /\
    prop "total" (res_body res') = Some (VNat 3).
Proof.
  destruct (get_records plain_runtime get_all [record_gt; record_pay])
    as [res | e] eqn:H; [| vm_compute in H; discriminate H].
  destruct (created_record_is_counted plain_runtime sample_env post_freelance
              get_all [record_gt; record_pay] res
              eq_refl eq_refl eq_refl eq_refl H)
    as [Hbefore [res' [Hget Hafter]]].
  exists res, res'. repeat split; assumption.
Defined.

(** A create and a delete on a collection of two distinct identifiers. *)
Lemma app_keeps_ids_unique_witness :
  NoDup (map _id (snd (app plain_runtime sample_env post_freelance
                         [record_gt; record_pay])))
  /\ NoDup (map _id (snd (app plain_runtime sample_env delete_2
                            [record_gt; record_pay]))).
Proof.
  assert (Hnd : NoDup (map _id [record_gt; record_pay])).
  { simpl. constructor.
    - simpl. intros [H | []]. discriminate H.
    - constructor; [intros [] | constructor]. }
  split; apply app_keeps_ids_unique; exact Hnd.
Defined.

(** Seven records: two pages, of five and of two. *)
Lemma client_pages_cover_the_records_witness :
  Client.totalPages
    (Client.updatePagination true [1; 2; 3; 4; 5; 6; 7] Client.initial) = 2
  /\ Client.paginatedRecords
       {| Client.currentPage := 2; Client.totalPages := 2 |}
       [1; 2; 3; 4; 5; 6; 7] <> []
  /\ Client.paginatedRecords
       {| Client.currentPage := 3; Client.totalPages := 2 |}
       [1; 2; 3; 4; 5; 6; 7] = [].
Proof.
  destruct (client_pages_cover_the_records Z [1; 2; 3; 4; 5; 6; 7])
    as [_ [Hin Hout]].
  split; [reflexivity | split].
  - apply (Hin 2). vm_compute. split; discriminate.
  - apply (Hout 3). reflexivity.
Defined.

(** Seven records and three clicks on [Next]: the pager stops at page 2. *)
Lemma client_paging_stays_on_the_records_witness :
  Client.currentPage
    (fold_left (fun st c => Client.on_click true [1; 2; 3; 4; 5; 6; 7] c st)
               [Client.Next; Client.Next; Client.Next]
               (Client.updatePagination true [1; 2; 3; 4; 5; 6; 7]
                                        Client.initial)) = 2
  /\ Client.paginatedRecords
       (fold_left (fun st c => Client.on_click true [1; 2; 3; 4; 5; 6; 7] c st)
                  [Client.Next; Client.Next; Client.Next]
                  (Client.updatePagination true [1; 2; 3; 4; 5; 6; 7]
                                           Client.initial))
       [1; 2; 3; 4; 5; 6; 7] <> [].
Proof.
  destruct (client_paging_stays_on_the_records Z [1; 2; 3; 4; 5; 6; 7]
              [Client.Next; Client.Next; Client.Next])
    as [_ [_ Hshown]].
  split; [reflexivity |].
  apply Hshown. discriminate.
Defined.

(** Two deletes of the identifier 2 on the earlier server. *)
Lemma legacy_delete_answers_204_always_witness :
  Legacy.delete_record plain_runtime "2" [salary_100; freelance_100]
  = ({| Legacy.code := 204; Legacy.body := None |}, [salary_100])
  /\ Legacy.delete_record plain_runtime "2" [salary_100]
     = ({| Legacy.code := 204; Legacy.body := None |}, [salary_100]).
Proof.
  assert (Hnd : NoDup (map Legacy._id [salary_100; freelance_100])).
  { simpl. constructor.
    - simpl. intros [H | []]. discriminate H.
    - constructor; [intros [] | constructor]. }
  destruct (proj1 (legacy_delete_answers_204_always plain_runtime "2"
                     [salary_100; freelance_100]) 2%N eq_refl Hnd)
    as [H1 [_ H2]].
  split; [exact H1 | exact H2].
Defined.

(** Page 3 of 23 records, 10 to a page: the last page that has one. *)
Lemma legacy_total_pages_witness :
  Legacy.skip_of [("page", QStr "3")] = Num ((3 - 1) * 10)
  /\ Legacy.totalPages_of 23 [("page", QStr "3")] = VNum 3
  /\ Legacy.currentPage_of [("page", QStr "3")] = VNum 3
  /\ Legacy.limit_of [("page", QStr "3")] = Num 10.
Proof.
  destruct (legacy_total_pages [("page", QStr "3")] 23 3 10 3 10)
    as [s [n [_ [_ [_ [_ [_ [_ [Hlimit [Hpage _]]]]]]]]]];
    try reflexivity; try lia.
  split; [reflexivity | split; [reflexivity | split]].
  - apply (Hpage "3"); [reflexivity | discriminate | reflexivity].
  - apply Hlimit. reflexivity.
Defined.

(** Three records in two categories. *)
Lemma stats_categories_add_up_witness :
  Legacy.sum_counts
    (Legacy.category_groups [salary_100; freelance_100; freelance_third]) = 3%nat
  /\ prop "count"
       (res_body (Legacy.get_stats [salary_100; freelance_100; freelance_third]))
     = Some (VNat 3).
Proof.
  destruct (stats_categories_add_up [salary_100; freelance_100; freelance_third])
    as [_ [Hc [_ Hbody]]].
  split; [exact Hc |].
  destruct Hbody as [t [_ [Hcount _]]]; [discriminate |].
  rewrite Hcount, Hc. reflexivity.
Defined.

(** A [GET] of [/health], outside the three routes, and a [GET] of
    [/API/Records], which is the list route. *)
Lemma app_status_by_route_witness :
  app plain_runtime sample_env get_health [record_gt]
  = ({| res_status := 404;
        res_body := VObj [ ("status", VStr "fail");
                           ("message",
                            VStr "Can't find /health on this server!") ] |},
     [record_gt])
  /\ records_route get_all_upper
  /\ res_status (fst (app plain_runtime sample_env get_all_upper [record_gt]))
     = 200%nat.
Proof.
  destruct (app_status_by_route plain_runtime sample_env get_health [record_gt])
    as [_ [_ [_ [_ [Hout Hspec]]]]].
  split; [| split].
  - apply Hout.
    intros [[[a [b [H _]]] _] | [id [[a [b [H _]]] _]]]; discriminate H.
  - exists "API", "Records".
    split; [reflexivity | apply Hspec; split; reflexivity].
  - reflexivity.
Defined.

(** A [DELETE] of [/API/records/2] takes the record out. *)
Lemma app_changes_by_create_or_delete_only_witness :
  record_route delete_2_upper "2"
  /\ snd (app plain_runtime sample_env delete_2_upper [record_gt; record_pay])
     = [record_gt].
Proof.
  split; [exists "API", "records"; split; reflexivity |].
  destruct (app_changes_by_create_or_delete_only plain_runtime sample_env
              delete_2_upper [record_gt; record_pay])
    as [[H _] | [[_ [_ [id [i [[a [b [Hp _]]] [Hc [_ Hcoll]]]]]]] | [_ [H _]]]].
  - vm_compute in H. discriminate H.
  - rewrite Hcoll. inversion Hp. subst id.
    vm_compute in Hc. inversion Hc. reflexivity.
  - exfalso. apply H. reflexivity.
Defined.

(** A key that the rewrite leaves alone and one that it changes. *)
Lemma list_filter_keeps_the_shape_witness :
  reread "amount" = "amount" /\ reread "gte" = "$gte".
Proof.
  destruct (list_filter_keeps_the_shape plain_runtime) as [_ [_ Hplain]].
  split.
  - rewrite (Hplain "amount" eq_refl). reflexivity.
  - rewrite (Hplain "gte" eq_refl). reflexivity.
Defined.

(** The plain list of two records. *)
Lemma plain_list_always_answers_witness :
  app plain_runtime sample_env get_all [record_gt; record_pay]
  = ({| res_status := 200;
        res_body := list_body plain_runtime [record_pay; record_gt] 2 |},
     [record_gt; record_pay]).
Proof.
  destruct (plain_list_always_answers plain_runtime sample_env get_all
              [record_gt; record_pay] eq_refl eq_refl eq_refl)
    as [H _].
  exact H.
Defined.

(** [amount[$gte]=6]. *)
Lemma dollar_operator_is_doubled_witness :
  parse_filter plain_runtime (queryStr_of (req_query get_amount_dollar_gte))
  = Ok (QObj [("amount", QObj [("$$gte", QStr "6")])])
  /\ app plain_runtime sample_env get_amount_dollar_gte [record_gt; record_pay]
     = ({| res_status := 500;
           res_body := VObj [ ("status", VStr "error");
                              ("message",
                               VStr "Cast failed at path amount") ] |},
        [record_gt; record_pay]).
Proof.
  destruct (dollar_operator_is_doubled plain_runtime sample_env
              get_amount_dollar_gte [record_gt; record_pay] "gte" CGte "6")
    as [Hf [_ [Happ _]]]; try reflexivity.
  - simpl. tauto.
  - split; [exact Hf |]. rewrite (Happ eq_refl). reflexivity.
Defined.
